(** * A shallow embedding of the NNTP client (package nntp, nntp.go)

    The development follows the Go source function by function.  Go
    strings and byte slices are [list ascii]; the connection's buffered
    reader and its writer are in-memory streams; a Go run-time panic
    (index out of range, nil dereference) is an explicit outcome. *)

From Stdlib Require Import ZArith Ascii String List Lia Bool Sorted.
From stdpp Require Import base option list gmap strings.
Import ListNotations.

Local Open Scope Z_scope.
Local Open Scope list_scope.

(** ** Bytes *)

Abbreviation bytes := (list ascii).

(** A Go string literal. *)
Definition str (s : string) : bytes := list_ascii_of_string s.

Definition TAB : ascii := ascii_of_nat 9.
Definition LF : ascii := ascii_of_nat 10.
Definition CR : ascii := ascii_of_nat 13.
Definition SP : ascii := ascii_of_nat 32.
Definition DOT : ascii := ascii_of_nat 46.
Definition COLON : ascii := ascii_of_nat 58.
Definition CRLF : bytes := [CR; LF].

Definition byte_eqb (a b : ascii) : bool := Ascii.eqb a b.

Fixpoint bytes_eqb (s t : bytes) : bool :=
  match s, t with
  | [], [] => true
  | a :: s', b :: t' => byte_eqb a b && bytes_eqb s' t'
  | _, _ => false
  end.

(** [len(s)] as a Go int. *)
Definition len {A} (s : list A) : Z := Z.of_nat (length s).

(** [strings.HasPrefix] / [bytes.HasPrefix]. *)
Fixpoint HasPrefix (s p : bytes) {struct p} : bool :=
  match p, s with
  | [], _ => true
  | b :: p', a :: s' => byte_eqb a b && HasPrefix s' p'
  | _ :: _, [] => false
  end.

(** [strings.HasSuffix]. *)
Definition HasSuffix (s p : bytes) : bool := HasPrefix (rev s) (rev p).

(** [s[0 : len(s)-n]] for [n <= len(s)]. *)
Definition dropLast (n : nat) (s : bytes) : bytes := firstn (length s - n) s.

(** The first occurrence of [d] cuts [s] into the part up to and including
    [d] and the rest; [None] when [d] does not occur. *)
Fixpoint cut (d : ascii) (s : bytes) : option (bytes * bytes) :=
  match s with
  | [] => None
  | a :: s' =>
      if byte_eqb a d then Some ([a], s')
      else match cut d s' with
           | Some (l, rest) => Some (a :: l, rest)
           | None => None
           end
  end.

(** [bytes.Index(s, []byte{d})]; -1 when absent. *)
Fixpoint IndexByte (s : bytes) (d : ascii) : Z :=
  match s with
  | [] => -1
  | a :: s' =>
      if byte_eqb a d then 0
      else let i := IndexByte s' d in if i <? 0 then -1 else i + 1
  end.

(** [strings.Split(s, string(d))] for a one-byte separator: always at least
    one field. *)
Fixpoint Split (s : bytes) (d : ascii) : list bytes :=
  match s with
  | [] => [[]]
  | a :: s' =>
      if byte_eqb a d then [] :: Split s' d
      else match Split s' d with
           | f :: fs => (a :: f) :: fs
           | [] => [[a]]
           end
  end.

(** [strings.SplitN(s, string(d), n)] for [n > 0]: at most [n] fields, the
    last one being the unsplit remainder. *)
Fixpoint SplitN (s : bytes) (d : ascii) (n : nat) : list bytes :=
  match n with
  | O => []
  | S O => [s]
  | S n' =>
      match s with
      | [] => [[]]
      | a :: s' =>
          if byte_eqb a d then [] :: SplitN s' d n'
          else match SplitN s' d n with
               | f :: fs => (a :: f) :: fs
               | [] => [[a]]
               end
      end
  end.

(** *** [strings.TrimSpace]

    White space is [unicode.IsSpace] on the runes of the UTF-8 string: the
    six ASCII characters and the encodings of U+0085, U+00A0, U+1680,
    U+2000..U+200A, U+2028, U+2029, U+202F, U+205F and U+3000. *)

Definition asciiSpace (c : ascii) : bool :=
  let n := nat_of_ascii c in
  ((9 <=? n) && (n <=? 13))%nat || (n =? 32)%nat.

Definition utf8 (l : list nat) : bytes := map ascii_of_nat l.

Definition unicodeSpaces : list bytes :=
  ([ utf8 [194; 133]; utf8 [194; 160]; utf8 [225; 154; 128] ]
   ++ map (fun k => utf8 [226; 128; k]) (seq 128 11)
   ++ [ utf8 [226; 128; 168]; utf8 [226; 128; 169]; utf8 [226; 128; 175];
        utf8 [226; 129; 159]; utf8 [227; 128; 128] ])%nat.

(** The width of the white-space rune [s] starts with, if any. *)
Definition spaceWidth (encs : list bytes) (s : bytes) : option nat :=
  match s with
  | [] => None
  | c :: _ =>
      if asciiSpace c then Some 1%nat
      else match List.find (HasPrefix s) encs with
           | Some e => Some (length e)
           | None => None
           end
  end.

Fixpoint trimLeftFuel (fuel : nat) (encs : list bytes) (s : bytes) : bytes :=
  match fuel with
  | O => s
  | S f =>
      match spaceWidth encs s with
      | Some k => trimLeftFuel f encs (skipn k s)
      | None => s
      end
  end.

Definition TrimLeftSpace (s : bytes) : bytes :=
  trimLeftFuel (length s) unicodeSpaces s.

Definition TrimRightSpace (s : bytes) : bytes :=
  rev (trimLeftFuel (length s) (map (@rev ascii) unicodeSpaces) (rev s)).

Definition TrimSpace (s : bytes) : bytes := TrimRightSpace (TrimLeftSpace s).

(** [strings.TrimRight(s, "\r\n")]. *)
Fixpoint trimLeftSet (set : bytes) (s : bytes) : bytes :=
  match s with
  | a :: s' => if existsb (byte_eqb a) set then trimLeftSet set s' else s
  | [] => []
  end.

Definition TrimRight (s set : bytes) : bytes := rev (trimLeftSet set (rev s)).

(** [strings.Contains]. *)
Fixpoint Contains (s sub : bytes) : bool :=
  HasPrefix s sub ||
  match s with
  | [] => false
  | _ :: s' => Contains s' sub
  end.

(** ** Decimal numbers ([strconv]) *)

Inductive NumError := ErrSyntax | ErrRange.

Definition digitVal (c : ascii) : option Z :=
  let n := nat_of_ascii c in
  if ((48 <=? n) && (n <=? 57))%nat then Some (Z.of_nat n - 48) else None.

(** The value of a run of decimal digits; [None] on any other byte. *)
Fixpoint digits (acc : Z) (s : bytes) : option Z :=
  match s with
  | [] => Some acc
  | c :: s' =>
      match digitVal c with
      | Some d => digits (10 * acc + d) s'
      | None => None
      end
  end.

(** [strconv.ParseUint(s, 10, 0)] on a 64-bit platform.  Like Go, the
    function returns a value also with an error (0 on a syntax error, the
    largest value on a range error). *)
Definition ParseUint (s : bytes) : Z * option NumError :=
  match s with
  | [] => (0, Some ErrSyntax)
  | _ =>
      match digits 0 s with
      | None => (0, Some ErrSyntax)
      | Some v => if v <? 2 ^ 64 then (v, None) else (2 ^ 64 - 1, Some ErrRange)
      end
  end.

(** [strconv.ParseInt(s, 10, 64)]: an optional sign, then digits. *)
Definition ParseInt (s : bytes) : Z * option NumError :=
  let '(neg, body) :=
    match s with
    | c :: s' =>
        if byte_eqb c (ascii_of_nat 43) then (false, s')
        else if byte_eqb c (ascii_of_nat 45) then (true, s')
        else (false, s)
    | [] => (false, s)
    end in
  match s, body with
  | [], _ | _, [] => (0, Some ErrSyntax)
  | _, _ =>
      match digits 0 body with
      | None => (0, Some ErrSyntax)
      | Some v =>
          if neg then
            if v <=? 2 ^ 63 then (- v, None) else (- 2 ^ 63, Some ErrRange)
          else
            if v <? 2 ^ 63 then (v, None) else (2 ^ 63 - 1, Some ErrRange)
      end
  end.

(** [strconv.Atoi]: [int] is 64 bits wide. *)
Definition Atoi (s : bytes) : Z * option NumError := ParseInt s.

(** [strconv.Itoa] / the [%d] verb. *)
Fixpoint itoaPos (fuel : nat) (n : Z) (acc : bytes) : bytes :=
  match fuel with
  | O => acc
  | S f =>
      let acc' := ascii_of_nat (Z.to_nat (48 + n mod 10)) :: acc in
      if n <? 10 then acc' else itoaPos f (n / 10) acc'
  end.

Definition Itoa (n : Z) : bytes :=
  if n <? 0 then ascii_of_nat 45 :: itoaPos 20 (- n) [] else itoaPos 20 n [].

(** ** Errors and outcomes *)

Inductive error :=
  | EOF                                   (* io.EOF *)
  | ErrUnexpectedEOF                      (* io.ErrUnexpectedEOF *)
  | ErrBufferFull                         (* bufio.ErrBufferFull *)
  | TransportError (msg : bytes)          (* an I/O failure of the connection *)
  | ProtocolError (msg : bytes)           (* ProtocolError(msg) *)
  | ProtocolErrorf (format : bytes) (args : list bytes)
      (* ProtocolError(fmt.Sprintf(format, args...)), kept unrendered *)
  | Errorf (format : bytes) (args : list bytes)   (* fmt.Errorf *)
  | Error (Code : Z) (Msg : bytes).       (* nntp.Error{Code, Msg} *)

Definition isEOF (e : error) : bool :=
  match e with EOF => true | _ => false end.

(** The errors a transport or a decoder reports when its stream ends. *)
Inductive ioError :=
  | IoEOF
  | IoUnexpectedEOF
  | IoFailure (msg : bytes).

Definition ioE (e : ioError) : error :=
  match e with
  | IoEOF => EOF
  | IoUnexpectedEOF => ErrUnexpectedEOF
  | IoFailure msg => TransportError msg
  end.

Inductive panic :=
  | IndexOutOfRange (index length : Z)
  | NilDereference.

(** What a call does: it returns, it panics, or the model's loop bound was
    too small (the lemmas [*_total] at the end show that the bounds
    suffice). *)
Inductive Res (A : Type) :=
  | Ret (a : A)
  | Panic (p : panic)
  | OutOfFuel.
Arguments Ret {A} a.
Arguments Panic {A} p.
Arguments OutOfFuel {A}.

Definition bindRes {A B} (m : Res A) (k : A -> Res B) : Res B :=
  match m with
  | Ret a => k a
  | Panic p => Panic p
  | OutOfFuel => OutOfFuel
  end.

Notation "'let*' p ':=' m 'in' k" := (bindRes m (fun p => k))
  (at level 10, p pattern, m at level 100, k at level 200).

(** [s[i]] for an index that is not negative. *)
Definition index {A} (s : list A) (i : nat) : Res A :=
  match nth_error s i with
  | Some a => Ret a
  | None => Panic (IndexOutOfRange (Z.of_nat i) (len s))
  end.

(** [s[i]] with Go's bounds check. *)
Definition at_ {A} (s : list A) (i : Z) : Res A :=
  if (0 <=? i) && (i <? len s) then index s (Z.to_nat i)
  else Panic (IndexOutOfRange i (len s)).

(** ** Streams

    A [bufio.Reader] is modelled by what it will deliver: the bytes still to
    come, and the error its source reports once they are used up ([IoEOF]
    for an orderly end, an [IoFailure] for a broken connection).  The last
    byte read is kept for [UnreadByte]. *)

Record Bufio := mkBufio {
  pending : bytes;
  ioerr : ioError;
  lastByte : option ascii
}.

Definition newBufio (data : bytes) (e : ioError) : Bufio :=
  {| pending := data; ioerr := e; lastByte := None |}.

(** The buffer size of [bufio.NewReader] and of [newConn]'s reader. *)
Definition bufSize : Z := 4096.

Definition noteLast (line : bytes) (old : option ascii) : option ascii :=
  match last line with
  | Some c => Some c
  | None => old
  end.

(** [b.ReadBytes(delim)] and [b.ReadString(delim)]: the line grows across
    buffer fills, so it has no length limit. *)
Definition ReadBytes (delim : ascii) (b : Bufio) : (bytes * option error) * Bufio :=
  match cut delim (pending b) with
  | Some (line, rest) =>
      ((line, None), mkBufio rest (ioerr b) (noteLast line (lastByte b)))
  | None =>
      ((pending b, Some (ioE (ioerr b))),
       mkBufio [] (ioerr b) (noteLast (pending b) (lastByte b)))
  end.

Definition ReadString := ReadBytes.

(** [b.ReadSlice(delim)]: the line must fit the buffer. *)
Definition ReadSlice (delim : ascii) (b : Bufio) : (bytes * option error) * Bufio :=
  let full :=
    let n := Z.to_nat bufSize in
    ((firstn n (pending b), Some ErrBufferFull),
     mkBufio (skipn n (pending b)) (ioerr b)
             (noteLast (firstn n (pending b)) (lastByte b))) in
  match cut delim (pending b) with
  | Some (line, rest) =>
      if len line <=? bufSize
      then ((line, None), mkBufio rest (ioerr b) (noteLast line (lastByte b)))
      else full
  | None =>
      if len (pending b) <? bufSize
      then ((pending b, Some (ioE (ioerr b))),
            mkBufio [] (ioerr b) (noteLast (pending b) (lastByte b)))
      else full
  end.

(** [b.ReadByte()]: the byte is 0 when the read fails. *)
Definition ReadByte (b : Bufio) : (ascii * option error) * Bufio :=
  match pending b with
  | c :: rest => ((c, None), mkBufio rest (ioerr b) (Some c))
  | [] => ((zero, Some (ioE (ioerr b))), b)
  end.

(** [b.UnreadByte()]; its error is ignored by every caller. *)
Definition UnreadByte (b : Bufio) : Bufio :=
  match lastByte b with
  | Some c => mkBufio (c :: pending b) (ioerr b) None
  | None => b
  end.

(** The connection's write side: what has been sent, and the error every
    write fails with when the connection is broken. *)
Record Writer := mkWriter {
  written : bytes;
  werr : option ioError
}.

(** [fmt.Fprintf(w, ...)] with the text already rendered. *)
Definition Fprintf (w : Writer) (text : bytes) : option error * Writer :=
  match werr w with
  | Some e => (Some (ioE e), w)
  | None => (None, mkWriter (written w ++ text) None)
  end.

(** ** bodyReader *)

(** [buf] is the content of [r.buf]; a nil buffer and an empty one are both
    [[]], since [Read] allocates the buffer before it looks at it. *)
Record bodyReader := mkBody {
  eof : bool;
  buf : bytes
}.

Definition dotnl : bytes := [DOT; LF].
Definition dotdot : bytes := [DOT; DOT].

(** [r.Read(p)] with [n = len(p)], reading lines from the connection's
    reader [cr]. *)
Definition bodyReader_Read (n : nat) (r : bodyReader) (cr : Bufio)
  : Res ((bytes * option error) * bodyReader * Bufio) :=
  if eof r then Ret (([], Some EOF), r, cr)
  else if len (buf r) =? 0 then
    let '((b, err), cr') := ReadBytes LF cr in
    match err with
    | Some e => Ret (([], Some e), r, cr')
    | None =>
        (* canonicalize newlines *)
        let* c := at_ b (len b - 2) in
        let b :=
          if byte_eqb c CR
          then let b1 := dropLast 1 b in <[ (length b1 - 1)%nat := LF ]> b1
          else b in
        (* stop on . *)
        if bytes_eqb b dotnl then Ret (([], Some EOF), mkBody true (buf r), cr')
        else
          (* unescape leading .. *)
          let b := if HasPrefix b dotdot then skipn 1 b else b in
          let buf' := buf r ++ b in
          Ret ((firstn n buf', None), mkBody false (skipn n buf'), cr')
    end
  else Ret ((firstn n (buf r), None), mkBody false (skipn n (buf r)), cr).

(** [ioutil.ReadAll(r)]: [Read] is called until it reports an error, and
    [EOF] is not an error of [ReadAll].  The k-th call offers a buffer of
    [sizes k] bytes. *)
Fixpoint readAllLoop (fuel : nat) (sizes : nat -> nat) (k : nat) (acc : bytes)
    (r : bodyReader) (cr : Bufio)
  : Res ((bytes * option error) * bodyReader * Bufio) :=
  match fuel with
  | O => OutOfFuel
  | S f =>
      let* ((data, err), r', cr') := bodyReader_Read (sizes k) r cr in
      match err with
      | Some e =>
          Ret ((acc ++ data, if isEOF e then None else Some e), r', cr')
      | None => readAllLoop f sizes (S k) (acc ++ data) r' cr'
      end
  end.

(** Enough calls for any input when every buffer offered is non-empty: a
    call takes a byte out of [buf], or a line out of the connection. *)
Definition readAllFuel (r : bodyReader) (cr : Bufio) : nat :=
  (2 * length (pending cr) + length (buf r) + 2)%nat.

Definition ReadAllSized (sizes : nat -> nat) (r : bodyReader) (cr : Bufio) :=
  readAllLoop (readAllFuel r cr) sizes 0 [] r cr.

(** [ioutil.ReadAll] always has at least [bytes.MinRead] bytes to offer. *)
Definition MinRead : nat := 512.

Definition ReadAll := ReadAllSized (fun _ => MinRead).

(** [r.discard()]. *)
Definition discard (r : bodyReader) (cr : Bufio)
  : Res (option error * bodyReader * Bufio) :=
  let* ((_, err), r', cr') := ReadAll r cr in
  Ret (err, r', cr').

(** ** Conn

    [conn_r] and [conn_w] are [c.r] and [c.w] over the transport [c.conn];
    [conn_br] is the pointer [c.br] (nil is [None]): the body stream handed
    out by the last command lives here, so that the caller's reads and the
    next command's drain act on the same object. *)

Record Conn := mkConn {
  conn_w : Writer;
  conn_r : Bufio;
  conn_br : option bodyReader;
  conn_close : bool;
  xzverUnsupported : bool;
  xzverSupported : bool
}.

Definition set_w (c : Conn) (w : Writer) : Conn :=
  mkConn w (conn_r c) (conn_br c) (conn_close c) (xzverUnsupported c) (xzverSupported c).
Definition set_r (c : Conn) (r : Bufio) : Conn :=
  mkConn (conn_w c) r (conn_br c) (conn_close c) (xzverUnsupported c) (xzverSupported c).
Definition set_br (c : Conn) (br : option bodyReader) : Conn :=
  mkConn (conn_w c) (conn_r c) br (conn_close c) (xzverUnsupported c) (xzverSupported c).
Definition set_close (c : Conn) (b : bool) : Conn :=
  mkConn (conn_w c) (conn_r c) (conn_br c) b (xzverUnsupported c) (xzverSupported c).
Definition set_xzverUnsupported (c : Conn) (b : bool) : Conn :=
  mkConn (conn_w c) (conn_r c) (conn_br c) (conn_close c) b (xzverSupported c).
Definition set_xzverSupported (c : Conn) (b : bool) : Conn :=
  mkConn (conn_w c) (conn_r c) (conn_br c) (conn_close c) (xzverUnsupported c) b.

(** A method of [*Conn]: it returns a value and the connection's new
    state, or panics. *)
Definition M (A : Type) : Type := Conn -> Res (A * Conn).

(** [c.body()]. *)
Definition body : M unit :=
  fun c => Ret (tt, set_br c (Some (mkBody false []))).

(** The first lines of [cmd]: an unread body is discarded, and [c.br]
    becomes nil when that went well. *)
Definition drain : M (option error) :=
  fun c =>
    match conn_br c with
    | None => Ret (None, c)
    | Some r =>
        let* (err, r', cr') := discard r (conn_r c) in
        match err with
        | Some e => Ret (Some e, set_br (set_r c cr') (Some r'))
        | None => Ret (None, set_br (set_r c cr') None)
        end
    end.

(** The test on the status code at the end of [cmd]. *)
Definition codeMismatch (expectCode code : Z) : bool :=
  ((1 <=? expectCode) && (expectCode <? 10) && negb (code / 100 =? expectCode))
  || ((10 <=? expectCode) && (expectCode <? 100) && negb (code / 10 =? expectCode))
  || ((100 <=? expectCode) && (expectCode <? 1000) && negb (code =? expectCode)).

(** [c.cmd(expectCode, format, args...)]; [command] is the rendered
    [fmt.Sprintf(format, args...)].  The result is the triple
    [(code, line, err)]: a status mismatch returns the code and the text
    together with the error. *)
Definition cmd (expectCode : Z) (command : bytes) : M (Z * bytes * option error) :=
  fun c =>
    if conn_close c
    then Ret ((0, [], Some (ProtocolError (str "connection closed"))), c)
    else
      let* (derr, c) := drain c in
      match derr with
      | Some e => Ret ((0, [], Some e), c)
      | None =>
          let '(werr, w') := Fprintf (conn_w c) (command ++ CRLF) in
          let c := set_w c w' in
          match werr with
          | Some e => Ret ((0, [], Some e), c)
          | None =>
              let '((line, err), r') := ReadString LF (conn_r c) in
              let c := set_r c r' in
              match err with
              | Some e => Ret ((0, [], Some e), c)
              | None =>
                  let line := TrimSpace line in
                  if (len line <? 4) || negb (byte_eqb (nth 3 line zero) SP)
                  then Ret ((0, [],
                             Some (ProtocolErrorf (str "short response: %+q") [line])), c)
                  else
                    match ParseUint (firstn 3 line) with
                    | (_, Some _) =>
                        Ret ((0, [],
                              Some (ProtocolError (str "invalid response code: " ++ line))), c)
                    | (i, None) =>
                        let code := i in
                        let line := skipn 4 line in
                        if codeMismatch expectCode code
                        then Ret ((code, line, Some (Error code line)), c)
                        else Ret ((code, line, None), c)
                    end
              end
          end
      end.

(** [c.RawPost(r)]: the loop that sends the article, one line at a time.
    [br] is [bufio.NewReader(r)]. *)
Fixpoint postLoop (fuel : nat) (br : Bufio) (w : Writer) : Res (option error * Writer) :=
  match fuel with
  | O => OutOfFuel
  | S f =>
      let '((line, err), br') := ReadString LF br in
      let eof := match err with Some e => isEOF e | None => false end in
      match (if eof then None else err) with
      | Some e => Ret (Some e, w)
      | None =>
          if eof && (len line =? 0) then Ret (None, w)
          else
            let line := if HasSuffix line [LF] then dropLast 1 line else line in
            let prefix := if HasPrefix line [DOT] then [DOT] else [] in
            let '(werr, w') := Fprintf w (prefix ++ line ++ CRLF) in
            match werr with
            | Some e => Ret (Some e, w')
            | None => if eof then Ret (None, w') else postLoop f br' w'
            end
      end
  end.

Definition postLines (br : Bufio) (w : Writer) : Res (option error * Writer) :=
  postLoop (S (length (pending br))) br w.

(** [c.RawPost(r)], with [article] for [bufio.NewReader(r)]. *)
Definition RawPost (article : Bufio) : M (option error) :=
  fun c =>
    let* ((_, _, err), c) := cmd 3 (str "POST") c in
    match err with
    | Some e => Ret (Some e, c)
    | None =>
        let* (err, w') := postLines article (conn_w c) in
        let c := set_w c w' in
        match err with
        | Some e => Ret (Some e, c)
        | None =>
            let* ((_, _, err), c) := cmd 240 [DOT] c in
            Ret (err, c)
        end
    end.

(** [c.Quit()]; closing the transport has no effect the model could see,
    since a closed [Conn] does no I/O. *)
Definition Quit : M (option error) :=
  fun c =>
    let* ((_, _, err), c) := cmd 0 (str "QUIT") c in
    Ret (err, set_close c true).

(** ** Group status *)

Record Group := mkGroup {
  Name : bytes;
  Count : Z;
  High : Z;
  Low : Z;
  Status : bytes
}.

Definition set_Name (g : Group) (name : bytes) : Group :=
  mkGroup name (Count g) (High g) (Low g) (Status g).

(** The loop of [parseGroupStatus] over [n [3]int64], from index [i]. *)
Fixpoint parseThree (ss : list bytes) (i : nat) (todo : nat) : Res (option (list Z)) :=
  match todo with
  | O => Ret (Some [])
  | S t =>
      let* s := index ss i in
      match ParseInt s with
      | (_, Some _) => Ret None
      | (v, None) =>
          let* rest := parseThree ss (S i) t in
          Ret (match rest with Some l => Some (v :: l) | None => None end)
      end
  end.

(** [parseGroupStatus(line)]: the pointer [status] is nil ([None]) on every
    error return. *)
Definition parseGroupStatus (line : bytes) : Res (option Group * option error) :=
  let ss := SplitN line SP 4 in
  let bad := Some (ProtocolError (str "bad group response: " ++ line)) in
  if len ss <? 3 then Ret (None, bad)
  else
    let* n := parseThree ss 0 3 in
    match n with
    | Some [n0; n1; n2] => Ret (Some (mkGroup [] n0 n2 n1 []), None)
    | _ => Ret (None, bad)
    end.

(** [c.Group(group)]; the name [Group] is the record's. *)
Definition GroupCmd (group : bytes) : M (option Group * option error) :=
  fun c =>
    let* ((_, line, err), c) := cmd 211 (str "GROUP " ++ group) c in
    match err with
    | Some e => Ret ((None, Some e), c)
    | None =>
        let* (status, err) := parseGroupStatus line in
        match err with
        | Some e =>
            (* status.Name = group *)
            match status with
            | None => Panic NilDereference
            | Some g => Ret ((Some (set_Name g group), Some e), c)
            end
        | None => Ret ((status, None), c)
        end
    end.

(** ** Headers *)

(** The bytes [readLineBytes] chops off the end of a line. *)
Definition chopSet : bytes := [CR; TAB; LF].

(** [readLineBytes(b)]: the slice is nil ([[]]) with an error. *)
Definition readLineBytes (b : Bufio) : (bytes * option error) * Bufio :=
  let '((p, err), b') := ReadSlice LF b in
  match err with
  | Some e => (([], Some (if isEOF e then ErrUnexpectedEOF else e)), b')
  | None => ((TrimRight p chopSet, None), b')
  end.

Definition isBlank (c : ascii) : bool := byte_eqb c SP || byte_eqb c TAB.

(** [for i++; i < len(line); i++]: skip blanks before the value. *)
Fixpoint skipBlanks (s : bytes) : bytes :=
  match s with
  | c :: s' => if isBlank c then skipBlanks s' else s
  | [] => []
  end.

(** The inner loop of [readKeyValue] that eats the blanks at the start of a
    continuation line; [c] is the byte read last. *)
Fixpoint eatLeadingSpace (fuel : nat) (c : ascii) (b : Bufio) : Res (option error * Bufio) :=
  match fuel with
  | O => OutOfFuel
  | S f =>
      if isBlank c then
        let '((c', e), b') := ReadByte b in
        match e with
        | Some e => Ret (Some (if isEOF e then ErrUnexpectedEOF else e), b')
        | None => eatLeadingSpace f c' b'
        end
      else Ret (None, b)
  end.

(** The loop of [readKeyValue] that looks for extension lines. *)
Fixpoint extensionLoop (fuel : nat) (value : bytes) (b : Bufio)
  : Res ((bytes * option error) * Bufio) :=
  match fuel with
  | O => OutOfFuel
  | S f =>
      let '((c, e), b1) := ReadByte b in
      if negb (isBlank c) then
        let b2 := match e with Some EOF => b1 | _ => UnreadByte b1 end in
        Ret ((value, None), b2)
      else
        let* (err, b2) := eatLeadingSpace (S (S (length (pending b1)))) c b1 in
        match err with
        | Some e => Ret (([], Some e), b2)
        | None =>
            let b3 := UnreadByte b2 in
            let '((line, e), b4) := readLineBytes b3 in
            match e with
            | Some e => Ret (([], Some e), b4)
            | None => extensionLoop f (value ++ [SP] ++ line) b4
            end
        end
  end.

Definition malformed (line : bytes) : error :=
  ProtocolError (str "malformed header line: " ++ line).

(** [readKeyValue(b)]: the result is [(key, value, err)]. *)
Definition readKeyValue (b : Bufio) : Res ((bytes * bytes * option error) * Bufio) :=
  let '((line, e), b1) := readLineBytes b in
  match e with
  | Some ErrUnexpectedEOF => Ret (([], [], None), b1)
  | Some e => Ret (([], [], Some e), b1)
  | None =>
      if len line =? 0 then Ret (([], [], None), b1)
      else
        (* Scan first line for colon. *)
        let i := IndexByte line COLON in
        if i <? 0 then Ret (([], [], Some (malformed line)), b1)
        else
          let key := firstn (Z.to_nat i) line in
          if 0 <=? IndexByte key SP then Ret (([], [], Some (malformed line)), b1)
          else
            (* Skip initial space before value. *)
            let value := skipBlanks (skipn (Z.to_nat (i + 1)) line) in
            (* Look for extension lines, which must begin with space. *)
            let* ((value, err), b2) :=
              extensionLoop (S (length (pending b1))) value b1 in
            match err with
            | Some e => Ret (([], [], Some e), b2)
            | None => Ret ((key, value, None), b2)
            end
  end.

(** [http.CanonicalHeaderKey], from the documentation of the Go standard
    library: a key made of token bytes gets an upper-case first letter and
    an upper-case letter after every hyphen, all other letters in lower
    case; any other key is returned unchanged. *)
Definition validHeaderFieldByte (c : ascii) : bool :=
  let n := nat_of_ascii c in
  ((48 <=? n) && (n <=? 57))%nat || ((65 <=? n) && (n <=? 90))%nat
  || ((97 <=? n) && (n <=? 122))%nat
  || existsb (byte_eqb c) (str "!#$%&'*+-.^_`|~").

Definition canonByte (upper : bool) (c : ascii) : ascii :=
  let n := nat_of_ascii c in
  if upper && ((97 <=? n) && (n <=? 122))%nat then ascii_of_nat (n - 32)
  else if negb upper && ((65 <=? n) && (n <=? 90))%nat then ascii_of_nat (n + 32)
  else c.

Fixpoint canonLoop (upper : bool) (s : bytes) : bytes :=
  match s with
  | [] => []
  | c :: s' =>
      let c' := canonByte upper c in
      c' :: canonLoop (byte_eqb c' (ascii_of_nat 45)) s'
  end.

Definition CanonicalHeaderKey (s : bytes) : bytes :=
  if forallb validHeaderFieldByte s then canonLoop true s else s.

(** [Article]: the header is a Go map, the body a reader (nil after
    [readHeader]). *)
Record Article := mkArticle {
  Header : gmap bytes (list bytes);
  Body : option Bufio
}.

(** The loop of [readHeader]. *)
Fixpoint readHeaderLoop (fuel : nat) (hdr : gmap bytes (list bytes)) (r : Bufio)
  : Res ((option Article * option error) * Bufio) :=
  match fuel with
  | O => OutOfFuel
  | S f =>
      let* ((key, value, err), r') := readKeyValue r in
      match err with
      | Some e => Ret ((None, Some e), r')
      | None =>
          if len key =? 0 then Ret ((Some (mkArticle hdr None), None), r')
          else
            let key := CanonicalHeaderKey key in
            match hdr !! key with
            | Some oldvalue =>
                readHeaderLoop f (<[ key := oldvalue ++ [value] ]> hdr) r'
            | None => readHeaderLoop f (<[ key := [value] ]> hdr) r'
            end
      end
  end.

(** [c.readHeader(r)]. *)
Definition readHeader (r : Bufio) : Res ((option Article * option error) * Bufio) :=
  readHeaderLoop (S (S (length (pending r)))) ∅ r.

(** ** Overview

    [parseDate], the yEnc reader and [newZlibDotResponse] are declared in
    other files of the package, and DEFLATE in the standard library.  They
    are taken as parameters: a decoder turns the state of the connection's
    reader into the [bufio.Reader] of the decoded stream, and closing it
    tells where the connection's reader stands once the decoder has been
    read that far. *)
Class External := {
  Time : Type;
  zeroTime : Time;                                  (* time.Time{} *)
  parseDate : bytes -> Time * option error;
  (* bufio.NewReader(flate.NewReader(&yencReader{r: c.r})) *)
  yencFlate : Bufio -> Bufio;
  (* flateStream.Close(); yencStream.Close() *)
  yencFlateClose : Bufio -> Bufio -> Bufio;
  (* newZlibDotResponse(c.r): the error and zdr.Reader *)
  newZlibDotResponse : Bufio -> option error * Bufio;
  (* zdr.Close(); a second Close changes nothing *)
  zdrClose : Bufio -> Bufio -> option error * Bufio
}.

Section Overview.
Context `{Ext : External}.

Record MessageOverview := mkOverview {
  MessageNumber : Z;
  Subject : bytes;
  From : bytes;
  Date : Time;
  MessageId : bytes;
  References : list bytes;
  Bytes : Z;
  Lines : Z;
  Extra : list bytes
}.

(** The loop of [parseOverview] that glues a field which is not a number
    of bytes onto the references; [bytes0] is [overview.Bytes]. *)
Fixpoint glueLoop (fuel : nat) (ss : list bytes) (bytes0 : Z) : Res (list bytes * Z) :=
  match fuel with
  | O => OutOfFuel
  | S f =>
      if len ss <? 8 then Ret (ss, bytes0)
      else
        let* s6 := index ss 6 in
        match Atoi s6 with
        | (v, Some _) =>
            let* s5 := index ss 5 in
            let ss := <[ 5%nat := s5 ++ s6 ]> ss in
            let ss := firstn 6 ss ++ skipn 7 ss in
            glueLoop f ss v
        | (v, None) => Ret (ss, v)
        end
  end.

(** The body of [parseOverview]'s loop for one line (without its line
    end): the record, or the error the function returns. *)
Definition parseOverviewLine (line : bytes) : Res (MessageOverview + error) :=
  let ss := Split (TrimSpace line) TAB in
  if len ss <? 8
  then Ret (inr (ProtocolError (str "short header listing line: " ++ line ++ Itoa (len ss))))
  else
    let* ss0 := index ss 0 in
    match ParseInt ss0 with
    | (_, Some _) =>
        Ret (inr (ProtocolError
                    (str "bad message number '" ++ ss0 ++ str "' in line: " ++ line)))
    | (number, None) =>
        let* subject := index ss 1 in
        let* from := index ss 2 in
        let* ss3 := index ss 3 in
        let date :=
          match parseDate ss3 with
          | (_, Some _) => zeroTime
          | (t, None) => t
          end in
        let* messageId := index ss 4 in
        let* (ss, nbytes) := glueLoop (S (length ss)) ss 0 in
        let* ss5 := index ss 5 in
        let references := Split ss5 SP in
        let* ss7 := index ss 7 in
        let mk (lines : Z) :=
          mkOverview number subject from date messageId references nbytes lines
                     (skipn 8 ss) in
        if len ss7 =? 0 then Ret (inl (mk 0))
        else
          match Atoi ss7 with
          | (_, Some _) =>
              Ret (inr (ProtocolErrorf
                          (str "bad line count %q in line %q (split into %#v)")
                          (ss7 :: line :: ss)))
          | (lines, None) => Ret (inl (mk lines))
          end
    end.

(** [parseOverview(r)]. *)
Fixpoint parseOverviewLoop (fuel : nat) (result : list MessageOverview) (r : Bufio)
  : Res ((list MessageOverview * option error) * Bufio) :=
  match fuel with
  | O => OutOfFuel
  | S f =>
      let '((line, err), r') := ReadString LF r in
      match err with
      | Some EOF | Some ErrUnexpectedEOF => Ret ((result, None), r')
      | Some e => Ret (([], Some e), r')
      | None =>
          let line :=
            if HasSuffix line CRLF then dropLast 2 line
            else if HasSuffix line [LF] then dropLast 1 line
            else line in
          if bytes_eqb line [DOT] then Ret ((result, None), r')
          else
            let* rec := parseOverviewLine line in
            match rec with
            | inr e => Ret (([], Some e), r')
            | inl overview => parseOverviewLoop f (result ++ [overview]) r'
            end
      end
  end.

Definition parseOverview (r : Bufio) : Res ((list MessageOverview * option error) * Bufio) :=
  parseOverviewLoop (S (length (pending r))) [] r.

(** [c.parseXzver()]. *)
Definition parseXzver : M (list MessageOverview * option error) :=
  fun c =>
    let flateStream := yencFlate (conn_r c) in
    let* ((result, err), flateStream') := parseOverview flateStream in
    let r1 := yencFlateClose flateStream' (conn_r c) in
    match err with
    | Some e => Ret ((result, Some e), set_r c r1)
    | None =>
        (* ...with a dot at the end *)
        let '((line, err), r2) := ReadString LF r1 in
        let c := set_r c r2 in
        match err with
        | None =>
            if negb (bytes_eqb (TrimRight line CRLF) [DOT])
            then Ret (([], Some (Errorf (str "unexpected data after XZVER: %q") [line])), c)
            else Ret ((result, None), c)
        | Some e => Ret ((result, Some e), c)
        end
    end.

Definition range (begin end_ : Z) : bytes := Itoa begin ++ str "-" ++ Itoa end_.

Definition gzipMarker : bytes := str "[COMPRESS=GZIP]".

(** [Overview] after the OVER or XOVER command was accepted with status text
    [line]: the choice of the decoder. *)
Definition readOverview (line : bytes) : M (list MessageOverview * option error) :=
  fun c =>
    if Contains line gzipMarker then
      let '(err, zr) := newZlibDotResponse (conn_r c) in
      match err with
      | Some e =>
          let '(_, r') := zdrClose zr (conn_r c) in
          Ret (([], Some e), set_r c r')
      | None =>
          let* ((msgs, err), zr') := parseOverview zr in
          let '(cerr, r') := zdrClose zr' (conn_r c) in
          match err, cerr with
          | Some e, _ | None, Some e => Ret (([], Some e), set_r c r')
          | None, None => Ret ((msgs, None), set_r c r')
          end
      end
    else
      (* plain response *)
      let* (res, r') := parseOverview (conn_r c) in
      Ret (res, set_r c r').

(** [nerr, ok := err.(Error); ok && nerr.Code == 500]. *)
Definition isCode500 (e : error) : bool :=
  match e with
  | Error Code _ => Code =? 500
  | _ => false
  end.

(** [Overview] from the OVER command on. *)
Definition overviewOVER (begin end_ : Z) : M (list MessageOverview * option error) :=
  fun c =>
    let* ((_, line, err), c1) := cmd 224 (str "OVER " ++ range begin end_) c in
    match err with
    | Some e =>
        if isCode500 e then
          (* This could mean that OVER isn't supported.  Attempt XOVER instead. *)
          let* ((_, line, xerr), c2) := cmd 224 (str "XOVER " ++ range begin end_) c1 in
          match xerr with
          | Some _ =>
              (* XOVER failed too. Return the original error. *)
              Ret (([], Some e), c2)
          | None => readOverview line c2
          end
        else
          (* Some other type of error. *)
          Ret (([], Some e), c1)
    | None => readOverview line c1
    end.

(** [c.Overview(begin, end)]. *)
Definition Overview (begin end_ : Z) : M (list MessageOverview * option error) :=
  fun c =>
    if negb (xzverUnsupported c) || xzverSupported c then
      (* Try XZVERing *)
      let* ((_, _, xzerr), c1) := cmd 224 (str "XZVER " ++ range begin end_) c in
      match xzerr with
      | Some _ => overviewOVER begin end_ (set_xzverUnsupported c1 true)
      | None => parseXzver (set_xzverSupported c1 true)
      end
    else overviewOVER begin end_ c.

End Overview.

(** Decoders for examples: a server whose compressed streams are stored
    data, so that a decoder hands on the connection's bytes as they are, and
    dates that are kept as text (the empty date does not parse). *)
Definition storedExternal : External := {|
  Time := bytes;
  zeroTime := [];
  parseDate := fun s =>
    match s with
    | [] => ([], Some (Errorf (str "parseDate: empty") []))
    | _ => (s, None)
    end;
  yencFlate := fun r => r;
  yencFlateClose := fun d _ => d;
  newZlibDotResponse := fun r => (None, r);
  zdrClose := fun d _ => (None, d)
|}.

(** ** Sessions for examples *)

(** [newConn(c)] over a transport that will deliver [input] and then report
    [e]: the greeting line is read and dropped.  The connection is returned
    also when that read fails, together with the error. *)
Definition newConn (input : bytes) (e : ioError) : Conn * option error :=
  let '((_, err), r) := ReadString LF (newBufio input e) in
  (mkConn (mkWriter [] None) r None false false false, err).

(** The session after the greeting ["200 ready"], with [input] still to
    come from the server. *)
Definition session (input : bytes) : Conn :=
  mkConn (mkWriter [] None) (mkBufio input IoEOF (Some LF)) None false false false.

(** ** Lines of fields *)

(** [strings.Join(fs, string(d))]: the line a server writes for the fields
    [fs]. *)
Fixpoint Join (fs : list bytes) (d : ascii) : bytes :=
  match fs with
  | [] => []
  | [f] => f
  | f :: fs' => f ++ d :: Join fs' d
  end.

(** A field the bytes loop takes for a piece of the references: [Atoi]
    rejects it. *)
Definition notNumber (s : bytes) : Prop := snd (Atoi s) <> None.

(** An overview line whose references hold two tabs, and one with eight
    fields whose bytes field is not a number. *)
Definition overviewLine_tabbed : bytes :=
  Join [str "123"; str "Hi"; str "bob@x"; str "01 Jan 2020 00:00:00"; str "<id@x>";
        str "<msg1@x>"; str "<msg2@x>"; str "<msg3@x>"; str "456"; str "12";
        str "Xref: news misc.test:123"] TAB.

Definition overviewLine_eight : bytes :=
  Join [str "1"; str "a"; str "b"; str "c"; str "d"; str "e"; str "f"; str "g"] TAB.

(** A status text [parseGroupStatus] rejects: fewer than three fields, or
    one of the first three is not an integer. *)
Definition malformedGroupLine (line : bytes) : Prop :=
  let ss := SplitN line SP 4 in
  (length ss < 3)%nat
  \/ exists i s, (i < 3)%nat /\ nth_error ss i = Some s /\ snd (ParseInt s) <> None.

(** ** Overview calls on a session *)

(** What was sent between two states of a connection. *)
Definition sentSince (c c' : Conn) : bytes :=
  skipn (length (written (conn_w c))) (written (conn_w c')).

Section OverviewCalls.
Context `{Ext : External}.


(** The states a session goes through by further commands and Overview
    calls. *)
Inductive laterOn : Conn -> Conn -> Prop :=
  | later_now (c : Conn) : laterOn c c
  | later_cmd (c c1 c2 : Conn) (E : Z) (command : bytes) res :
      cmd E command c = Ret (res, c1) -> laterOn c1 c2 -> laterOn c c2
  | later_Overview (c c1 c2 : Conn) (b e : Z) res :
      Overview b e c = Ret (res, c1) -> laterOn c1 c2 -> laterOn c c2.

End OverviewCalls.

(** A server that accepts XZVER once and then rejects it. *)
Definition xzverOnceScript : bytes :=
  str "224 compressed overview follows" ++ CRLF ++ [DOT] ++ CRLF ++ [DOT] ++ CRLF
  ++ str "500 what?" ++ CRLF
  ++ str "224 overview follows" ++ CRLF ++ [DOT] ++ CRLF
  ++ str "500 what?" ++ CRLF
  ++ str "224 overview follows" ++ CRLF ++ [DOT] ++ CRLF.


Definition noXzverScript : bytes :=
  str "500 what?" ++ CRLF ++ str "224 overview follows" ++ CRLF ++ [DOT] ++ CRLF
  ++ str "224 overview follows" ++ CRLF ++ [DOT] ++ CRLF.

(** The line [cmd] writes for a command. *)
Definition sent (command : bytes) : bytes := command ++ CRLF.

(** The capability state after a failed XZVER on a session where it never
    succeeded. *)
Definition provenUnsupported (c : Conn) : Prop :=
  xzverUnsupported c = true /\ xzverSupported c = false.

(** The session after the first Overview call against [xzverOnceScript]:
    XZVER has succeeded once. *)
Definition afterXzverSuccess : Conn :=
  match @Overview storedExternal 1 2 (session xzverOnceScript) with
  | Ret (_, c) => c
  | _ => session []
  end.

(** ** Body streams on the wire *)

(** A line of a body as the server sends it, without its LF: it is not
    empty (a CR at least, or the line itself when the server ends lines
    with a bare LF) and it is not the terminator. *)
Definition bodyLine (x : bytes) : Prop :=
  ~ In LF x /\ x <> [] /\ x <> [DOT] /\ x <> [DOT; CR].

(** The lines [xs] on the wire. *)
Definition wire (xs : list bytes) : bytes :=
  concat (map (fun x => x ++ [LF]) xs).

(** The terminator line, with either line end. *)
Definition terminator (t : bytes) : Prop := t = [DOT; CR; LF] \/ t = [DOT; LF].

(** What [Read] makes of the line [x]: a CR before the LF is dropped, and
    so is the first of two leading dots. *)
Definition stripCR (x : bytes) : bytes :=
  match last x with
  | Some c => if byte_eqb c CR then removelast x else x
  | None => x
  end.

Definition decodeLine (x : bytes) : bytes :=
  let b := stripCR x ++ [LF] in
  if HasPrefix b dotdot then skipn 1 b else b.

(** Every buffer offered to [Read] has room for a byte. *)
Definition roomy (sizes : nat -> nat) : Prop := forall k, (0 < sizes k)%nat.

(** The last byte the connection's reader has seen after the lines [xs]. *)
Definition lastRead (xs : list bytes) (lb : option ascii) : option ascii :=
  match xs with
  | [] => lb
  | _ => Some LF
  end.

(** A session with an unread body: part of a line is still in the body
    reader's buffer, two more lines and the terminator are on the
    connection, and then the answer to the next command. *)
Definition unreadBodySession : Conn :=
  set_br (session (str "second line" ++ CRLF ++ str "..third" ++ CRLF
                   ++ [DOT] ++ CRLF ++ str "211 3 1 3 misc.test" ++ CRLF))
         (Some (mkBody false (str "st line" ++ [LF]))).

(** The same body on a connection that breaks in the third line. *)
Definition brokenBodySession : Conn :=
  mkConn (mkWriter [] None)
         (mkBufio (str "second line" ++ CRLF ++ str "..thi")
                  (IoFailure (str "connection reset by peer")) (Some LF))
         (Some (mkBody false (str "st line" ++ [LF]))) false false false.

(** ** Framing an article

    What [RawPost] puts on the wire for the article [content] after the
    POST command was accepted: the lines its loop writes, and the line of
    the final [c.cmd(240, ".")]. *)
Definition frame (content : bytes) : Res bytes :=
  let* (_, w) := postLines (newBufio content IoEOF) (mkWriter [] None) in
  Ret (written w ++ sent [DOT]).

(** The lines of [content]: the pieces between its LFs; a final LF does not
    start another line. *)
Definition linesOf (content : bytes) : list bytes :=
  let fs := Split content LF in
  match last fs with
  | Some [] => removelast fs
  | _ => fs
  end.

(** A line with its leading dot doubled. *)
Definition stuffed (l : bytes) : bytes :=
  (if HasPrefix l [DOT] then [DOT] else []) ++ l.

(** [content] with an LF added at the end when its last line has none. *)
Definition lfTerminated (content : bytes) : bytes :=
  match last content with
  | Some c => if byte_eqb c LF then content else content ++ [LF]
  | None => []
  end.

(** ** Header fields on the wire *)

(** The two line ends a header can have: CRLF from the server, LF after the
    body reader. *)
Definition lineEnd (eol : bytes) : Prop := eol = CRLF \/ eol = [LF].

(** What may follow a field: the end of the stream, or a byte that does not
    start a continuation line. *)
Definition fieldEnd (next : bytes) (e : ioError) : Prop :=
  match next with
  | [] => e = IoEOF
  | c :: _ => isBlank c = false
  end.

(** A header field as it is written: the key, the blanks after the colon,
    the first piece of the value, and the continuation lines, each with its
    leading blanks and its text. *)
Record field := mkField {
  fkey : bytes;
  fpad : bytes;
  fvalue : bytes;
  fconts : list (bytes * bytes)
}.

Definition blanks (w : bytes) : Prop := Forall (fun c => isBlank c = true) w.

(** A piece of a value: it stays on its line, does not start with a blank,
    and has no CR or TAB at its end for [readLineBytes] to chop. *)
Definition clean (v : bytes) : Prop :=
  ~ In LF v /\ TrimRight v chopSet = v
  /\ match v with c :: _ => isBlank c = false | [] => True end.

(** A continuation line: its blanks and its text. *)
Definition contOk (eol : bytes) (wt : bytes * bytes) : Prop :=
  fst wt <> [] /\ blanks (fst wt) /\ clean (snd wt) /\ len (snd wt ++ eol) <= bufSize.

(** The lines of a field, each ended by [eol]. *)
Definition render (eol : bytes) (f : field) : bytes :=
  fkey f ++ [COLON] ++ fpad f ++ fvalue f ++ eol
  ++ concat (map (fun wt => fst wt ++ snd wt ++ eol) (fconts f)).

Definition wfField (eol : bytes) (f : field) : Prop :=
  (~ In COLON (fkey f) /\ ~ In SP (fkey f) /\ ~ In LF (fkey f)
   /\ match fkey f with c :: _ => isBlank c = false | [] => False end)
  /\ blanks (fpad f) /\ clean (fvalue f)
  /\ len (fkey f ++ [COLON] ++ fpad f ++ fvalue f ++ eol) <= bufSize
  /\ Forall (contOk eol) (fconts f).

(** The value of a field with its continuation lines unfolded. *)
Definition unfolded (f : field) : bytes :=
  fold_left (fun v wt => v ++ [SP] ++ snd wt) (fconts f) (fvalue f).

(** The values of the fields whose canonical key is [k], in the order of the
    stream. *)
Definition valuesOf (k : bytes) (fs : list field) : list bytes :=
  map unfolded (List.filter (fun f => bytes_eqb (CanonicalHeaderKey (fkey f)) k) fs).

(** How a header ends: with the stream, or with an empty line before the
    body. *)
Definition headerEnd (eol ending : bytes) (e : ioError) : Prop :=
  (ending = [] /\ e = IoEOF) \/ exists body, ending = eol ++ body.

(** The header of an article with a folded subject and two Received
    fields. *)
Definition exampleFields : list field :=
  [ mkField (str "subject") [SP] (str "a long") [([SP; SP], str "subject line")];
    mkField (str "Received") [SP] (str "from a") [];
    mkField (str "message-id") [] (str "<1@x>") [];
    mkField (str "received") [TAB] (str "from b") [([TAB], str "by c")] ].

(** What one round of [readHeader]'s loop does to the map for the field
    [f], and what the loop does for the fields [fs]. *)
Definition addField (hdr : gmap bytes (list bytes)) (f : field) : gmap bytes (list bytes) :=
  let key := CanonicalHeaderKey (fkey f) in
  match hdr !! key with
  | Some oldvalue => <[ key := oldvalue ++ [unfolded f] ]> hdr
  | None => <[ key := [unfolded f] ]> hdr
  end.

Definition collect (hdr : gmap bytes (list bytes)) (fs : list field) : gmap bytes (list bytes) :=
  fold_left addField fs hdr.

(** The overview record of the specification's example. *)
Definition overviewLine_plain : bytes :=
  Join [str "123"; str "Hi"; str "bob@x"; str "01 Jan 2020 00:00:00"; str "<id@x>";
        str "msg1@x msg2@x"; str "456"; str "12"] TAB.

(** ** Error values *)

(** [fmt.Sprintf("%03d", n)] for an unsigned [n]: the decimal digits, with
    zeros in front up to three. *)
Definition pad3 (n : Z) : bytes :=
  let d := Itoa n in
  repeat (ascii_of_nat 48) (3 - length d) ++ d.

(** [e.Error()] for [e = Error{Code, Msg}]. *)
Definition Error_Error (Code : Z) (Msg : bytes) : bytes :=
  pad3 Code ++ [SP] ++ Msg.

(** [IsProtocol(err)]; [None] is the nil error. *)
Definition IsProtocol (err : option error) : bool :=
  match err with
  | Some (ProtocolError _) | Some (ProtocolErrorf _ _) => true
  | _ => false
  end.

(** [ErrorCode(err)]. *)
Definition ErrorCode (err : option error) : Z :=
  match err with
  | Some (Error Code _) => Code
  | _ => 0
  end.

(** ** Commands built from an identifier

    [List], [ListGroup], [nextLastStat] and the article commands hand the
    text they have built to [cmd] as its format, with no arguments.
    [fmt.Sprintf] is the standard library's; what is used of it is that a
    format without a percent sign is rendered as it is. *)

Definition PERCENT : ascii := ascii_of_nat 37.

Class Fmt := {
  (* fmt.Sprintf(format) *)
  Sprintf0 : bytes -> bytes;
  Sprintf0_plain : forall s, ~ In PERCENT s -> Sprintf0 s = s
}.

(** The renderer for examples, whose formats have no percent sign. *)
Definition plainFmt : Fmt :=
  {| Sprintf0 := fun s => s; Sprintf0_plain := fun s _ => eq_refl |}.

(** [maybeId(cmd, id)]. *)
Definition maybeId (cmd0 id : bytes) : bytes :=
  if 0 <? len id then cmd0 ++ [SP] ++ id else cmd0.

(** ** Lists of lines *)

(** [readStrings(r)]. *)
Fixpoint readStringsLoop (fuel : nat) (sv : list bytes) (r : Bufio)
  : Res ((list bytes * option error) * Bufio) :=
  match fuel with
  | O => OutOfFuel
  | S f =>
      let '((line, err), r') := ReadString LF r in
      match err with
      | Some EOF => Ret ((sv, None), r')
      | Some e => Ret (([], Some e), r')
      | None =>
          let line :=
            if HasSuffix line CRLF then dropLast 2 line
            else if HasSuffix line [LF] then dropLast 1 line
            else line in
          if bytes_eqb line [DOT] then Ret ((sv, None), r')
          else readStringsLoop f (sv ++ [line]) r'
      end
  end.

Definition readStrings (r : Bufio) : Res ((list bytes * option error) * Bufio) :=
  readStringsLoop (S (length (pending r))) [] r.

(** [c.Authenticate(username, password)]. *)
Definition Authenticate (username password : bytes) : M (option error) :=
  fun c =>
    let* ((code, _, err), c) := cmd 2 (str "AUTHINFO USER " ++ username) c in
    if code / 100 =? 3 then
      let* ((_, _, err), c) := cmd 2 (str "AUTHINFO PASS " ++ password) c in
      Ret (err, c)
    else Ret (err, c).

(** [c.ModeReader()]. *)
Definition ModeReader : M (option error) :=
  fun c =>
    let* ((_, _, err), c) := cmd 20 (str "MODE READER") c in
    Ret (err, c).

(** [c.EnableCompression()]. *)
Definition EnableCompression : M (option error) :=
  fun c =>
    let* ((_, _, err), c) := cmd 290 (str "XFEATURE COMPRESS GZIP") c in
    Ret (err, c).

(** [c.Capabilities()]. *)
Definition Capabilities : M (list bytes * option error) :=
  fun c =>
    let* ((_, _, err), c) := cmd 101 (str "CAPABILITIES") c in
    match err with
    | Some e => Ret (([], Some e), c)
    | None =>
        let* (res, r') := readStrings (conn_r c) in
        Ret (res, set_r c r')
    end.

(** [c.ListExtensions()]. *)
Definition ListExtensions : M (list bytes * option error) :=
  fun c =>
    let* ((_, _, err), c) := cmd 202 (str "LIST EXTENSIONS") c in
    match err with
    | Some e => Ret (([], Some e), c)
    | None =>
        let* (res, r') := readStrings (conn_r c) in
        Ret (res, set_r c r')
    end.

(** ** Groups *)

(** [parseGroups(lines)], with [res] for the groups of the lines before. *)
Fixpoint parseGroupsLoop (res : list Group) (lines : list bytes)
  : Res (list Group * option error) :=
  match lines with
  | [] => Ret (res, None)
  | line :: lines' =>
      let ss := SplitN (TrimSpace line) SP 4 in
      if len ss <? 4
      then Ret ([], Some (ProtocolError (str "short group info line: " ++ line)))
      else
        let* ss1 := index ss 1 in
        match ParseInt ss1 with
        | (_, Some _) => Ret ([], Some (ProtocolError (str "bad number in line: " ++ line)))
        | (high, None) =>
            let* ss2 := index ss 2 in
            match ParseInt ss2 with
            | (_, Some _) =>
                Ret ([], Some (ProtocolError (str "bad number in line: " ++ line)))
            | (low, None) =>
                let* ss0 := index ss 0 in
                let* ss3 := index ss 3 in
                parseGroupsLoop (res ++ [mkGroup ss0 0 high low ss3]) lines'
            end
        end
  end.

Definition parseGroups (lines : list bytes) : Res (list Group * option error) :=
  parseGroupsLoop [] lines.

Section Groups.
Context `{Ext : External}.

(** [c.readGroups(line)].  In the compressed branch [zdr, err := ...]
    declares an [err] of its own, so that the [err] tested after the branch
    is still nil there: whatever the decoder reported, the lines read so
    far are parsed. *)
Definition readGroups (line : bytes) : M (list Group * option error) :=
  fun c =>
    let* ((lines, err), c) :=
      if Contains line gzipMarker then
        let '(zerr, zr) := newZlibDotResponse (conn_r c) in
        match zerr with
        | Some _ =>
            let '(_, r') := zdrClose zr (conn_r c) in
            Ret (([], None), set_r c r')
        | None =>
            let* ((lines, _), zr') := readStrings zr in
            let '(_, r') := zdrClose zr' (conn_r c) in
            Ret ((lines, None), set_r c r')
        end
      else
        let* (res, r') := readStrings (conn_r c) in
        Ret (res, set_r c r') in
    match err with
    | Some e => Ret (([], Some e), c)
    | None =>
        let* res := parseGroups lines in
        Ret (res, c)
    end.

(** [c.NewGroups(since)], with [since] for [since.Format(timeFormatNew)]. *)
Definition NewGroups (since : bytes) : M (list Group * option error) :=
  fun c =>
    let* ((_, line, err), c) := cmd 231 (str "NEWGROUPS " ++ since ++ str " GMT") c in
    match err with
    | Some e => Ret (([], Some e), c)
    | None => readGroups line c
    end.

Context `{F : Fmt}.

(** [c.List(a...)]; the name [List] is the library's. *)
Definition ListCmd (a : list bytes) : M (list Group * option error) :=
  fun c =>
    if 2 <? len a
    then Ret (([], Some (ProtocolError (str "List only takes up to 2 arguments"))), c)
    else
      let* command :=
        if 0 <? len a then
          let* a0 := index a 0 in
          if 1 <? len a then
            let* a1 := index a 1 in
            Ret (str "LIST" ++ [SP] ++ a0 ++ [SP] ++ a1)
          else Ret (str "LIST" ++ [SP] ++ a0)
        else Ret (str "LIST") in
      let* ((_, line, err), c) := cmd 215 (Sprintf0 command) c in
      match err with
      | Some e => Ret (([], Some e), c)
      | None => readGroups line c
      end.

End Groups.

(** ** New articles *)

(** The order of Go strings: byte by byte, a prefix first. *)
Fixpoint bytes_ltb (s t : bytes) : bool :=
  match s, t with
  | _, [] => false
  | [], _ :: _ => true
  | a :: s', b :: t' =>
      (nat_of_ascii a <? nat_of_ascii b)%nat
      || ((nat_of_ascii a =? nat_of_ascii b)%nat && bytes_ltb s' t')
  end.

(** [sort.Strings(id)]: the strings in increasing order.  Equal strings are
    the same string, so that the result is the same for every sorting
    algorithm; this one inserts. *)
Fixpoint insertString (s : bytes) (l : list bytes) : list bytes :=
  match l with
  | [] => [s]
  | t :: l' => if bytes_ltb t s then t :: insertString s l' else s :: l
  end.

Fixpoint sortStrings (l : list bytes) : list bytes :=
  match l with
  | [] => []
  | s :: l' => insertString s (sortStrings l')
  end.

(** The loop of [NewNews] that moves the first string of every run of equal
    strings to the front of the slice: [r] is the index read, [w] the index
    written, [todo] the number of indexes left. *)
Fixpoint uniqLoop (todo : nat) (r w : nat) (id : list bytes) : Res (list bytes * nat) :=
  match todo with
  | O => Ret (id, w)
  | S t =>
      let* s := index id r in
      let* keep :=
        if (r =? 0)%nat then Ret true
        else
          let* p := index id (r - 1) in
          Ret (negb (bytes_eqb p s)) in
      if keep then
        let* _ := index id w in
        uniqLoop t (S r) (S w) (<[ w := s ]> id)
      else uniqLoop t (S r) w id
  end.

(** [c.NewNews(group, since)], with [since] for
    [since.Format(timeFormatNew)]. *)
Definition NewNews (group since : bytes) : M (list bytes * option error) :=
  fun c =>
    let* ((_, _, err), c) :=
      cmd 230 (str "NEWNEWS " ++ group ++ [SP] ++ since ++ str " GMT") c in
    match err with
    | Some e => Ret (([], Some e), c)
    | None =>
        let* ((id, err), r') := readStrings (conn_r c) in
        let c := set_r c r' in
        match err with
        | Some e => Ret (([], Some e), c)
        | None =>
            let id := sortStrings id in
            let* (id, w) := uniqLoop (length id) 0 0 id in
            Ret ((firstn w id, None), c)
        end
    end.

(** ** Articles by number or message-id *)

Section Articles.
Context `{F : Fmt}.

(** [c.nextLastStat(cmd, id)]. *)
Definition nextLastStat (cmd0 id : bytes) : M (bytes * bytes * option error) :=
  fun c =>
    let* ((_, line, err), c) := cmd 223 (Sprintf0 (maybeId cmd0 id)) c in
    match err with
    | Some e => Ret (([], [], Some e), c)
    | None =>
        let ss := SplitN line SP 3 in
        if len ss <? 2
        then Ret (([], [],
                   Some (ProtocolError (str "Bad response to " ++ cmd0 ++ str ": " ++ line))),
                  c)
        else
          let* ss0 := index ss 0 in
          let* ss1 := index ss 1 in
          Ret ((ss0, ss1, None), c)
    end.

Definition Stat (id : bytes) : M (bytes * bytes * option error) :=
  nextLastStat (str "STAT") id.

Definition Last : M (bytes * bytes * option error) :=
  nextLastStat (str "LAST") [].

Definition Next : M (bytes * bytes * option error) :=
  nextLastStat (str "NEXT") [].

(** A command that hands out the body stream: with no error the reader
    returned is the [bodyReader] at [conn_br], with an error it is nil. *)
Definition textCmd (expectCode : Z) (command : bytes) : M (option error) :=
  fun c =>
    let* ((_, _, err), c) := cmd expectCode (Sprintf0 command) c in
    match err with
    | Some e => Ret (Some e, c)
    | None =>
        let* (_, c) := body c in
        Ret (None, c)
    end.

(** [c.Help()]. *)
Definition Help : M (option error) :=
  fun c =>
    let* ((_, _, err), c) := cmd 100 (str "HELP") c in
    match err with
    | Some e => Ret (Some e, c)
    | None =>
        let* (_, c) := body c in
        Ret (None, c)
    end.

(** [c.ArticleText(id)]. *)
Definition ArticleText (id : bytes) : M (option error) :=
  textCmd 220 (maybeId (str "ARTICLE") id).

(** [c.HeadText(id)]. *)
Definition HeadText (id : bytes) : M (option error) :=
  textCmd 221 (maybeId (str "HEAD") id).

(** [c.Body(id)]; the name [Body] is the field's of [Article]. *)
Definition BodyCmd (id : bytes) : M (option error) :=
  textCmd 222 (maybeId (str "BODY") id).

End Articles.

(** [a.String()]. *)
Definition Article_String (a : Article) : Res bytes :=
  match Header a !! str "Message-Id" with
  | None => Ret (str "[NNTP article]")
  | Some id =>
      let* id0 := index id 0 in
      Ret (str "[NNTP article " ++ id0 ++ str "]")
  end.

(** ** List responses on the wire *)

(** A line of a list response, [x] followed by its line end [eol]: it has
    no LF, it is not the terminator, and before a bare LF it does not end
    with a CR (which the reader would take for a part of the line end). *)
Definition listed (p : bytes * bytes) : Prop :=
  ~ In LF (fst p) /\ fst p <> [DOT]
  /\ (snd p = CRLF \/ (snd p = [LF] /\ last (fst p) <> Some CR)).

(** The lines on the wire. *)
Definition listWire (xs : list (bytes * bytes)) : bytes :=
  concat (map (fun p => fst p ++ snd p) xs).

(** ** Sessions and replies *)

(** A connection ready for a command: open, with no body stream left to
    drain, and a transport that takes writes. *)
Definition ready (c : Conn) : Prop :=
  conn_close c = false /\ conn_br c = None /\ werr (conn_w c) = None.

(** [raw] is a status line with the code [C] and the text [text]: a line
    that ends with its LF and, trimmed, has three digits, a space and the
    text. *)
Definition statusLine (raw : bytes) (C : Z) (text : bytes) : Prop :=
  exists l d1 d2 d3,
    raw = l ++ [LF] /\ ~ In LF l
    /\ TrimSpace raw = d1 :: d2 :: d3 :: SP :: text
    /\ ParseUint [d1; d2; d3] = (C, None).

(** The connection after [command] was sent and its status line read, with
    [more] still to come. *)
Definition answered (c : Conn) (command more : bytes) : Conn :=
  set_r (set_w c (mkWriter (written (conn_w c) ++ sent command) None))
        (mkBufio more (ioerr (conn_r c)) (Some LF)).

(** ** Group lists on the wire *)

(** A line of a group list: the name, the high and the low number as text,
    and the status. *)
Record groupInfo := mkInfo {
  gi_name : bytes;
  gi_high : bytes;
  gi_low : bytes;
  gi_status : bytes
}.

Definition groupLine (g : groupInfo) : bytes :=
  gi_name g ++ [SP] ++ gi_high g ++ [SP] ++ gi_low g ++ [SP] ++ gi_status g.

(** The first three fields have no space, the line has no white space
    around it, and the two numbers are integers. *)
Definition wfInfo (g : groupInfo) : Prop :=
  ~ In SP (gi_name g) /\ ~ In SP (gi_high g) /\ ~ In SP (gi_low g)
  /\ TrimSpace (groupLine g) = groupLine g
  /\ snd (ParseInt (gi_high g)) = None /\ snd (ParseInt (gi_low g)) = None.

Definition groupOf (g : groupInfo) : Group :=
  mkGroup (gi_name g) 0 (fst (ParseInt (gi_high g))) (fst (ParseInt (gi_low g)))
          (gi_status g).

(** A line [parseGroups] rejects, and its error. *)
Definition shortInfo (line : bytes) : Prop :=
  (length (SplitN (TrimSpace line) SP 4) < 4)%nat.

Definition badNumberInfo (line : bytes) : Prop :=
  exists s0 s1 s2 s3,
    SplitN (TrimSpace line) SP 4 = [s0; s1; s2; s3]
    /\ (snd (ParseInt s1) <> None \/ snd (ParseInt s2) <> None).

(** A session on which the compressed stream breaks in its second line. *)
Definition brokenListSession : Conn :=
  mkConn (mkWriter [] None)
         (mkBufio (str "misc.test 5 1 y" ++ CRLF ++ str "comp.la")
                  (IoFailure (str "connection reset by peer")) (Some LF))
         None false false false.

(** ** Sorted lists of strings *)

(** What the loop of [NewNews] keeps of a list: every string that differs
    from the one before it, [prev] being the string before the first. *)
Fixpoint uniqFrom (prev : bytes) (l : list bytes) : list bytes :=
  match l with
  | [] => []
  | s :: l' => if bytes_eqb prev s then uniqFrom s l' else s :: uniqFrom s l'
  end.

Definition bytes_lt (s t : bytes) : Prop := bytes_ltb s t = true.
Definition bytes_le (s t : bytes) : Prop := bytes_ltb t s = false.

(** A session on which the server lists three message-ids, one of them
    twice. *)
Definition newNewsSession : Conn :=
  session (str "230 list follows" ++ CRLF
           ++ str "<b@x>" ++ CRLF ++ str "<a@x>" ++ CRLF ++ str "<b@x>" ++ CRLF
           ++ str "<a@y>" ++ CRLF ++ [DOT] ++ CRLF).

(** ** Commands that hand out a body stream *)

(** What [run], a call that sends [command] and expects the code [E],
    does with the server's answer: with the code [E] the body stream is
    installed right behind the status line, a read to its end returns the
    decoded lines and stops behind the terminator, and a command issued
    instead of that read behaves as it does behind the terminator; with
    another code the call returns the [Error] of that answer and installs
    no stream. *)
Definition servesText (run : M (option error)) (E : Z) (command : bytes) : Prop :=
  forall (c : Conn) (raw text : bytes) (C : Z),
    ready c -> statusLine raw C text ->
    (C = E ->
     forall (xs : list bytes) (t rest : bytes) (sizes : nat -> nat),
       Forall bodyLine xs -> terminator t -> roomy sizes ->
       pending (conn_r c) = raw ++ wire xs ++ t ++ rest ->
       let c1 := set_br (answered c command (wire xs ++ t ++ rest))
                        (Some (mkBody false [])) in
       run c = Ret (None, c1)
       /\ ReadAllSized sizes (mkBody false []) (conn_r c1)
          = Ret ((concat (map decodeLine xs), None), mkBody true [],
                 mkBufio rest (ioerr (conn_r c)) (Some LF))
       /\ forall E' command',
            cmd E' command' c1 = cmd E' command' (answered c command rest))
    /\ (C <> E ->
        forall more,
          pending (conn_r c) = raw ++ more ->
          run c = Ret (Some (Error C text), answered c command more)).

(** A session on which the server answers a BODY command with two lines,
    and the STAT command after it. *)
Definition bodySession : Conn :=
  session (str "222 0 <a@x>" ++ CRLF
           ++ wire [str "first" ++ [CR]; str "..second" ++ [CR]] ++ [DOT; CR; LF]
           ++ str "223 7 <b@x>" ++ CRLF).

(** The character of the decimal digit [v]. *)
Definition digitChar (v : Z) : ascii := ascii_of_nat (Z.to_nat (48 + v)).

(** A session with an unread body in which the server has sent an empty
    line with a bare LF. *)
Definition bareLFSession : Conn :=
  set_br (session (str "first" ++ CRLF ++ [LF] ++ str "last" ++ CRLF ++ [DOT] ++ CRLF
                   ++ str "211 3 1 3 misc.test" ++ CRLF))
         (Some (mkBody false [])).

(** Every key of a header has at least one value. *)
Definition nonEmptyValues (hdr : gmap bytes (list bytes)) : Prop :=
  forall k v, hdr !! k = Some v -> v <> [].

(** ** A buffered reader over the body stream

    [bufio.NewReader(c.body())] keeps the bytes it has read from the body
    stream and not yet handed out, and the error of the last read until
    it is reported.  [ReadString] is the standard library's: it collects
    the pieces [ReadSlice] returns, and [ReadSlice] fills the buffer with
    one [Read] at a time for the room that is left in its 4096 bytes. *)

Record BodyBufio := mkBB {
  bb_buf : bytes;
  bb_err : option error
}.

(** [io.ErrNoProgress]. *)
Definition ErrNoProgress : error :=
  Errorf (str "multiple Read calls return no data or error") [].

(** [maxConsecutiveEmptyReads]. *)
Definition maxConsecutiveEmptyReads : nat := 100.

(** [b.fill()], called with room in the buffer: [i] reads are left to
    try. *)
Fixpoint fillLoop (i : nat) (b : BodyBufio) (r : bodyReader) (cr : Bufio)
  : Res (BodyBufio * bodyReader * Bufio) :=
  match i with
  | O => Ret (mkBB (bb_buf b) (Some ErrNoProgress), r, cr)
  | S i' =>
      let* ((data, err), r', cr') :=
        bodyReader_Read (Z.to_nat bufSize - length (bb_buf b)) r cr in
      let b' := mkBB (bb_buf b ++ data) (bb_err b) in
      match err with
      | Some e => Ret (mkBB (bb_buf b') (Some e), r', cr')
      | None =>
          if 0 <? len data then Ret (b', r', cr')
          else fillLoop i' b' r' cr'
      end
  end.

(** [b.ReadSlice('\n')]; [s] is the number of bytes of the buffer already
    searched. *)
Fixpoint bodyReadSlice (fuel : nat) (s : nat) (b : BodyBufio) (r : bodyReader) (cr : Bufio)
  : Res ((bytes * option error) * BodyBufio * bodyReader * Bufio) :=
  match fuel with
  | O => OutOfFuel
  | S f =>
      let i := IndexByte (skipn s (bb_buf b)) LF in
      if 0 <=? i then
        let n := (s + Z.to_nat i + 1)%nat in
        Ret ((firstn n (bb_buf b), None), mkBB (skipn n (bb_buf b)) (bb_err b), r, cr)
      else
        match bb_err b with
        | Some e => Ret ((bb_buf b, Some e), mkBB [] None, r, cr)
        | None =>
            if bufSize <=? len (bb_buf b)
            then Ret ((bb_buf b, Some ErrBufferFull), mkBB [] None, r, cr)
            else
              let* (b', r', cr') := fillLoop maxConsecutiveEmptyReads b r cr in
              bodyReadSlice f (length (bb_buf b)) b' r' cr'
        end
  end.

(** A fill adds a byte to the buffer or sets the error, so that
    [ReadSlice] fills at most as often as the buffer has bytes. *)
Definition sliceFuel : nat := Z.to_nat bufSize + 2.

(** [b.ReadString('\n')]: the pieces before a full buffer are kept in
    [acc]. *)
Fixpoint bodyReadString (fuel : nat) (acc : bytes) (b : BodyBufio) (r : bodyReader)
    (cr : Bufio)
  : Res ((bytes * option error) * BodyBufio * bodyReader * Bufio) :=
  match fuel with
  | O => OutOfFuel
  | S f =>
      let* ((frag, e), b', r', cr') := bodyReadSlice sliceFuel 0 b r cr in
      match e with
      | None => Ret ((acc ++ frag, None), b', r', cr')
      | Some ErrBufferFull => bodyReadString f (acc ++ frag) b' r' cr'
      | Some e => Ret ((acc ++ frag, Some e), b', r', cr')
      end
  end.

(** A piece that is not the last takes a buffer's worth of bytes. *)
Definition stringFuel (b : BodyBufio) (r : bodyReader) (cr : Bufio) : nat :=
  (length (bb_buf b) + length (buf r) + length (pending cr) + 2)%nat.

(** ** Listing a group *)

Record GroupListing := mkListing {
  lg_Group : Group;
  Articles : list Z
}.

(** The [*strconv.NumError] of [strconv.ParseInt(num, 10, 64)], kept
    unrendered. *)
Definition NumErrorOf (num : bytes) (e : NumError) : error :=
  Errorf (str "strconv.ParseInt: parsing %q: %s")
         [num; match e with
               | ErrSyntax => str "invalid syntax"
               | ErrRange => str "value out of range"
               end].

(** The loop of [ListGroup] over the lines of the body; [br] is
    [bufio.NewReader(c.body())] and the stream it reads is [r] over [cr].
    The result is [listing.Articles] and the error returned, if any. *)
Fixpoint listGroupLoop (fuel : nat) (eof : bool) (articles : list Z) (br : BodyBufio)
    (r : bodyReader) (cr : Bufio)
  : Res ((list Z * option error) * bodyReader * Bufio) :=
  match fuel with
  | O => OutOfFuel
  | S f =>
      let* ((line, err), br', r', cr') :=
        bodyReadString (stringFuel br r cr) [] br r cr in
      let eof := eof || match err with Some e => isEOF e | None => false end in
      match (match err with Some e => if isEOF e then None else Some e | None => None end) with
      | Some e => Ret (([], Some e), r', cr')
      | None =>
          if eof && (len line =? 0) then Ret ((articles, None), r', cr')
          else
            let line := TrimSpace line in
            if bytes_eqb line [DOT] then Ret ((articles, None), r', cr')
            else
              match ParseInt line with
              | (_, Some e) => Ret (([], Some (NumErrorOf line e)), r', cr')
              | (num, None) => listGroupLoop f eof (articles ++ [num]) br' r' cr'
              end
      end
  end.

(** The text [ListGroup] builds in its variable [cmd]. *)
Definition listGroupCommand (group : bytes) (from to : Z) : bytes :=
  let cmd0 := str "LISTGROUP " ++ group in
  let cmd1 := if 0 <=? from then cmd0 ++ [SP] ++ Itoa from ++ str "-" else cmd0 in
  if 0 <=? to then cmd1 ++ Itoa to else cmd1.

Section ListGroup.
Context `{F : Fmt}.

(** [c.ListGroup(group, from, to)].  The first component of the result is
    the line [fmt.Println(cmd)] writes to the standard output. *)
Definition ListGroup (group : bytes) (from to : Z)
  : M (bytes * option GroupListing * option error) :=
  fun c =>
    let cmd0 := listGroupCommand group from to in
    let printed := cmd0 ++ [LF] in
    let* ((_, line, err), c) := cmd 211 (Sprintf0 cmd0) c in
    match err with
    | Some e => Ret ((printed, None, Some e), c)
    | None =>
        let ss := SplitN line SP 4 in
        let* (status, err) :=
          if 3 <=? len ss then parseGroupStatus line
          else Ret (Some (mkGroup [] 0 0 0 []), None) in
        match err with
        | Some e => Ret ((printed, None, Some e), c)
        | None =>
            match status with
            | None => Panic NilDereference
            | Some g =>
                let status := set_Name g group in
                let* (_, c) := body c in
                (* the reader [body()] has just made, [c.br] *)
                let r := mkBody false [] in
                let* ((articles, err), r', cr') :=
                  listGroupLoop (S (stringFuel (mkBB [] None) r (conn_r c))) false []
                                (mkBB [] None) r (conn_r c) in
                let c := set_br (set_r c cr') (Some r') in
                match err with
                | Some e => Ret ((printed, None, Some e), c)
                | None => Ret ((printed, Some (mkListing status articles), None), c)
                end
            end
        end
    end.

End ListGroup.

(** A line of a group listing as the server sends it, without its LF: the
    text of the article number [v], with any white space around it. *)
Definition numberLine (x : bytes) (v : Z) : Prop :=
  bodyLine x /\ len (decodeLine x) <= bufSize
  /\ ParseInt (TrimSpace (decodeLine x)) = (v, None).

(** The text of a 211 answer: count, low and high number, and what
    follows them, if anything. *)
Definition groupCounts (text : bytes) (count low high : Z) : Prop :=
  exists cs ls hs tl,
    SplitN text SP 4 = cs :: ls :: hs :: tl
    /\ ParseInt cs = (count, None) /\ ParseInt ls = (low, None)
    /\ ParseInt hs = (high, None).

(** A session on which the server lists the articles 7, 8 and 10 of a
    group. *)
Definition listGroupSession : Conn :=
  session (str "211 3 7 10 misc.test list follows" ++ CRLF
           ++ wire [str "7" ++ [CR]; str "8" ++ [CR]; str "10" ++ [CR]] ++ [DOT; CR; LF]).

(** ** The server's clock *)

(** [timeFormatDate]. *)
Definition timeFormatDate : bytes := str "20060102150405".

Section Date.
Context `{Ext : External}.

(** [time.Parse(layout, value)] is the standard library's. *)
Variable timeParse : bytes -> bytes -> Time * option error.

(** [c.Date()]; the name [Date] is the field's of [MessageOverview]. *)
Definition DateCmd : M (Time * option error) :=
  fun c =>
    let* ((_, line, err), c) := cmd 111 (str "DATE") c in
    match err with
    | Some e => Ret ((zeroTime, Some e), c)
    | None =>
        match timeParse timeFormatDate line with
        | (_, Some _) =>
            Ret ((zeroTime, Some (ProtocolError (str "invalid time: " ++ line))), c)
        | (t, None) => Ret ((t, None), c)
        end
    end.

End Date.

(* ================================================================== *)
(** * Properties *)

(** ** Bytes and lines *)

Lemma byte_eqb_eq (a b : ascii) : byte_eqb a b = true <-> a = b.
Proof. apply Ascii.eqb_eq. Qed.

Lemma byte_eqb_refl (a : ascii) : byte_eqb a a = true.
Proof. apply Ascii.eqb_refl. Qed.

Lemma byte_eqb_neq (a b : ascii) : byte_eqb a b = false <-> a <> b.
Proof. apply Ascii.eqb_neq. Qed.

Lemma bytes_eqb_eq (s t : bytes) : bytes_eqb s t = true <-> s = t.
Proof.
  revert t; induction s as [|a s IH]; intros [|b t]; simpl; split;
    try congruence; try reflexivity.
  - intros H. apply andb_prop in H as [H1 H2].
    apply byte_eqb_eq in H1. apply IH in H2. congruence.
  - intros H. injection H as -> ->. rewrite byte_eqb_refl. simpl.
    now apply IH.
Qed.

Lemma bytes_eqb_neq (s t : bytes) : bytes_eqb s t = false <-> s <> t.
Proof.
  destruct (bytes_eqb s t) eqn:E; split; try congruence.
  - apply bytes_eqb_eq in E. congruence.
  - intros _ H. apply bytes_eqb_eq in H. congruence.
Qed.

(** ** Status codes (claim C1) *)

Lemma digitVal_range (c : ascii) (d : Z) : digitVal c = Some d -> 0 <= d <= 9.
Proof.
  unfold digitVal. destruct (_ && _)%nat eqn:E; [|discriminate].
  intros [= <-]. apply andb_prop in E as [E1 E2].
  apply Nat.leb_le in E1, E2. lia.
Qed.

Lemma ParseUint_three (d1 d2 d3 : ascii) (C : Z) :
  ParseUint [d1; d2; d3] = (C, None) -> 0 <= C <= 999.
Proof.
  unfold ParseUint. simpl.
  destruct (digitVal d1) as [v1|] eqn:E1; [|discriminate].
  destruct (digitVal d2) as [v2|] eqn:E2; [|discriminate].
  destruct (digitVal d3) as [v3|] eqn:E3; [|discriminate].
  apply digitVal_range in E1, E2, E3.
  destruct (_ <? _); [|discriminate]. intros [= <-]. lia.
Qed.

(** What [cmd] does once the connection is open, nothing is left to drain,
    the command can be written, and a well-formed status line comes back. *)
Lemma cmd_status_line (E : Z) (command : bytes) (c c1 : Conn) (raw : bytes)
    (r' : Bufio) (d1 d2 d3 : ascii) (text : bytes) (C : Z) :
  conn_close c = false ->
  drain c = Ret (None, c1) ->
  werr (conn_w c1) = None ->
  ReadString LF (conn_r c1) = ((raw, None), r') ->
  TrimSpace raw = d1 :: d2 :: d3 :: SP :: text ->
  ParseUint [d1; d2; d3] = (C, None) ->
  cmd E command c =
    Ret ((C, text, if codeMismatch E C then Some (Error C text) else None),
         set_r (set_w c1 (mkWriter (written (conn_w c1) ++ command ++ CRLF) None)) r').
Proof.
  intros Hopen Hdrain Hw Hread Htrim Hcode.
  unfold cmd. rewrite Hopen, Hdrain. simpl.
  unfold Fprintf. rewrite Hw. simpl. rewrite Hread, Htrim.
  replace (len (d1 :: d2 :: d3 :: SP :: text) <? 4) with false.
  2:{ symmetry. apply Z.ltb_ge. unfold len. simpl length. lia. }
  simpl nth. rewrite byte_eqb_refl. simpl negb. simpl orb.
  simpl firstn. rewrite Hcode. simpl skipn.
  destruct (codeMismatch E C); reflexivity.
Qed.

Lemma codeMismatch_spec (E C : Z) :
  codeMismatch E C = false <->
  (1 <= E < 10 -> C / 100 = E) /\ (10 <= E < 100 -> C / 10 = E)
  /\ (100 <= E < 1000 -> C = E).
Proof.
  unfold codeMismatch.
  destruct (1 <=? E) eqn:A1; destruct (E <? 10) eqn:A2;
  destruct (10 <=? E) eqn:A3; destruct (E <? 100) eqn:A4;
  destruct (100 <=? E) eqn:A5; destruct (E <? 1000) eqn:A6;
  destruct (C / 100 =? E) eqn:A7; destruct (C / 10 =? E) eqn:A8;
  destruct (C =? E) eqn:A9; simpl;
  repeat match goal with
         | H : (_ <=? _) = true |- _ => apply Z.leb_le in H
         | H : (_ <=? _) = false |- _ => apply Z.leb_gt in H
         | H : (_ <? _) = true |- _ => apply Z.ltb_lt in H
         | H : (_ <? _) = false |- _ => apply Z.ltb_ge in H
         | H : (_ =? _) = true |- _ => apply Z.eqb_eq in H
         | H : (_ =? _) = false |- _ => apply Z.eqb_neq in H
         end;
  split; intros; try discriminate; try reflexivity; try lia.
Qed.

(** C1: for every expected-code spec E and every well-formed status line
    with code C, [cmd] returns the code and the server text, and it succeeds
    iff the hundreds digit equals E (1 <= E <= 9), the code without its last
    digit equals E (10 <= E <= 99), or the code equals E (100 <= E <= 999);
    with E = 0 every code is accepted; a mismatch is the status error
    [Error C text].  So 2 accepts exactly 200-299, 22 exactly 220-229 and
    211 only 211. *)
Theorem cmd_expected_code (E : Z) (command : bytes) (c c1 : Conn) (raw : bytes)
    (r' : Bufio) (d1 d2 d3 : ascii) (text : bytes) (C : Z) :
  conn_close c = false ->
  drain c = Ret (None, c1) ->
  werr (conn_w c1) = None ->
  ReadString LF (conn_r c1) = ((raw, None), r') ->
  TrimSpace raw = d1 :: d2 :: d3 :: SP :: text ->
  ParseUint [d1; d2; d3] = (C, None) ->
  exists err c',
    cmd E command c = Ret ((C, text, err), c')
    /\ 0 <= C <= 999
    /\ (1 <= E <= 9 -> (err = None <-> C / 100 = E))
    /\ (10 <= E <= 99 -> (err = None <-> C / 10 = E))
    /\ (100 <= E <= 999 -> (err = None <-> C = E))
    /\ (E = 0 -> err = None)
    /\ (err <> None -> err = Some (Error C text))
    /\ (E = 2 -> (err = None <-> 200 <= C <= 299))
    /\ (E = 22 -> (err = None <-> 220 <= C <= 229))
    /\ (E = 211 -> (err = None <-> C = 211)).
Proof.
  intros Hopen Hdrain Hw Hread Htrim Hcode.
  pose proof (ParseUint_three _ _ _ _ Hcode) as HC.
  eexists _, _. split.
  { eapply cmd_status_line; eassumption. }
  split; [exact HC|].
  pose proof (codeMismatch_spec E C) as Hm.
  destruct (codeMismatch E C).
  - assert (Hno : ~ ((1 <= E < 10 -> C / 100 = E) /\ (10 <= E < 100 -> C / 10 = E)
                     /\ (100 <= E < 1000 -> C = E))).
    { intros H. apply Hm in H. discriminate. }
    repeat split; intros; try discriminate; try reflexivity; exfalso;
      apply Hno; repeat split; intros; Z.div_mod_to_equations; lia.
  - destruct Hm as [Hm _]. destruct (Hm eq_refl) as (H1 & H2 & H3).
    repeat split; intros; try reflexivity; try congruence;
      Z.div_mod_to_equations; lia.
Qed.

Lemma newConn_session (input : bytes) :
  newConn (str "200 ready" ++ CRLF ++ input) IoEOF = (session input, None).
Proof. reflexivity. Qed.

Lemma cmd_expected_code_witness :
  exists err c',
    cmd 22 (str "HEAD") (session (str "221 head follows" ++ CRLF))
      = Ret ((221, str "head follows", err), c')
    /\ 0 <= 221 <= 999
    /\ (1 <= 22 <= 9 -> (err = None <-> 221 / 100 = 22))
    /\ (10 <= 22 <= 99 -> (err = None <-> 221 / 10 = 22))
    /\ (100 <= 22 <= 999 -> (err = None <-> 221 = 22))
    /\ (22 = 0 -> err = None)
    /\ (err <> None -> err = Some (Error 221 (str "head follows")))
    /\ (22 = 2 -> (err = None <-> 200 <= 221 <= 299))
    /\ (22 = 22 -> (err = None <-> 220 <= 221 <= 229))
    /\ (22 = 211 -> (err = None <-> 221 = 211)).
Proof.
  eapply (cmd_expected_code 22 (str "HEAD")
            (session (str "221 head follows" ++ CRLF)) _
            (str "221 head follows" ++ CRLF) _
            "2"%char "2"%char "1"%char (str "head follows") 221);
    reflexivity.
Defined.

(** ** Overview lines (claims C3 and C10) *)

Lemma Split_nosep (d : ascii) (f : bytes) : ~ In d f -> Split f d = [f].
Proof.
  induction f as [|a f IH]; simpl; intros H; [reflexivity|].
  destruct (byte_eqb a d) eqn:E.
  - apply byte_eqb_eq in E. tauto.
  - rewrite IH by tauto. reflexivity.
Qed.

Lemma Split_app_sep (d : ascii) (f s : bytes) :
  ~ In d f -> Split (f ++ d :: s) d = f :: Split s d.
Proof.
  induction f as [|a f IH]; simpl; intros H.
  - now rewrite byte_eqb_refl.
  - destruct (byte_eqb a d) eqn:E.
    + apply byte_eqb_eq in E. tauto.
    + rewrite IH by tauto. reflexivity.
Qed.

Lemma Split_Join (d : ascii) (fs : list bytes) :
  fs <> [] -> Forall (fun f => ~ In d f) fs -> Split (Join fs d) d = fs.
Proof.
  induction fs as [|f fs IH]; [congruence|].
  intros _ H. inversion H as [|? ? Hf Hfs]; subst.
  destruct fs as [|g fs].
  - simpl. now apply Split_nosep.
  - change (Join (f :: g :: fs) d) with (f ++ d :: Join (g :: fs) d).
    rewrite Split_app_sep by assumption. rewrite IH; [reflexivity|congruence|assumption].
Qed.

Section OverviewLines.
Context `{Ext : External}.

Lemma glueLoop_S (fuel : nat) (ss : list bytes) (v0 : Z) :
  glueLoop (S fuel) ss v0 =
    if len ss <? 8 then Ret (ss, v0)
    else
      let* s6 := index ss 6 in
      match Atoi s6 with
      | (v, Some _) =>
          let* s5 := index ss 5 in
          glueLoop fuel (firstn 6 (<[ 5%nat := s5 ++ s6 ]> ss)
                         ++ skipn 7 (<[ 5%nat := s5 ++ s6 ]> ss)) v
      | (v, None) => Ret (ss, v)
      end.
Proof. reflexivity. Qed.

Lemma len_lt_8 (ss : list bytes) :
  (len ss <? 8) = true <-> (length ss < 8)%nat.
Proof. unfold len. rewrite Z.ltb_lt. lia. Qed.

Lemma glueLoop_short (fuel : nat) (ss : list bytes) (v0 : Z) :
  (length ss < 8)%nat -> glueLoop (S fuel) ss v0 = Ret (ss, v0).
Proof.
  intros H. rewrite glueLoop_S. apply len_lt_8 in H. now rewrite H.
Qed.

Lemma glueLoop_step (fuel : nat) (ss : list bytes) (v0 : Z) (s5 s6 : bytes) :
  (8 <= length ss)%nat ->
  nth_error ss 5 = Some s5 -> nth_error ss 6 = Some s6 ->
  notNumber s6 ->
  glueLoop (S fuel) ss v0 =
    glueLoop fuel (firstn 5 ss ++ (s5 ++ s6) :: skipn 7 ss) (fst (Atoi s6)).
Proof.
  intros Hlen H5 H6 Hn. rewrite glueLoop_S.
  destruct (len ss <? 8) eqn:E; [apply len_lt_8 in E; lia|].
  unfold index. rewrite H6, H5. cbn [bindRes]. unfold notNumber in Hn.
  destruct (Atoi s6) as [v [e|]] eqn:EA; cbn [snd fst] in *; [|congruence].
  f_equal.
  do 8 (destruct ss as [|? ss]; [simpl in Hlen; lia|]).
  reflexivity.
Qed.

Lemma glueLoop_number (fuel : nat) (ss : list bytes) (v0 v : Z) (s6 : bytes) :
  (8 <= length ss)%nat ->
  nth_error ss 6 = Some s6 -> Atoi s6 = (v, None) ->
  glueLoop (S fuel) ss v0 = Ret (ss, v).
Proof.
  intros Hlen H6 Hv. rewrite glueLoop_S.
  destruct (len ss <? 8) eqn:E; [apply len_lt_8 in E; lia|].
  unfold index. rewrite H6. cbn [bindRes]. now rewrite Hv.
Qed.

(** The loop on a line whose references were cut into [r0 :: rs] by tabs. *)
Lemma glueLoop_glues (rs : list bytes) :
  forall (fuel : nat) (v0 v : Z) (a0 a1 a2 a3 a4 r0 nbytes nlines : bytes)
         (extra : list bytes),
    Forall notNumber rs -> Atoi nbytes = (v, None) ->
    (length rs < fuel)%nat ->
    glueLoop fuel (a0 :: a1 :: a2 :: a3 :: a4 :: r0 :: rs ++ nbytes :: nlines :: extra) v0
    = Ret (a0 :: a1 :: a2 :: a3 :: a4 :: (r0 ++ concat rs) :: nbytes :: nlines :: extra, v).
Proof.
  induction rs as [|j rs IH]; intros fuel v0 v a0 a1 a2 a3 a4 r0 nbytes nlines extra Hrs Hb Hf.
  - destruct fuel as [|fuel]; [simpl in Hf; lia|].
    simpl app. simpl concat. rewrite app_nil_r.
    eapply glueLoop_number; [simpl; lia|reflexivity|exact Hb].
  - destruct fuel as [|fuel]; [simpl in Hf; lia|].
    inversion Hrs as [|? ? Hj Hrs']; subst.
    erewrite glueLoop_step;
      [|simpl; rewrite length_app; simpl; lia|reflexivity|reflexivity|exact Hj].
    simpl firstn. simpl skipn. rewrite drop_0. simpl app.
    rewrite (IH fuel _ v); [|assumption|assumption|simpl in Hf; lia].
    simpl concat. now rewrite app_assoc.
Qed.

(** When no field from index 6 on is a number the loop stops with seven
    fields. *)
Lemma glueLoop_underflow (junk : list bytes) :
  forall (fuel : nat) (v0 : Z) (a0 a1 a2 a3 a4 r0 j : bytes),
    Forall notNumber (j :: junk) ->
    (length junk < fuel)%nat ->
    exists r z v,
      glueLoop fuel (a0 :: a1 :: a2 :: a3 :: a4 :: r0 :: j :: junk) v0
      = Ret ([a0; a1; a2; a3; a4; r; z], v).
Proof.
  induction junk as [|k junk IH]; intros fuel v0 a0 a1 a2 a3 a4 r0 j Hj Hf.
  - destruct fuel as [|fuel]; [simpl in Hf; lia|].
    rewrite glueLoop_short by (simpl; lia). eauto.
  - destruct fuel as [|fuel]; [simpl in Hf; lia|].
    inversion Hj as [|? ? Hj1 Hj2]; subst.
    erewrite glueLoop_step; [|simpl; lia|reflexivity|reflexivity|exact Hj1].
    simpl firstn. simpl skipn. rewrite ?drop_0. simpl app.
    destruct (IH fuel (fst (Atoi j)) a0 a1 a2 a3 a4 (r0 ++ j) k Hj2)
      as (r & z & v & Hr); [simpl in Hf; lia|].
    rewrite Hr. eauto.
Qed.

End OverviewLines.

Section OverviewRecords.
Context `{Ext : External}.

Lemma len_cons8 (a0 a1 a2 a3 a4 a5 a6 a7 : bytes) (l : list bytes) :
  (len (a0 :: a1 :: a2 :: a3 :: a4 :: a5 :: a6 :: a7 :: l) <? 8) = false.
Proof. apply Z.ltb_ge. unfold len. simpl length. lia. Qed.

(** C3: while at least 8 fields are left and field 6 is not a number, the
    loop appends it to field 5 without a delimiter, removes it and tries
    field 6 again; with fewer than 8 fields it stops.  So a line whose
    references were cut into pieces by tabs yields the record with the
    right bytes and lines values and the references glued together. *)
Theorem parseOverview_glues_references
    (num subj from date msgid r0 : bytes) (rs : list bytes)
    (nbytes nlines : bytes) (extra : list bytes) (n b l : Z) :
  let fields :=
    num :: subj :: from :: date :: msgid :: r0 :: rs ++ nbytes :: nlines :: extra in
  let line := Join fields TAB in
  Forall (fun f => ~ In TAB f) fields ->
  TrimSpace line = line ->
  ParseInt num = (n, None) ->
  Forall notNumber rs ->
  Atoi nbytes = (b, None) ->
  (nlines = [] /\ l = 0 \/ Atoi nlines = (l, None)) ->
  (forall fuel ss v0 s5 s6,
      (8 <= length ss)%nat ->
      nth_error ss 5 = Some s5 -> nth_error ss 6 = Some s6 -> notNumber s6 ->
      glueLoop (S fuel) ss v0 =
        glueLoop fuel (firstn 5 ss ++ (s5 ++ s6) :: skipn 7 ss) (fst (Atoi s6)))
  /\ (forall fuel ss v0,
         (length ss < 8)%nat -> glueLoop (S fuel) ss v0 = Ret (ss, v0))
  /\ parseOverviewLine line =
       Ret (inl {| MessageNumber := n; Subject := subj; From := from;
                   Date := match parseDate date with
                           | (_, Some _) => zeroTime
                           | (t, None) => t
                           end;
                   MessageId := msgid;
                   References := Split (r0 ++ concat rs) SP;
                   Bytes := b; Lines := l; Extra := extra |}).
Proof.
  intros fields line Hf Htrim Hnum Hrs Hb Hl.
  split; [intros; now apply glueLoop_step|].
  split; [intros; now apply glueLoop_short|].
  unfold parseOverviewLine. rewrite Htrim. unfold line.
  rewrite Split_Join; [|discriminate|exact Hf].
  unfold fields.
  destruct (len _ <? 8) eqn:E.
  { apply len_lt_8 in E. simpl in E. rewrite length_app in E. simpl in E. lia. }
  cbn [index nth_error bindRes]. rewrite Hnum.
  rewrite (glueLoop_glues rs _ 0 b); [|assumption|assumption|].
  2:{ simpl. rewrite length_app. simpl. lia. }
  cbn [index nth_error bindRes]. simpl skipn. rewrite ?drop_0.
  destruct Hl as [[-> ->]|Hl].
  - reflexivity.
  - destruct nlines as [|c nl]; [discriminate Hl|].
    replace (len (c :: nl) =? 0) with false.
    2:{ symmetry. apply Z.eqb_neq. unfold len. simpl length. lia. }
    rewrite Hl. reflexivity.
Qed.

(** C10 fails on the code: when no field from index 6 on is a number, the
    loop leaves seven fields and the read of field 7 is out of range. *)
Theorem parseOverviewLine_glue_underflow
    (line a0 a1 a2 a3 a4 r0 j k : bytes) (junk : list bytes) (n : Z) :
  Split (TrimSpace line) TAB = a0 :: a1 :: a2 :: a3 :: a4 :: r0 :: j :: k :: junk ->
  ParseInt a0 = (n, None) ->
  Forall notNumber (j :: k :: junk) ->
  parseOverviewLine line = Panic (IndexOutOfRange 7 7).
Proof.
  intros Hs Hn Hj. unfold parseOverviewLine. rewrite Hs, len_cons8.
  cbn [index nth_error bindRes]. rewrite Hn.
  destruct (glueLoop_underflow (k :: junk) (S (length (a0 :: a1 :: a2 :: a3 :: a4 :: r0 :: j :: k :: junk)))
              0 a0 a1 a2 a3 a4 r0 j Hj) as (r & z & v & Hr).
  { simpl. lia. }
  rewrite Hr. reflexivity.
Qed.

End OverviewRecords.

Lemma parseOverview_glues_references_witness :
  @parseOverviewLine storedExternal overviewLine_tabbed =
    Ret (inl (@mkOverview storedExternal 123 (str "Hi") (str "bob@x")
                (str "01 Jan 2020 00:00:00") (str "<id@x>")
                [str "<msg1@x><msg2@x><msg3@x>"] 456 12
                [str "Xref: news misc.test:123"])).
Proof.
  refine (proj2 (proj2 (@parseOverview_glues_references storedExternal
            (str "123") (str "Hi") (str "bob@x") (str "01 Jan 2020 00:00:00")
            (str "<id@x>") (str "<msg1@x>") [str "<msg2@x>"; str "<msg3@x>"]
            (str "456") (str "12") [str "Xref: news misc.test:123"] 123 456 12
            _ _ _ _ _ _))).
  - repeat constructor; vm_compute; intuition discriminate.
  - vm_compute; reflexivity.
  - vm_compute; reflexivity.
  - repeat constructor; vm_compute; discriminate.
  - vm_compute; reflexivity.
  - right. vm_compute; reflexivity.
Defined.

Lemma parseOverviewLine_glue_underflow_witness :
  @parseOverviewLine storedExternal overviewLine_eight = Panic (IndexOutOfRange 7 7).
Proof.
  refine (@parseOverviewLine_glue_underflow storedExternal overviewLine_eight
            (str "1") (str "a") (str "b") (str "c") (str "d") (str "e")
            (str "f") (str "g") [] 1 _ _ _).
  - vm_compute; reflexivity.
  - vm_compute; reflexivity.
  - repeat constructor; vm_compute; discriminate.
Defined.

(** ** Group selection (claim C9) *)

Lemma parseGroupStatus_malformed (line : bytes) :
  malformedGroupLine line ->
  parseGroupStatus line =
    Ret (None, Some (ProtocolError (str "bad group response: " ++ line))).
Proof.
  unfold malformedGroupLine, parseGroupStatus.
  set (ss := SplitN line SP 4). intros H.
  destruct (len ss <? 3) eqn:E; [reflexivity|].
  apply Z.ltb_ge in E. unfold len in E.
  destruct H as [H|(i & s & Hi & Hs & Hbad)]; [lia|].
  destruct ss as [|a [|b [|c rest]]]; simpl in E; try lia.
  cbn [parseThree index nth_error bindRes].
  destruct (ParseInt a) as [va [ea|]] eqn:Ea; [reflexivity|].
  destruct (ParseInt b) as [vb [eb|]] eqn:Eb; [reflexivity|].
  destruct (ParseInt c) as [vc [ec|]] eqn:Ec; [reflexivity|].
  exfalso. apply Hbad.
  destruct i as [|[|[|i]]]; simpl in Hs; try lia;
    injection Hs as <-; [rewrite Ea|rewrite Eb|rewrite Ec]; reflexivity.
Qed.

(** C9 fails on the code: when the GROUP command is accepted and its status
    text is malformed, [parseGroupStatus] returns a nil status with the
    protocol error, and [status.Name = group] dereferences it. *)
Theorem Group_malformed_status_panics (group : bytes) (c c1 : Conn) (code : Z)
    (line : bytes) :
  cmd 211 (str "GROUP " ++ group) c = Ret ((code, line, None), c1) ->
  malformedGroupLine line ->
  GroupCmd group c = Panic NilDereference.
Proof.
  intros Hcmd Hbad. unfold GroupCmd. rewrite Hcmd. cbn [bindRes].
  rewrite (parseGroupStatus_malformed _ Hbad). reflexivity.
Qed.

Lemma Group_malformed_status_panics_witness :
  GroupCmd (str "misc.test") (session (str "211 1234 3000234" ++ CRLF))
  = Panic NilDereference.
Proof.
  refine (Group_malformed_status_panics (str "misc.test")
            (session (str "211 1234 3000234" ++ CRLF)) _ 211
            (str "1234 3000234") _ _).
  - vm_compute; reflexivity.
  - left. vm_compute. lia.
Defined.

(** A well-formed status text is parsed, but the name stays empty:
    [Group] sets it only on the error path. *)
Lemma Group_wellformed_example :
  exists c',
    GroupCmd (str "misc.test")
             (session (str "211 1234 3000234 3002322 misc.test" ++ CRLF))
    = Ret ((Some (mkGroup [] 1234 3002322 3000234 []), None), c').
Proof. eexists. vm_compute. reflexivity. Qed.

(** ** The overview pipeline (claims C4, C5 and C6) *)

Ltac break_match :=
  match goal with
  | |- context [bindRes ?x _] => destruct x as [[? ?]| |] eqn:?; cbn [bindRes]
  | |- context [match ?x with _ => _ end] => destruct x eqn:?
  | |- context [if ?x then _ else _] => destruct x eqn:?
  end.

Lemma ioE_not_500 (e : ioError) : isCode500 (ioE e) = false.
Proof. now destruct e. Qed.

Lemma ReadBytes_error (d : ascii) (b b' : Bufio) (line : bytes) (e : error) :
  ReadBytes d b = ((line, Some e), b') -> e = ioE (ioerr b) /\ pending b' = [].
Proof.
  unfold ReadBytes. destruct (cut d (pending b)) as [[l rest]|].
  - discriminate.
  - intros H; inversion H; subst. auto.
Qed.

Lemma bodyReader_Read_error (n : nat) (r r' : bodyReader) (cr cr' : Bufio)
    (data : bytes) (e : error) :
  bodyReader_Read n r cr = Ret ((data, Some e), r', cr') -> isCode500 e = false.
Proof.
  unfold bodyReader_Read.
  destruct (eof r); [intros H; inversion H; reflexivity|].
  destruct (len (buf r) =? 0); [|discriminate].
  destruct (ReadBytes LF cr) as [[b [e0|]] cr1] eqn:HR.
  - apply ReadBytes_error in HR as [-> _].
    intros H; inversion H; subst. apply ioE_not_500.
  - destruct (at_ b (len b - 2)) as [c0| |]; cbn [bindRes]; try discriminate.
    repeat break_match; intros H; inversion H; reflexivity.
Qed.

Lemma readAllLoop_error (fuel : nat) :
  forall sizes k acc r cr data e r' cr',
    readAllLoop fuel sizes k acc r cr = Ret ((data, Some e), r', cr') ->
    isCode500 e = false.
Proof.
  induction fuel as [|fuel IH]; intros sizes k acc r cr data e r' cr'; [discriminate|].
  simpl.
  destruct (bodyReader_Read (sizes k) r cr) as [[[[d [e1|]] r1] cr1]| |] eqn:HR;
    cbn [bindRes]; try discriminate.
  - apply bodyReader_Read_error in HR.
    destruct (isEOF e1); intros H; inversion H; subst; assumption.
  - apply IH.
Qed.

Lemma drain_frame (c c' : Conn) (err : option error) :
  drain c = Ret (err, c') ->
  conn_w c' = conn_w c /\ conn_close c' = conn_close c
  /\ xzverUnsupported c' = xzverUnsupported c /\ xzverSupported c' = xzverSupported c
  /\ (forall e, err = Some e -> isCode500 e = false).
Proof.
  unfold drain. destruct (conn_br c) as [r|].
  - unfold discard, ReadAll, ReadAllSized.
    destruct (readAllLoop _ _ _ _ _ _) as [[[[d e] r'] cr']| |] eqn:HR;
      cbn [bindRes]; try discriminate.
    destruct e as [e|]; intros H; inversion H; subst; simpl;
      repeat split; try discriminate.
    intros e0 [= <-]. eapply readAllLoop_error; eassumption.
  - intros H; inversion H; subst. repeat split; discriminate.
Qed.

(** A command leaves the capability flags alone, and sends nothing or its
    own line; a status error comes back only for a command that was
    sent. *)
Lemma cmd_frame (E : Z) (command : bytes) (c c' : Conn) (code : Z) (line : bytes)
    (err : option error) :
  cmd E command c = Ret ((code, line, err), c') ->
  xzverUnsupported c' = xzverUnsupported c /\ xzverSupported c' = xzverSupported c
  /\ (written (conn_w c') = written (conn_w c)
      \/ written (conn_w c') = written (conn_w c) ++ sent command)
  /\ (forall e, err = Some e -> isCode500 e = true ->
        written (conn_w c') = written (conn_w c) ++ sent command).
Proof.
  unfold cmd, sent. destruct (conn_close c).
  { intros H; inversion H; subst. repeat split; auto. intros e [= <-]. discriminate. }
  destruct (drain c) as [[derr c1]| |] eqn:Hd; cbn [bindRes]; try discriminate.
  apply drain_frame in Hd as (Hw & _ & Hu & Hs & Hde).
  destruct derr as [de|].
  { intros H; inversion H; subst. rewrite Hw. repeat split; auto.
    intros e [= <-] H5. rewrite (Hde _ eq_refl) in H5. discriminate. }
  unfold Fprintf. destruct (werr (conn_w c1)) eqn:Hwe.
  - intros H; inversion H; subst. simpl. rewrite Hw. repeat split; auto.
    intros e [= <-] H5. rewrite ioE_not_500 in H5. discriminate.
  - rewrite <- Hw, <- Hu, <- Hs.
    repeat break_match; intros H; inversion H; subst; simpl; auto.
Qed.

Section OverviewProperties.
Context `{Ext : External}.

Lemma readOverview_frame (line : bytes) (c c' : Conn) res :
  readOverview line c = Ret (res, c') ->
  xzverUnsupported c' = xzverUnsupported c /\ xzverSupported c' = xzverSupported c
  /\ conn_w c' = conn_w c.
Proof.
  unfold readOverview.
  repeat (break_match; cbn [bindRes]; try discriminate);
    intros H; inversion H; subst; simpl; auto.
Qed.

Lemma parseXzver_frame (c c' : Conn) res :
  parseXzver c = Ret (res, c') ->
  xzverUnsupported c' = xzverUnsupported c /\ xzverSupported c' = xzverSupported c
  /\ conn_w c' = conn_w c.
Proof.
  unfold parseXzver.
  repeat (break_match; cbn [bindRes]; try discriminate);
    intros H; inversion H; subst; simpl; auto.
Qed.

(** From OVER on, the flags stay and the first thing sent, if anything, is
    the OVER command. *)
Lemma overviewOVER_frame (b e : Z) (c c' : Conn) res :
  overviewOVER b e c = Ret (res, c') ->
  xzverUnsupported c' = xzverUnsupported c /\ xzverSupported c' = xzverSupported c
  /\ (written (conn_w c') = written (conn_w c)
      \/ exists more,
           written (conn_w c') =
             written (conn_w c) ++ sent (str "OVER " ++ range b e) ++ more).
Proof.
  unfold overviewOVER.
  destruct (cmd 224 (str "OVER " ++ range b e) c) as [[[[code line] err] c1]| |] eqn:H1;
    cbn [bindRes]; try discriminate.
  apply cmd_frame in H1 as (Hu1 & Hs1 & Hw1 & H500).
  assert (Hplain : forall c2, xzverUnsupported c2 = xzverUnsupported c1 ->
            xzverSupported c2 = xzverSupported c1 -> conn_w c2 = conn_w c1 ->
            xzverUnsupported c2 = xzverUnsupported c
            /\ xzverSupported c2 = xzverSupported c
            /\ (written (conn_w c2) = written (conn_w c)
                \/ exists more, written (conn_w c2) =
                     written (conn_w c) ++ sent (str "OVER " ++ range b e) ++ more)).
  { intros c2 Hu Hs Hw. rewrite Hu, Hs, Hw. repeat split; try assumption.
    destruct Hw1 as [Hw1|Hw1]; [now left|right].
    exists []. now rewrite Hw1, app_nil_r. }
  destruct err as [e1|].
  - destruct (isCode500 e1) eqn:E5.
    + specialize (H500 _ eq_refl E5).
      destruct (cmd 224 (str "XOVER " ++ range b e) c1)
        as [[[[xcode xline] xerr] c2]| |] eqn:H2; cbn [bindRes]; try discriminate.
      apply cmd_frame in H2 as (Hu2 & Hs2 & Hw2 & _).
      assert (Hx : forall c3, xzverUnsupported c3 = xzverUnsupported c2 ->
                xzverSupported c3 = xzverSupported c2 -> conn_w c3 = conn_w c2 ->
                xzverUnsupported c3 = xzverUnsupported c
                /\ xzverSupported c3 = xzverSupported c
                /\ (written (conn_w c3) = written (conn_w c)
                    \/ exists more, written (conn_w c3) =
                         written (conn_w c) ++ sent (str "OVER " ++ range b e) ++ more)).
      { intros c3 Hu Hs Hw. rewrite Hu, Hs, Hw, Hu2, Hs2.
        repeat split; try assumption. right.
        destruct Hw2 as [Hw2|Hw2]; rewrite Hw2, H500.
        - exists []. now rewrite app_nil_r.
        - eexists. rewrite <- !app_assoc. reflexivity. }
      destruct xerr.
      * intros H; inversion H; subst. now apply Hx.
      * intros H. apply readOverview_frame in H as (Hu & Hs & Hw). now apply Hx.
    + intros H; inversion H; subst. now apply Hplain.
  - intros H. apply readOverview_frame in H as (Hu & Hs & Hw). now apply Hplain.
Qed.


(** C4: when the XZVER command of an Overview call fails, the call goes on
    with OVER in the state the failed command left, with the flag
    [xzverUnsupported] set; what it returns is what the OVER stage returns,
    the flag is still set afterwards, and the next thing sent, if anything,
    is the OVER command. *)
Theorem Overview_xzver_failure_falls_through (b e : Z) (c c1 : Conn) (code : Z)
    (line : bytes) (xzerr : error) :
  negb (xzverUnsupported c) || xzverSupported c = true ->
  cmd 224 (str "XZVER " ++ range b e) c = Ret ((code, line, Some xzerr), c1) ->
  Overview b e c = overviewOVER b e (set_xzverUnsupported c1 true)
  /\ forall res c',
       Overview b e c = Ret (res, c') ->
       xzverUnsupported c' = true
       /\ (written (conn_w c') = written (conn_w c1)
           \/ exists more,
                written (conn_w c') =
                  written (conn_w c1) ++ sent (str "OVER " ++ range b e) ++ more).
Proof.
  intros Htry Hcmd.
  assert (HO : Overview b e c = overviewOVER b e (set_xzverUnsupported c1 true)).
  { unfold Overview. now rewrite Htry, Hcmd. }
  split; [exact HO|].
  intros res c' H. rewrite HO in H.
  apply overviewOVER_frame in H as (Hu & _ & Hw). split; [exact Hu|exact Hw].
Qed.


Lemma Overview_keeps_unsupported (b e : Z) (c c' : Conn) res :
  provenUnsupported c -> Overview b e c = Ret (res, c') ->
  provenUnsupported c'
  /\ (written (conn_w c') = written (conn_w c)
      \/ exists more,
           written (conn_w c') =
             written (conn_w c) ++ sent (str "OVER " ++ range b e) ++ more).
Proof.
  intros [Hu Hs] H. unfold Overview in H. rewrite Hu, Hs in H. simpl in H.
  apply overviewOVER_frame in H as (Hu' & Hs' & Hw).
  unfold provenUnsupported. rewrite Hu', Hs'. auto.
Qed.

Lemma laterOn_keeps_unsupported (c c' : Conn) :
  laterOn c c' -> provenUnsupported c -> provenUnsupported c'.
Proof.
  induction 1 as [c|c c1 c2 E command [[code line] err] Hcmd _ IH
                    |c c1 c2 b e res HO _ IH]; intros Hc.
  - exact Hc.
  - apply IH. apply cmd_frame in Hcmd as (Hu & Hs & _).
    destruct Hc. unfold provenUnsupported. now rewrite Hu, Hs.
  - apply IH. eapply Overview_keeps_unsupported; eassumption.
Qed.

(** C5, as the code has it: on a session where XZVER has not succeeded,
    once the XZVER command of an Overview call has failed, every later
    Overview call sends OVER first (or nothing at all, when the connection
    is closed or broken). *)
Theorem Overview_skips_xzver_after_failure (b0 e0 : Z) (c0 c1 c2 c c' : Conn)
    (code : Z) (line : bytes) (xzerr : error) res0 (b e : Z) res :
  xzverSupported c0 = false ->
  xzverUnsupported c0 = false ->
  cmd 224 (str "XZVER " ++ range b0 e0) c0 = Ret ((code, line, Some xzerr), c1) ->
  Overview b0 e0 c0 = Ret (res0, c2) ->
  laterOn c2 c ->
  Overview b e c = Ret (res, c') ->
  xzverUnsupported c = true /\ xzverSupported c = false
  /\ (written (conn_w c') = written (conn_w c)
      \/ exists more,
           written (conn_w c') =
             written (conn_w c) ++ sent (str "OVER " ++ range b e) ++ more).
Proof.
  intros Hs0 Hu0 Hcmd H0 Hlater H.
  assert (H2 : provenUnsupported c2).
  { unfold Overview in H0. rewrite Hu0, Hs0, Hcmd in H0. simpl in H0.
    apply cmd_frame in Hcmd as (_ & Hs1 & _).
    apply overviewOVER_frame in H0 as (Hu & Hs & _).
    unfold provenUnsupported. rewrite Hu, Hs. simpl. split; congruence. }
  pose proof (laterOn_keeps_unsupported _ _ Hlater H2) as Hc.
  destruct (Overview_keeps_unsupported _ _ _ _ _ Hc H) as [_ Hw].
  destruct Hc. auto.
Qed.

End OverviewProperties.

Lemma Overview_xzver_failure_falls_through_witness :
  exists c1,
    cmd 224 (str "XZVER " ++ range 1 2) (session noXzverScript)
      = Ret ((500, str "what?", Some (Error 500 (str "what?"))), c1)
    /\ @Overview storedExternal 1 2 (session noXzverScript)
       = @overviewOVER storedExternal 1 2 (set_xzverUnsupported c1 true)
    /\ forall res c',
         @Overview storedExternal 1 2 (session noXzverScript) = Ret (res, c') ->
         xzverUnsupported c' = true
         /\ (written (conn_w c') = written (conn_w c1)
             \/ exists more,
                  written (conn_w c') =
                    written (conn_w c1) ++ sent (str "OVER " ++ range 1 2) ++ more).
Proof.
  eexists. split; [vm_compute; reflexivity|].
  apply (@Overview_xzver_failure_falls_through storedExternal 1 2
           (session noXzverScript) _ 500 (str "what?") (Error 500 (str "what?")));
    vm_compute; reflexivity.
Defined.


Lemma Overview_skips_xzver_after_failure_witness :
  exists c c',
    @Overview storedExternal 1 2 (session noXzverScript) = Ret (([], None), c)
    /\ @Overview storedExternal 3 4 c = Ret (([], None), c')
    /\ xzverUnsupported c = true /\ xzverSupported c = false
    /\ (written (conn_w c') = written (conn_w c)
        \/ exists more,
             written (conn_w c') =
               written (conn_w c) ++ sent (str "OVER " ++ range 3 4) ++ more).
Proof.
  eexists _, _.
  split; [vm_compute; reflexivity|]. split; [vm_compute; reflexivity|].
  eapply (@Overview_skips_xzver_after_failure storedExternal 1 2
            (session noXzverScript) _ _ _ _ 500 (str "what?")
            (Error 500 (str "what?")) _ 3 4).
  - reflexivity.
  - reflexivity.
  - vm_compute; reflexivity.
  - vm_compute; reflexivity.
  - apply later_now.
  - vm_compute; reflexivity.
Defined.

(** C5 as stated fails: once XZVER has succeeded on a session, a failed
    XZVER does not stop later Overview calls from sending XZVER first. *)
Lemma Overview_retries_xzver_after_success :
  ~ (forall (c0 c1 c2 c c' : Conn) (b0 e0 code : Z) (line : bytes) (xzerr : error)
            res0 (b e : Z) res,
        negb (xzverUnsupported c0) || xzverSupported c0 = true ->
        cmd 224 (str "XZVER " ++ range b0 e0) c0 = Ret ((code, line, Some xzerr), c1) ->
        @Overview storedExternal b0 e0 c0 = Ret (res0, c2) ->
        @laterOn storedExternal c2 c ->
        @Overview storedExternal b e c = Ret (res, c') ->
        written (conn_w c') = written (conn_w c)
        \/ exists more,
             written (conn_w c') =
               written (conn_w c) ++ sent (str "OVER " ++ range b e) ++ more).
Proof.
  intros H.
  pose proof (fun c1 c2 c c' res0 res =>
                H afterXzverSuccess c1 c2 c c' 1 2 500 (str "what?")
                  (Error 500 (str "what?")) res0 1 2 res) as H'.
  edestruct H' as [Hw|[more Hw]].
  - reflexivity.
  - vm_compute; reflexivity.
  - vm_compute; reflexivity.
  - apply later_now.
  - vm_compute; reflexivity.
  - vm_compute in Hw. discriminate Hw.
  - vm_compute in Hw. discriminate Hw.
Qed.

(** The run behind it: XZVER is accepted in the first call and rejected in
    the second, and the third call sends XZVER again before OVER. *)
Lemma Overview_retries_xzver_trace :
  exists r1 r2 r3 c2 c3,
    @Overview storedExternal 1 2 (session xzverOnceScript) = Ret (r1, afterXzverSuccess)
    /\ xzverSupported afterXzverSuccess = true
    /\ @Overview storedExternal 1 2 afterXzverSuccess = Ret (r2, c2)
    /\ xzverUnsupported c2 = true
    /\ @Overview storedExternal 1 2 c2 = Ret (r3, c3)
    /\ sentSince c2 c3 = sent (str "XZVER 1-2") ++ sent (str "OVER 1-2").
Proof.
  eexists _, _, _, _, _.
  split; [vm_compute; reflexivity|]. split; [reflexivity|].
  split; [vm_compute; reflexivity|]. split; [reflexivity|].
  split; [vm_compute; reflexivity|]. vm_compute; reflexivity.
Qed.

(** ** Body streams (claims C7 and C2) *)

Lemma cut_app (d : ascii) (l r : bytes) :
  ~ In d l -> cut d (l ++ d :: r) = Some (l ++ [d], r).
Proof.
  induction l as [|a l IH]; simpl; intros H.
  - now rewrite byte_eqb_refl.
  - destruct (byte_eqb a d) eqn:E; [apply byte_eqb_eq in E; tauto|].
    rewrite IH by tauto. reflexivity.
Qed.

Lemma cut_none (d : ascii) (l : bytes) : ~ In d l -> cut d l = None.
Proof.
  induction l as [|a l IH]; simpl; intros H; [reflexivity|].
  destruct (byte_eqb a d) eqn:E; [apply byte_eqb_eq in E; tauto|].
  rewrite IH by tauto. reflexivity.
Qed.

Lemma cut_Some_inv (d : ascii) (s a b : bytes) :
  cut d s = Some (a, b) -> exists l, a = l ++ [d] /\ s = l ++ d :: b /\ ~ In d l.
Proof.
  revert a b; induction s as [|c s IH]; simpl; intros a b; [discriminate|].
  destruct (byte_eqb c d) eqn:E.
  - apply byte_eqb_eq in E as ->. intros [= <- <-]. exists []. auto.
  - destruct (cut d s) as [[l rest]|]; [|discriminate].
    intros [= <- <-]. destruct (IH _ _ eq_refl) as (l0 & -> & -> & Hn).
    exists (c :: l0). repeat split; auto.
    apply byte_eqb_neq in E. simpl. intros [?|?]; tauto.
Qed.

Lemma cut_None_inv (d : ascii) (s : bytes) : cut d s = None -> ~ In d s.
Proof.
  induction s as [|c s IH]; simpl; [tauto|].
  destruct (byte_eqb c d) eqn:E; [discriminate|].
  destruct (cut d s) as [[l rest]|]; [discriminate|].
  intros _. apply byte_eqb_neq in E. intros [?|?]; [congruence|]. now apply IH.
Qed.

Lemma noteLast_snoc (l : bytes) (c : ascii) (old : option ascii) :
  noteLast (l ++ [c]) old = Some c.
Proof. unfold noteLast. now rewrite last_snoc. Qed.

Lemma ReadBytes_line (d : ascii) (l r : bytes) (e : ioError) (lb : option ascii) :
  ~ In d l ->
  ReadBytes d (mkBufio (l ++ d :: r) e lb) = ((l ++ [d], None), mkBufio r e (Some d)).
Proof.
  intros H. unfold ReadBytes. simpl. rewrite cut_app by assumption.
  now rewrite noteLast_snoc.
Qed.

Lemma ReadBytes_partial (d : ascii) (l : bytes) (e : ioError) (lb : option ascii) :
  ~ In d l ->
  ReadBytes d (mkBufio l e lb) = ((l, Some (ioE e)), mkBufio [] e (noteLast l lb)).
Proof.
  intros H. unfold ReadBytes. simpl. now rewrite cut_none by assumption.
Qed.

Lemma len_snoc2 (y : bytes) (c d : ascii) : len (y ++ [c; d]) - 2 = len y.
Proof. unfold len. rewrite length_app. simpl. lia. Qed.

Lemma at_middle (y : bytes) (c d : ascii) :
  at_ (y ++ [c; d]) (len y) = Ret c.
Proof.
  unfold at_, index, len. rewrite length_app. simpl length.
  replace ((0 <=? Z.of_nat (length y)) && (Z.of_nat (length y) <? Z.of_nat (length y + 2)))
    with true.
  2:{ symmetry. apply andb_true_intro. split; [apply Z.leb_le|apply Z.ltb_lt]; lia. }
  rewrite Nat2Z.id. rewrite nth_error_app2 by lia.
  now rewrite Nat.sub_diag.
Qed.

Lemma stripCR_snoc (y : bytes) (c : ascii) :
  stripCR (y ++ [c]) = if byte_eqb c CR then y else y ++ [c].
Proof.
  unfold stripCR. rewrite last_snoc. now rewrite removelast_last.
Qed.

Lemma dropLast_snoc2 (y : bytes) (c d : ascii) : dropLast 1 (y ++ [c; d]) = y ++ [c].
Proof.
  unfold dropLast. rewrite length_app. simpl length.
  replace (length y + 2 - 1)%nat with (length (y ++ [c])) by (rewrite length_app; simpl; lia).
  change (y ++ [c; d]) with (y ++ [c] ++ [d]). rewrite app_assoc.
  apply take_app_length.
Qed.

Lemma setLast_snoc (y : bytes) (c d : ascii) :
  <[ (length (y ++ [c]) - 1)%nat := d ]> (y ++ [c]) = y ++ [d].
Proof.
  rewrite length_app. simpl length.
  replace (length y + 1 - 1)%nat with (length y + 0)%nat by lia.
  now rewrite insert_app_r.
Qed.

(** One [Read] on an empty buffer takes the next line off the connection. *)
Lemma Read_line (n : nat) (x more : bytes) (e : ioError) (lb : option ascii) :
  bodyLine x ->
  bodyReader_Read n (mkBody false []) (mkBufio (x ++ LF :: more) e lb)
  = Ret ((firstn n (decodeLine x), None), mkBody false (skipn n (decodeLine x)),
         mkBufio more e (Some LF)).
Proof.
  intros (Hlf & Hne & Hdot & Hdotcr).
  unfold bodyReader_Read. cbn [eof buf]. change (len [] =? 0) with true. cbv iota.
  rewrite ReadBytes_line by assumption.
  destruct (exists_last Hne) as (y & c & ->).
  rewrite <- app_assoc. cbn [app]. rewrite len_snoc2, at_middle. cbn [bindRes].
  unfold decodeLine. rewrite stripCR_snoc.
  destruct (byte_eqb c CR) eqn:Ec.
  - apply byte_eqb_eq in Ec as ->.
    rewrite dropLast_snoc2, setLast_snoc.
    destruct (bytes_eqb (y ++ [LF]) dotnl) eqn:Ed.
    { apply bytes_eqb_eq in Ed. exfalso. apply Hdotcr.
      destruct y as [|a [|b y]]; simpl in Ed; try discriminate.
      - injection Ed as ->. reflexivity.
      - destruct y; discriminate. }
    reflexivity.
  - destruct (bytes_eqb (y ++ [c; LF]) dotnl) eqn:Ed.
    { apply bytes_eqb_eq in Ed. exfalso. apply Hdot.
      destruct y as [|a [|b y]]; simpl in Ed; try discriminate.
      - injection Ed as ->. reflexivity.
      - destruct y; discriminate. }
    rewrite <- app_assoc. reflexivity.
Qed.

Lemma Read_terminator (n : nat) (t rest : bytes) (e : ioError) (lb : option ascii) :
  terminator t ->
  bodyReader_Read n (mkBody false []) (mkBufio (t ++ rest) e lb)
  = Ret (([], Some EOF), mkBody true [], mkBufio rest e (Some LF)).
Proof. intros [-> | ->]; reflexivity. Qed.

Lemma Read_partial (n : nat) (l : bytes) (e : ioError) (lb : option ascii) :
  ~ In LF l ->
  bodyReader_Read n (mkBody false []) (mkBufio l e lb)
  = Ret (([], Some (ioE e)), mkBody false [], mkBufio [] e (noteLast l lb)).
Proof.
  intros H. unfold bodyReader_Read. cbn [eof buf]. change (len [] =? 0) with true.
  cbv iota. now rewrite ReadBytes_partial by assumption.
Qed.

Lemma Read_buffered (n : nat) (bf : bytes) (cr : Bufio) :
  bf <> [] ->
  bodyReader_Read n (mkBody false bf) cr
  = Ret ((firstn n bf, None), mkBody false (skipn n bf), cr).
Proof.
  intros H. unfold bodyReader_Read. cbn [eof buf].
  destruct (len bf =? 0) eqn:E; [|reflexivity].
  apply Z.eqb_eq in E. unfold len in E. destruct bf; [congruence|simpl in E; lia].
Qed.

Lemma Read_after_eof (n : nat) (bf : bytes) (cr : Bufio) :
  bodyReader_Read n (mkBody true bf) cr = Ret (([], Some EOF), mkBody true bf, cr).
Proof. reflexivity. Qed.

Lemma readAllLoop_S (fuel : nat) (sizes : nat -> nat) (k : nat) (acc : bytes)
    (r : bodyReader) (cr : Bufio) :
  readAllLoop (S fuel) sizes k acc r cr =
    let* ((data, err), r', cr') := bodyReader_Read (sizes k) r cr in
    match err with
    | Some e => Ret ((acc ++ data, if isEOF e then None else Some e), r', cr')
    | None => readAllLoop fuel sizes (S k) (acc ++ data) r' cr'
    end.
Proof. reflexivity. Qed.

(** Reads empty the buffer, in at most as many calls as it holds bytes. *)
Lemma readAllLoop_buffered (sizes : nat -> nat) (cr : Bufio) (m : nat) :
  roomy sizes ->
  forall (bf : bytes) (fuel k : nat) (acc : bytes),
    (length bf <= m)%nat -> (length bf <= fuel)%nat ->
    exists j,
      (j <= length bf)%nat
      /\ readAllLoop fuel sizes k acc (mkBody false bf) cr
         = readAllLoop (fuel - j) sizes (k + j) (acc ++ bf) (mkBody false []) cr.
Proof.
  intros Hpos. induction m as [|m IH]; intros bf fuel k acc Hm Hf.
  - destruct bf; [|simpl in Hm; lia].
    exists 0%nat. rewrite Nat.sub_0_r, Nat.add_0_r, app_nil_r. auto.
  - destruct bf as [|a bf'] eqn:Ebf.
    { exists 0%nat. rewrite Nat.sub_0_r, Nat.add_0_r, app_nil_r. auto. }
    rewrite <- Ebf in *.
    destruct fuel as [|fuel]; [subst bf; simpl in Hf; lia|].
    rewrite readAllLoop_S, Read_buffered by (subst bf; discriminate).
    cbn [bindRes].
    pose proof (Hpos k) as Hk.
    assert (Hlen : (length (skipn (sizes k) bf) <= length bf - 1)%nat).
    { rewrite length_skipn. lia. }
    assert (Hbf : (1 <= length bf)%nat) by (subst bf; simpl; lia).
    destruct (IH (skipn (sizes k) bf) fuel (S k) (acc ++ firstn (sizes k) bf))
      as (j & Hj & Heq); [lia|lia|].
    exists (S j). split; [lia|].
    rewrite Heq. rewrite <- app_assoc, firstn_skipn.
    now replace (k + S j)%nat with (S k + j)%nat by lia.
Qed.

Lemma decodeLine_length (x : bytes) :
  (1 <= length (decodeLine x) <= length x + 1)%nat.
Proof.
  unfold decodeLine.
  assert (Hs : (length (stripCR x) <= length x)%nat).
  { unfold stripCR. destruct (last x) as [c|] eqn:El; [|lia].
    destruct (byte_eqb c CR); [|lia].
    apply last_Some in El as [y ->]. rewrite removelast_last, length_app. simpl. lia. }
  destruct (HasPrefix (stripCR x ++ [LF]) dotdot) eqn:Ep.
  - rewrite length_skipn, length_app. simpl length.
    destruct (stripCR x) as [|a [|b y]]; simpl in *; try discriminate; try lia.
  - rewrite length_app. simpl. lia.
Qed.

(** The lines of a body are read one after the other into the result. *)
Lemma readAllLoop_lines (sizes : nat -> nat) (more : bytes) (e : ioError) :
  roomy sizes ->
  forall (xs : list bytes) (bf : bytes) (fuel k : nat) (acc : bytes) (lb : option ascii),
    Forall bodyLine xs ->
    (length bf + length (wire xs) <= fuel)%nat ->
    exists j,
      (j <= length bf + length (wire xs))%nat
      /\ readAllLoop fuel sizes k acc (mkBody false bf) (mkBufio (wire xs ++ more) e lb)
         = readAllLoop (fuel - j) sizes (k + j)
             (acc ++ bf ++ concat (map decodeLine xs))
             (mkBody false []) (mkBufio more e (lastRead xs lb)).
Proof.
  intros Hpos xs. induction xs as [|x xs IH]; intros bf fuel k acc lb Hxs Hf.
  - simpl in *. rewrite app_nil_r.
    destruct (readAllLoop_buffered sizes (mkBufio more e lb) (length bf) Hpos
                bf fuel k acc) as (j & Hj & Heq); [lia|lia|].
    exists j. split; [lia|exact Heq].
  - inversion Hxs as [|? ? Hx Hxs']; subst.
    assert (Hw : wire (x :: xs) = x ++ LF :: wire xs).
    { unfold wire. simpl. now rewrite <- app_assoc. }
    rewrite Hw in *. rewrite length_app in Hf. simpl in Hf.
    destruct (readAllLoop_buffered sizes (mkBufio ((x ++ LF :: wire xs) ++ more) e lb)
                (length bf) Hpos bf fuel k acc) as (j0 & Hj0 & Heq0); [lia|lia|].
    rewrite Heq0.
    destruct (fuel - j0)%nat as [|fuel1] eqn:Ef; [lia|].
    rewrite readAllLoop_S.
    rewrite <- app_assoc. cbn [app]. rewrite Read_line by assumption.
    cbn [bindRes].
    pose proof (decodeLine_length x) as Hd.
    pose proof (Hpos (k + j0)%nat) as Hk.
    destruct (IH (skipn (sizes (k + j0)%nat) (decodeLine x)) fuel1 (S (k + j0))%nat
                ((acc ++ bf) ++ firstn (sizes (k + j0)%nat) (decodeLine x)) (Some LF) Hxs')
      as (j1 & Hj1 & Heq1).
    { rewrite length_skipn. lia. }
    rewrite Heq1.
    exists (j0 + S j1)%nat.
    split; [rewrite length_skipn in Hj1; rewrite length_app; simpl; lia|].
    replace (lastRead xs (Some LF)) with (Some LF) by (now destruct xs).
    cbn [lastRead map concat].
    replace (fuel1 - j1)%nat with (fuel - (j0 + S j1))%nat by lia.
    replace (S (k + j0) + j1)%nat with (k + (j0 + S j1))%nat by lia.
    f_equal. rewrite <- !app_assoc. f_equal. f_equal.
    rewrite app_assoc, firstn_skipn. reflexivity.
Qed.

(** [ReadAll] on a body that is complete on the connection: the decoded
    lines come back, the terminator is consumed, and the reader is at its
    end. *)
Lemma ReadAll_body (sizes : nat -> nat) (xs : list bytes) (bf t rest : bytes)
    (e : ioError) (lb : option ascii) :
  roomy sizes -> Forall bodyLine xs -> terminator t ->
  ReadAllSized sizes (mkBody false bf) (mkBufio (wire xs ++ t ++ rest) e lb)
  = Ret ((bf ++ concat (map decodeLine xs), None), mkBody true [],
         mkBufio rest e (Some LF)).
Proof.
  intros Hpos Hxs Ht. unfold ReadAllSized, readAllFuel. cbn [pending buf].
  assert (Hlt : (1 <= length t)%nat) by (destruct Ht as [-> | ->]; simpl; lia).
  destruct (readAllLoop_lines sizes (t ++ rest) e Hpos xs bf
              (2 * length (wire xs ++ t ++ rest) + length bf + 2) 0 [] lb Hxs)
    as (j & Hj & Heq).
  { rewrite !length_app. lia. }
  rewrite Heq.
  destruct (_ - j)%nat as [|fuel1] eqn:Ef; [rewrite !length_app in Ef; lia|].
  rewrite readAllLoop_S, Read_terminator by assumption.
  cbn [bindRes isEOF]. now rewrite app_nil_r.
Qed.

(** [ReadAll] on a body the connection breaks off in: the transport's error
    comes back. *)
Lemma ReadAll_broken (sizes : nat -> nat) (xs : list bytes) (bf part : bytes)
    (e : ioError) (lb : option ascii) :
  roomy sizes -> Forall bodyLine xs -> ~ In LF part -> e <> IoEOF ->
  ReadAllSized sizes (mkBody false bf) (mkBufio (wire xs ++ part) e lb)
  = Ret ((bf ++ concat (map decodeLine xs), Some (ioE e)), mkBody false [],
         mkBufio [] e (noteLast part (lastRead xs lb))).
Proof.
  intros Hpos Hxs Hp He. unfold ReadAllSized, readAllFuel. cbn [pending buf].
  destruct (readAllLoop_lines sizes part e Hpos xs bf
              (2 * length (wire xs ++ part) + length bf + 2) 0 [] lb Hxs)
    as (j & Hj & Heq).
  { rewrite !length_app. lia. }
  rewrite Heq.
  destruct (_ - j)%nat as [|fuel1] eqn:Ef; [rewrite !length_app in Ef; lia|].
  rewrite readAllLoop_S, Read_partial by assumption.
  cbn [bindRes]. rewrite app_nil_r.
  destruct e; try congruence; reflexivity.
Qed.

Lemma roomy_MinRead : roomy (fun _ => MinRead).
Proof. intros k. unfold MinRead. lia. Qed.

Lemma drain_body (c : Conn) (bf : bytes) (xs : list bytes) (t rest : bytes) :
  conn_br c = Some (mkBody false bf) ->
  Forall bodyLine xs -> terminator t ->
  pending (conn_r c) = wire xs ++ t ++ rest ->
  drain c = Ret (None, set_br (set_r c (mkBufio rest (ioerr (conn_r c)) (Some LF))) None).
Proof.
  intros Hbr Hxs Ht Hp. unfold drain. rewrite Hbr.
  destruct (conn_r c) as [p e lb] eqn:Hr. simpl in Hp. subst p.
  unfold discard, ReadAll.
  rewrite (ReadAll_body _ xs bf t rest e lb roomy_MinRead Hxs Ht).
  reflexivity.
Qed.

Lemma drain_broken (c : Conn) (bf : bytes) (xs : list bytes) (part : bytes) :
  conn_br c = Some (mkBody false bf) ->
  Forall bodyLine xs -> ~ In LF part ->
  pending (conn_r c) = wire xs ++ part ->
  ioerr (conn_r c) <> IoEOF ->
  exists lb,
    drain c = Ret (Some (ioE (ioerr (conn_r c))),
                   set_br (set_r c (mkBufio [] (ioerr (conn_r c)) lb))
                          (Some (mkBody false []))).
Proof.
  intros Hbr Hxs Hpart Hp He. unfold drain. rewrite Hbr.
  destruct (conn_r c) as [p e lb] eqn:Hr. simpl in Hp, He. subst p.
  unfold discard, ReadAll.
  rewrite (ReadAll_broken _ xs bf part e lb roomy_MinRead Hxs Hpart He).
  eexists. reflexivity.
Qed.

Lemma ReadAll_ended (sizes : nat -> nat) (xs : list bytes) (bf part : bytes)
    (lb : option ascii) :
  roomy sizes -> Forall bodyLine xs -> ~ In LF part ->
  ReadAllSized sizes (mkBody false bf) (mkBufio (wire xs ++ part) IoEOF lb)
  = Ret ((bf ++ concat (map decodeLine xs), None), mkBody false [],
         mkBufio [] IoEOF (noteLast part (lastRead xs lb))).
Proof.
  intros Hpos Hxs Hp. unfold ReadAllSized, readAllFuel. cbn [pending buf].
  destruct (readAllLoop_lines sizes part IoEOF Hpos xs bf
              (2 * length (wire xs ++ part) + length bf + 2) 0 [] lb Hxs)
    as (j & Hj & Heq).
  { rewrite !length_app. lia. }
  rewrite Heq.
  destruct (_ - j)%nat as [|fuel1] eqn:Ef; [rewrite !length_app in Ef; lia|].
  rewrite readAllLoop_S, Read_partial by assumption.
  cbn [bindRes]. rewrite app_nil_r. reflexivity.
Qed.

(** When the connection ends before the terminator, [ReadAll] takes the
    end of the input for the end of the stream: the drain reports no error,
    the command is written, and the read of its status line returns EOF. *)
Lemma cmd_body_cut_by_EOF (E : Z) (command : bytes) (c : Conn) (bf : bytes)
    (xs : list bytes) (part : bytes) :
  conn_close c = false ->
  conn_br c = Some (mkBody false bf) ->
  werr (conn_w c) = None ->
  Forall bodyLine xs -> ~ In LF part ->
  pending (conn_r c) = wire xs ++ part ->
  ioerr (conn_r c) = IoEOF ->
  exists c',
    cmd E command c = Ret ((0, [], Some EOF), c')
    /\ written (conn_w c') = written (conn_w c) ++ sent command
    /\ conn_br c' = None.
Proof.
  intros Hopen Hbr Hw Hxs Hpart Hp He.
  destruct (conn_r c) as [p e lb] eqn:Hr. simpl in Hp, He. subst p e.
  unfold cmd, drain. rewrite Hopen, Hbr, Hr. unfold discard, ReadAll.
  rewrite (ReadAll_ended _ xs bf part lb roomy_MinRead Hxs Hpart).
  cbn [bindRes conn_w set_br set_r]. unfold Fprintf. rewrite Hw.
  eexists. split; [reflexivity|]. split; reflexivity.
Qed.

(** *** The drain ends

    Each [Read] takes a line off the connection or bytes off the stream's
    buffer, which bounds the number of reads of [ReadAll]. *)

Lemma line_shrinks (b : bytes) (c : ascii) :
  (length (if HasPrefix
             (if byte_eqb c CR
              then <[ (length (dropLast 1 b) - 1)%nat := LF ]> (dropLast 1 b)
              else b) dotdot
           then skipn 1 (if byte_eqb c CR
                         then <[ (length (dropLast 1 b) - 1)%nat := LF ]> (dropLast 1 b)
                         else b)
           else (if byte_eqb c CR
                 then <[ (length (dropLast 1 b) - 1)%nat := LF ]> (dropLast 1 b)
                 else b)) <= length b)%nat.
Proof.
  assert (H : (length (if byte_eqb c CR
                       then <[ (length (dropLast 1 b) - 1)%nat := LF ]> (dropLast 1 b)
                       else b) <= length b)%nat).
  { destruct (byte_eqb c CR); [|lia].
    rewrite length_insert. unfold dropLast. rewrite length_firstn. lia. }
  destruct (HasPrefix _ dotdot); [rewrite length_skipn|]; lia.
Qed.

(** [ReadAll] always returns or panics when every buffer it offers has
    room. *)
Lemma readAllLoop_total (sizes : nat -> nat) (fuel : nat) :
  roomy sizes ->
  forall (k : nat) (acc : bytes) (r : bodyReader) (cr : Bufio),
    (2 * length (pending cr) + length (buf r) < fuel)%nat ->
    readAllLoop fuel sizes k acc r cr <> OutOfFuel.
Proof.
  intros Hpos. induction fuel as [|fuel IH]; intros k acc r cr Hf; [lia|].
  rewrite readAllLoop_S. unfold bodyReader_Read.
  pose proof (Hpos k) as Hk.
  destruct (eof r); [discriminate|].
  destruct (len (buf r) =? 0) eqn:Eb.
  - unfold ReadBytes.
    destruct (cut LF (pending cr)) as [[b rest]|] eqn:Hc.
    + apply cut_Some_inv in Hc as (l & -> & Hp & _).
      destruct (at_ (l ++ [LF]) (len (l ++ [LF]) - 2)) as [c| |] eqn:Hat;
        cbn [bindRes]; try discriminate.
      { match goal with
        | |- context [bytes_eqb ?x dotnl] => destruct (bytes_eqb x dotnl)
        end; [cbn [isEOF]; discriminate|].
        cbn [bindRes]. apply IH. cbn [pending buf].
        apply Z.eqb_eq in Eb. unfold len in Eb.
        assert (Hb0 : buf r = []) by (destruct (buf r); [reflexivity|simpl in Eb; lia]).
        rewrite Hb0. cbn [app]. rewrite length_skipn.
        pose proof (line_shrinks (l ++ [LF]) c) as Hs.
        assert (Hll : length (l ++ [LF]) = S (length l))
          by (rewrite length_app; simpl; lia).
        assert (Hpl : length (pending cr) = (length l + S (length rest))%nat)
          by (rewrite Hp, length_app; reflexivity).
        lia. }
      { unfold at_ in Hat.
        destruct (_ && _) in Hat; [|discriminate].
        unfold index in Hat. destruct (nth_error _ _) in Hat; discriminate. }
    + cbn [bindRes]. destruct (isEOF _); discriminate.
  - cbn [bindRes]. apply IH. cbn [pending buf]. rewrite length_skipn.
    apply Z.eqb_neq in Eb. unfold len in Eb. lia.
Qed.

Lemma ReadAllSized_total (sizes : nat -> nat) (r : bodyReader) (cr : Bufio) :
  roomy sizes -> ReadAllSized sizes r cr <> OutOfFuel.
Proof.
  intros Hpos. apply readAllLoop_total; [assumption|]. unfold readAllFuel. lia.
Qed.

(** A line of one byte, a bare LF, makes [Read] look at [b[-1]]. *)
Lemma Read_bare_LF (n : nat) (more : bytes) (e : ioError) (lb : option ascii) :
  bodyReader_Read n (mkBody false []) (mkBufio (LF :: more) e lb)
  = Panic (IndexOutOfRange (-1) 1).
Proof. reflexivity. Qed.

(** X6: with an unread body stream outstanding, a command first drains
    that stream, whatever the session state: when the drain ends without an
    error the command behaves like the command on the session with no
    stream and the input the drain left, when the drain returns an error
    the command returns that error, sends nothing and keeps the stream (a
    panic inside the drain is the command's panic), and the drain always
    ends.  For a stream whose lines and terminator are on the connection
    the drain reads through the terminator, so the command's status line is
    the first line after it; when the connection breaks before the
    terminator, the command returns that error. *)
Theorem cmd_drains_unread_body (E : Z) (command : bytes) (c : Conn) (r : bodyReader) :
  conn_close c = false ->
  conn_br c = Some r ->
  (discard r (conn_r c) <> OutOfFuel
   /\ (forall r' cr',
          discard r (conn_r c) = Ret (None, r', cr') ->
          cmd E command c = cmd E command (set_br (set_r c cr') None))
   /\ (forall e r' cr',
          discard r (conn_r c) = Ret (Some e, r', cr') ->
          cmd E command c = Ret ((0, [], Some e), set_br (set_r c cr') (Some r')))
   /\ (forall p, discard r (conn_r c) = Panic p -> cmd E command c = Panic p))
  /\ (forall bf xs t rest,
         r = mkBody false bf -> Forall bodyLine xs ->
         terminator t -> pending (conn_r c) = wire xs ++ t ++ rest ->
         cmd E command c =
           cmd E command (set_br (set_r c (mkBufio rest (ioerr (conn_r c)) (Some LF))) None))
  /\ (forall bf xs part,
         r = mkBody false bf -> Forall bodyLine xs ->
         ~ In LF part -> pending (conn_r c) = wire xs ++ part ->
         ioerr (conn_r c) <> IoEOF ->
         exists c',
           cmd E command c = Ret ((0, [], Some (ioE (ioerr (conn_r c)))), c')
           /\ conn_w c' = conn_w c /\ conn_br c' <> None).
Proof.
  intros Hopen Hbr. split; [|split].
  - split; [|split; [|split]].
    + unfold discard, ReadAll.
      pose proof (ReadAllSized_total (fun _ => MinRead) r (conn_r c) roomy_MinRead) as Ht.
      destruct (ReadAllSized _ r (conn_r c)) as [[[[bs err] r'] cr']|p|];
        [discriminate|discriminate|congruence].
    + intros r' cr' Hd. unfold cmd at 1 2, drain.
      cbn [conn_close conn_br set_br set_r]. rewrite Hopen, Hbr, Hd. reflexivity.
    + intros e r' cr' Hd. unfold cmd, drain. rewrite Hopen, Hbr, Hd. reflexivity.
    + intros p Hd. unfold cmd, drain. rewrite Hopen, Hbr, Hd. reflexivity.
  - intros bf xs t rest -> Hxs Ht Hp. unfold cmd at 1 2.
    cbn [conn_close set_br set_r]. rewrite Hopen.
    rewrite (drain_body c bf xs t rest Hbr Hxs Ht Hp).
    reflexivity.
  - intros bf xs part -> Hxs Hpart Hp He.
    destruct (drain_broken c bf xs part Hbr Hxs Hpart Hp He) as [lb Hd].
    eexists. unfold cmd. rewrite Hopen, Hd. cbn [bindRes].
    split; [reflexivity|]. split; [reflexivity|discriminate].
Qed.

Lemma cmd_drains_unread_body_witness :
  cmd 211 (str "GROUP misc.test") unreadBodySession
  = cmd 211 (str "GROUP misc.test") (session (str "211 3 1 3 misc.test" ++ CRLF))
  /\ exists c',
       cmd 211 (str "GROUP misc.test") brokenBodySession
       = Ret ((0, [], Some (TransportError (str "connection reset by peer"))), c')
       /\ conn_w c' = conn_w brokenBodySession /\ conn_br c' <> None.
Proof.
  split.
  - refine (proj1 (proj2 (cmd_drains_unread_body 211 (str "GROUP misc.test")
                            unreadBodySession (mkBody false (str "st line" ++ [LF])) _ _))
              (str "st line" ++ [LF])
              [str "second line" ++ [CR]; str "..third" ++ [CR]]
              [DOT; CR; LF] (str "211 3 1 3 misc.test" ++ CRLF) _ _ _ _).
    + reflexivity.
    + reflexivity.
    + reflexivity.
    + repeat constructor; vm_compute; intuition discriminate.
    + left; reflexivity.
    + reflexivity.
  - refine (proj2 (proj2 (cmd_drains_unread_body 211 (str "GROUP misc.test")
                            brokenBodySession (mkBody false (str "st line" ++ [LF])) _ _))
              (str "st line" ++ [LF]) [str "second line" ++ [CR]]
              (str "..thi") _ _ _ _ _).
    + reflexivity.
    + reflexivity.
    + reflexivity.
    + repeat constructor; vm_compute; intuition discriminate.
    + vm_compute; intuition discriminate.
    + reflexivity.
    + discriminate.
Defined.

(** C7: with an unread body stream in which a line is a bare LF, a command
    does not read the stream through its terminator and returns no
    failure either: the drain panics on [b[len(b)-2]] for the line of one
    byte, whatever lines came before it and whatever follows. *)
Theorem cmd_drain_bare_LF_panics (E : Z) (command : bytes) (c : Conn) (bf : bytes)
    (xs : list bytes) (more : bytes) :
  conn_close c = false ->
  conn_br c = Some (mkBody false bf) ->
  Forall bodyLine xs ->
  pending (conn_r c) = wire xs ++ LF :: more ->
  cmd E command c = Panic (IndexOutOfRange (-1) 1).
Proof.
  intros Hopen Hbr Hxs Hp. unfold cmd, drain. rewrite Hopen, Hbr.
  destruct (conn_r c) as [p e lb]. cbn [pending] in Hp. subst p.
  unfold discard, ReadAll, ReadAllSized, readAllFuel. cbn [pending buf].
  destruct (readAllLoop_lines (fun _ => MinRead) (LF :: more) e roomy_MinRead xs bf
              (2 * length (wire xs ++ LF :: more) + length bf + 2) 0 [] lb Hxs)
    as (j & Hj & Heq).
  { rewrite length_app. lia. }
  rewrite Heq.
  destruct (_ - j)%nat as [|fuel1] eqn:Ef; [rewrite length_app in Ef; lia|].
  rewrite readAllLoop_S, Read_bare_LF. reflexivity.
Qed.

Lemma cmd_drain_bare_LF_panics_witness :
  cmd 211 (str "GROUP misc.test") bareLFSession = Panic (IndexOutOfRange (-1) 1).
Proof.
  apply (cmd_drain_bare_LF_panics 211 (str "GROUP misc.test") bareLFSession []
           [str "first" ++ [CR]]
           (str "last" ++ CRLF ++ [DOT] ++ CRLF ++ str "211 3 1 3 misc.test" ++ CRLF)).
  - reflexivity.
  - reflexivity.
  - repeat constructor; vm_compute; intuition discriminate.
  - reflexivity.
Defined.

(** *** Framing and decoding (claim C2) *)

Lemma lines_ind (P : bytes -> Prop) :
  (forall l, ~ In LF l -> P l) ->
  (forall l rest, ~ In LF l -> P rest -> P (l ++ LF :: rest)) ->
  forall s, P s.
Proof.
  intros Hbase Hstep s.
  remember (length s) as n eqn:Hn. revert s Hn.
  induction n as [n IH] using lt_wf_ind. intros s Hn.
  destruct (cut LF s) as [[a b]|] eqn:Hc.
  - apply cut_Some_inv in Hc as (l & -> & -> & Hl).
    apply Hstep; [assumption|].
    apply (IH (length b)); [|reflexivity].
    subst n. rewrite length_app. simpl. lia.
  - apply Hbase. now apply cut_None_inv.
Qed.

Lemma Split_nonempty (s : bytes) (d : ascii) : Split s d <> [].
Proof.
  induction s as [|a s IH]; simpl; [discriminate|].
  destruct (byte_eqb a d); [discriminate|].
  destruct (Split s d); [congruence|discriminate].
Qed.

Lemma linesOf_nosep (l : bytes) :
  ~ In LF l -> linesOf l = match l with [] => [] | _ => [l] end.
Proof.
  intros H. unfold linesOf. rewrite Split_nosep by assumption.
  destruct l; reflexivity.
Qed.

Lemma linesOf_line (l rest : bytes) :
  ~ In LF l -> linesOf (l ++ LF :: rest) = l :: linesOf rest.
Proof.
  intros H. unfold linesOf. rewrite Split_app_sep by assumption.
  pose proof (Split_nonempty rest LF) as Hne.
  destruct (Split rest LF) as [|f fs] eqn:E; [congruence|].
  rewrite last_cons. destruct (last (f :: fs)) as [[|c x]|] eqn:El; try reflexivity.
  apply last_None in El. discriminate.
Qed.

Lemma HasSuffix_LF_snoc (l : bytes) : HasSuffix (l ++ [LF]) [LF] = true.
Proof. unfold HasSuffix. rewrite rev_app_distr. reflexivity. Qed.

Lemma HasSuffix_LF_none (l : bytes) : ~ In LF l -> HasSuffix l [LF] = false.
Proof.
  intros H. unfold HasSuffix. simpl rev.
  destruct (rev l) as [|c r] eqn:E; [reflexivity|].
  simpl. destruct (byte_eqb c LF) eqn:Ec; [|reflexivity].
  apply byte_eqb_eq in Ec as ->. exfalso. apply H.
  apply in_rev. rewrite E. now left.
Qed.

Lemma dropLast_snoc (l : bytes) (c : ascii) : dropLast 1 (l ++ [c]) = l.
Proof.
  unfold dropLast. rewrite length_app. simpl length.
  replace (length l + 1 - 1)%nat with (length l) by lia.
  apply take_app_length.
Qed.

Lemma postLoop_S (fuel : nat) (br : Bufio) (w : Writer) :
  postLoop (S fuel) br w =
    let '((line, err), br') := ReadString LF br in
    let eof := match err with Some e => isEOF e | None => false end in
    match (if eof then None else err) with
    | Some e => Ret (Some e, w)
    | None =>
        if eof && (len line =? 0) then Ret (None, w)
        else
          let line := if HasSuffix line [LF] then dropLast 1 line else line in
          let prefix := if HasPrefix line [DOT] then [DOT] else [] in
          let '(werr, w') := Fprintf w (prefix ++ line ++ CRLF) in
          match werr with
          | Some e => Ret (Some e, w')
          | None => if eof then Ret (None, w') else postLoop fuel br' w'
          end
    end.
Proof. reflexivity. Qed.

(** The loop of [RawPost] writes every line of the article with its dot
    doubled and a CRLF at the end. *)
Lemma postLoop_lines (s : bytes) :
  forall (fuel : nat) (lb : option ascii) (out : bytes),
    (length s < fuel)%nat ->
    postLoop fuel (mkBufio s IoEOF lb) (mkWriter out None)
    = Ret (None, mkWriter (out ++ wire (map (fun l => stuffed l ++ [CR]) (linesOf s))) None).
Proof.
  induction s as [l Hl|l rest Hl IH] using lines_ind; intros fuel lb out Hf.
  - destruct fuel as [|fuel]; [lia|].
    rewrite postLoop_S. unfold ReadString. rewrite ReadBytes_partial by assumption.
    cbn [ioE isEOF]. rewrite linesOf_nosep by assumption.
    destruct l as [|a l].
    + simpl. now rewrite app_nil_r.
    + replace (len (a :: l) =? 0) with false.
      2:{ symmetry. apply Z.eqb_neq. unfold len. simpl length. lia. }
      cbn [andb]. rewrite HasSuffix_LF_none by assumption.
      unfold Fprintf. cbn [werr written].
      unfold wire, stuffed. simpl map. simpl concat.
      rewrite app_nil_r. rewrite <- !app_assoc. reflexivity.
  - destruct fuel as [|fuel]; [lia|].
    rewrite postLoop_S. unfold ReadString. rewrite ReadBytes_line by assumption.
    cbn [andb]. rewrite HasSuffix_LF_snoc, dropLast_snoc.
    unfold Fprintf. cbn [werr written].
    rewrite IH by (rewrite length_app in Hf; simpl in Hf; lia).
    rewrite linesOf_line by assumption.
    unfold wire, stuffed. simpl map. simpl concat.
    rewrite <- !app_assoc. reflexivity.
Qed.

Lemma frame_lines (content : bytes) :
  frame content
  = Ret (wire (map (fun l => stuffed l ++ [CR]) (linesOf content)) ++ [DOT; CR; LF]).
Proof.
  unfold frame, postLines, newBufio. cbn [pending].
  rewrite postLoop_lines by lia. reflexivity.
Qed.

Lemma stuffed_bodyLine (l : bytes) : ~ In LF l -> bodyLine (stuffed l ++ [CR]).
Proof.
  intros H. unfold bodyLine, stuffed. repeat split.
  - rewrite !in_app_iff. intros [[Hd|Hl]|Hc]; [| tauto |].
    + destruct (HasPrefix l [DOT]); simpl in Hd; [|tauto].
      destruct Hd as [Hd|[]]. discriminate Hd.
    + simpl in Hc. destruct Hc as [Hc|[]]. discriminate Hc.
  - destruct (_ ++ l); discriminate.
  - destruct (_ ++ l) as [|a [|b y]]; discriminate.
  - destruct l as [|a l]; simpl; [discriminate|].
    destruct (byte_eqb a DOT) eqn:E; simpl.
    + destruct l; discriminate.
    + apply byte_eqb_neq in E. destruct l; simpl; [|destruct l; discriminate].
      intros [= ->]. congruence.
Qed.

Lemma decodeLine_stuffed (l : bytes) : decodeLine (stuffed l ++ [CR]) = l ++ [LF].
Proof.
  unfold decodeLine. rewrite stripCR_snoc, byte_eqb_refl.
  unfold stuffed. destruct l as [|a l]; [reflexivity|].
  simpl. destruct (byte_eqb a DOT) eqn:E; simpl.
  - now rewrite E.
  - now rewrite E.
Qed.

Lemma lfTerminated_lines (s : bytes) :
  concat (map (fun l => l ++ [LF]) (linesOf s)) = lfTerminated s.
Proof.
  induction s as [l Hl|l rest Hl IH] using lines_ind.
  - rewrite linesOf_nosep by assumption. unfold lfTerminated.
    destruct l as [|a l]; [reflexivity|].
    simpl concat. rewrite app_nil_r.
    destruct (last (a :: l)) as [c|] eqn:El; [|apply last_None in El; discriminate].
    destruct (byte_eqb c LF) eqn:Ec; [|reflexivity].
    apply byte_eqb_eq in Ec as ->. exfalso. apply Hl.
    apply last_Some in El as [y ->]. apply in_app_iff. right. now left.
  - rewrite linesOf_line by assumption. simpl. rewrite IH.
    unfold lfTerminated. rewrite <- app_assoc. simpl.
    destruct rest as [|b rest].
    + rewrite last_snoc, byte_eqb_refl. reflexivity.
    + rewrite last_app. 
      assert (Hlast : last (LF :: b :: rest) = last (b :: rest)) by apply last_cons_cons.
      rewrite Hlast.
      destruct (last (b :: rest)) as [c|] eqn:El; [|apply last_None in El; discriminate].
      destruct (byte_eqb c LF); [reflexivity|].
      rewrite <- app_assoc. reflexivity.
Qed.

(** C2, as the code has it: the article as [RawPost] frames it decodes to
    the article itself when it is empty or ends with LF, and to the article
    with an LF added otherwise; whatever the sizes of the reads, the
    terminator is consumed and not emitted, CRLF comes back as LF and a
    doubled leading dot as one dot, and after the terminator every read
    reports end-of-data. *)
Theorem dot_framing_roundtrip (content rest : bytes) (sizes : nat -> nat)
    (e : ioError) (lb : option ascii) :
  roomy sizes ->
  exists block cr',
    frame content = Ret block
    /\ ReadAllSized sizes (mkBody false []) (mkBufio (block ++ rest) e lb)
       = Ret ((lfTerminated content, None), mkBody true [], cr')
    /\ pending cr' = rest
    /\ forall n,
         bodyReader_Read n (mkBody true []) cr' = Ret (([], Some EOF), mkBody true [], cr').
Proof.
  intros Hpos. eexists _, (mkBufio rest e (Some LF)). split; [apply frame_lines|].
  rewrite <- app_assoc.
  rewrite (ReadAll_body sizes _ [] [DOT; CR; LF] rest e lb Hpos).
  - split; [|split; [reflexivity|intros n; reflexivity]].
    rewrite map_map. cbn [app].
    rewrite <- lfTerminated_lines. do 5 f_equal.
    apply map_ext. intros l. apply decodeLine_stuffed.
  - apply List.Forall_forall. intros x Hx. apply in_map_iff in Hx as (l & <- & Hl).
    apply stuffed_bodyLine.
    unfold linesOf in Hl.
    assert (HS : forall f, In f (Split content LF) -> ~ In LF f).
    { clear. induction content as [l Hl|l rest' Hl IH] using lines_ind; intros f Hf.
      - rewrite Split_nosep in Hf by assumption. destruct Hf as [<-|[]]. assumption.
      - rewrite Split_app_sep in Hf by assumption. destruct Hf as [<-|Hf]; auto. }
    apply HS.
    destruct (last (Split content LF)) as [[|c y]|]; try assumption.
    revert Hl. generalize (Split content LF). clear.
    intros fs. induction fs as [|f [|g fs] IH]; simpl; tauto.
  - now left.
Qed.

Lemma dot_framing_roundtrip_witness :
  exists block cr',
    frame (str ".signature" ++ [LF] ++ str "a" ++ CRLF ++ str "..b" ++ [LF]) = Ret block
    /\ ReadAllSized (fun k => S k) (mkBody false [])
         (mkBufio (block ++ str "240 article posted" ++ CRLF) IoEOF None)
       = Ret ((lfTerminated (str ".signature" ++ [LF] ++ str "a" ++ CRLF ++ str "..b" ++ [LF]),
               None), mkBody true [], cr')
    /\ pending cr' = str "240 article posted" ++ CRLF
    /\ forall n,
         bodyReader_Read n (mkBody true []) cr' = Ret (([], Some EOF), mkBody true [], cr').
Proof.
  apply (dot_framing_roundtrip
           (str ".signature" ++ [LF] ++ str "a" ++ CRLF ++ str "..b" ++ [LF])
           (str "240 article posted" ++ CRLF) (fun k => S k) IoEOF None).
  intros k. lia.
Defined.

(** C2 as stated fails: an article whose last line has no LF comes back
    with one. *)
Lemma dot_framing_adds_final_LF :
  ~ (forall content : bytes,
       exists block r cr,
         frame content = Ret block
         /\ ReadAll (mkBody false []) (newBufio block IoEOF) = Ret ((content, None), r, cr)).
Proof.
  intros H. destruct (H (str "abc")) as (block & r & cr & Hf & Hr).
  vm_compute in Hf. injection Hf as <-.
  vm_compute in Hr. discriminate Hr.
Qed.

Lemma dot_framing_unterminated_example :
  exists cr,
    frame (str "abc") = Ret (str "abc" ++ CRLF ++ [DOT] ++ CRLF)
    /\ ReadAll (mkBody false []) (newBufio (str "abc" ++ CRLF ++ [DOT] ++ CRLF) IoEOF)
       = Ret ((str "abc" ++ [LF], None), mkBody true [], cr).
Proof. eexists. split; vm_compute; reflexivity. Qed.

(** ** Headers (claim C8) *)

Lemma TrimRight_snoc_chop (s : bytes) (c : ascii) :
  existsb (byte_eqb c) chopSet = true ->
  TrimRight (s ++ [c]) chopSet = TrimRight s chopSet.
Proof.
  intros H. unfold TrimRight. rewrite rev_app_distr.
  simpl in H |- *. now rewrite H.
Qed.

Lemma TrimRight_snoc_keep (s : bytes) (c : ascii) :
  existsb (byte_eqb c) chopSet = false ->
  TrimRight (s ++ [c]) chopSet = s ++ [c].
Proof.
  intros H. unfold TrimRight. rewrite rev_app_distr.
  simpl in H |- *. rewrite H. simpl. now rewrite rev_involutive.
Qed.

Lemma trimLeftSet_length (set s : bytes) :
  (length (trimLeftSet set s) <= length s)%nat.
Proof.
  induction s as [|a s IH]; simpl; [lia|].
  destruct (existsb _ set); simpl; lia.
Qed.

Lemma TrimRight_length (s : bytes) : (length (TrimRight s chopSet) <= length s)%nat.
Proof.
  unfold TrimRight. rewrite length_rev.
  etransitivity; [apply trimLeftSet_length|]. now rewrite length_rev.
Qed.

(** A piece that is not chopped keeps what is written before it. *)
Lemma TrimRight_app_clean (a v : bytes) :
  v <> [] -> TrimRight v chopSet = v -> TrimRight (a ++ v) chopSet = a ++ v.
Proof.
  intros Hne Hv. destruct (exists_last Hne) as (y & c & ->).
  destruct (existsb (byte_eqb c) chopSet) eqn:E.
  - rewrite TrimRight_snoc_chop in Hv by assumption.
    pose proof (TrimRight_length y) as Hl. rewrite Hv, length_app in Hl.
    simpl in Hl. lia.
  - rewrite app_assoc. now apply TrimRight_snoc_keep.
Qed.

Lemma TrimRight_blanks (a w : bytes) (c : ascii) :
  existsb (byte_eqb c) chopSet = false -> blanks w ->
  exists w', blanks w' /\ TrimRight (a ++ c :: w) chopSet = a ++ c :: w'.
Proof.
  intros Hc Hw. induction w as [|b w IH] using rev_ind.
  - exists []. split; [constructor|].
    now apply TrimRight_snoc_keep.
  - unfold blanks in Hw. apply Forall_app in Hw as [Hw Hb].
    destruct (IH Hw) as (w' & Hw' & Heq).
    destruct (existsb (byte_eqb b) chopSet) eqn:E.
    + exists w'. split; [assumption|].
      change (a ++ c :: w ++ [b]) with (a ++ (c :: w) ++ [b]).
      rewrite app_assoc, TrimRight_snoc_chop by assumption. exact Heq.
    + exists (w ++ [b]). split; [apply Forall_app; auto|].
      change (a ++ c :: w ++ [b]) with (a ++ (c :: w) ++ [b]).
      rewrite app_assoc. now apply TrimRight_snoc_keep.
Qed.

Lemma skipBlanks_app (w v : bytes) :
  blanks w -> match v with c :: _ => isBlank c = false | [] => True end ->
  skipBlanks (w ++ v) = v.
Proof.
  intros Hw Hv. induction Hw as [|c w Hc Hw IH]; simpl.
  - destruct v as [|c v]; [reflexivity|]. simpl. now rewrite Hv.
  - now rewrite Hc.
Qed.

Lemma IndexByte_none (s : bytes) (d : ascii) : ~ In d s -> IndexByte s d = -1.
Proof.
  induction s as [|a s IH]; simpl; intros H; [reflexivity|].
  destruct (byte_eqb a d) eqn:E; [apply byte_eqb_eq in E; tauto|].
  rewrite IH by tauto. reflexivity.
Qed.

Lemma IndexByte_app (s r : bytes) (d : ascii) :
  ~ In d s -> IndexByte (s ++ d :: r) d = len s.
Proof.
  induction s as [|a s IH]; simpl; intros H.
  - now rewrite byte_eqb_refl.
  - destruct (byte_eqb a d) eqn:E; [apply byte_eqb_eq in E; tauto|].
    rewrite IH by tauto. unfold len. simpl length.
    destruct (Z.of_nat (length s) <? 0) eqn:El; [apply Z.ltb_lt in El; lia|lia].
Qed.

Lemma ReadSlice_line (l r : bytes) (e : ioError) (lb : option ascii) :
  ~ In LF l -> len (l ++ [LF]) <= bufSize ->
  ReadSlice LF (mkBufio (l ++ LF :: r) e lb) = ((l ++ [LF], None), mkBufio r e (Some LF)).
Proof.
  intros Hl Hlen. unfold ReadSlice. cbn [pending ioerr lastByte].
  rewrite cut_app by assumption.
  apply Z.leb_le in Hlen. rewrite Hlen. now rewrite noteLast_snoc.
Qed.

Lemma ReadSlice_end (lb : option ascii) :
  ReadSlice LF (mkBufio [] IoEOF lb) = (([], Some EOF), mkBufio [] IoEOF lb).
Proof. reflexivity. Qed.

Lemma readLineBytes_line (eol s r : bytes) (e : ioError) (lb : option ascii) :
  lineEnd eol -> ~ In LF s -> len (s ++ eol) <= bufSize ->
  readLineBytes (mkBufio (s ++ eol ++ r) e lb)
  = ((TrimRight s chopSet, None), mkBufio r e (Some LF)).
Proof.
  intros [-> | ->] Hs Hlen; unfold readLineBytes.
  - change (s ++ CRLF ++ r) with (s ++ [CR] ++ LF :: r). rewrite app_assoc.
    rewrite ReadSlice_line.
    + rewrite <- app_assoc. cbn [app].
      change (s ++ [CR; LF]) with (s ++ [CR] ++ [LF]).
      rewrite !app_assoc, !TrimRight_snoc_chop by reflexivity. reflexivity.
    + rewrite in_app_iff. intros [H|[H|[]]]; [tauto|discriminate H].
    + rewrite <- app_assoc. exact Hlen.
  - cbn [app]. rewrite ReadSlice_line by assumption.
    rewrite TrimRight_snoc_chop by reflexivity. reflexivity.
Qed.

Lemma eatLeadingSpace_blanks (w : bytes) :
  forall (fuel : nat) (c d : ascii) (more : bytes) (e : ioError) (lb : option ascii),
    isBlank c = true -> blanks w -> isBlank d = false ->
    (length w + 2 <= fuel)%nat ->
    eatLeadingSpace fuel c (mkBufio (w ++ d :: more) e lb)
    = Ret (None, mkBufio more e (Some d)).
Proof.
  induction w as [|a w IH]; intros fuel c d more e lb Hc Hw Hd Hf.
  - destruct fuel as [|[|fuel]]; [simpl in Hf; lia..|].
    simpl. rewrite Hc. cbn [ReadByte pending ioerr]. now rewrite Hd.
  - destruct fuel as [|fuel]; [simpl in Hf; lia|].
    inversion Hw as [|? ? Ha Hw']; subst.
    cbn [eatLeadingSpace]. rewrite Hc. cbn [app ReadByte pending ioerr].
    apply IH; try assumption. simpl in Hf. lia.
Qed.

Lemma blank_not_LF (w : bytes) : blanks w -> ~ In LF w.
Proof.
  intros Hw Hin. unfold blanks in Hw. rewrite List.Forall_forall in Hw.
  specialize (Hw _ Hin). discriminate Hw.
Qed.

(** A continuation text with its line end starts with a byte that is not a
    blank. *)
Lemma cont_head (eol t : bytes) :
  lineEnd eol -> clean t ->
  exists d more, t ++ eol = d :: more /\ isBlank d = false.
Proof.
  intros Hel (_ & _ & Ht). destruct t as [|c t].
  - destruct Hel as [-> | ->]; eexists _, _; split; reflexivity.
  - eexists _, _. split; [reflexivity|exact Ht].
Qed.

Lemma extensionLoop_S (fuel : nat) (value : bytes) (b : Bufio) :
  extensionLoop (S fuel) value b =
    let '((c, e), b1) := ReadByte b in
    if negb (isBlank c) then
      let b2 := match e with Some EOF => b1 | _ => UnreadByte b1 end in
      Ret ((value, None), b2)
    else
      let* (err, b2) := eatLeadingSpace (S (S (length (pending b1)))) c b1 in
      match err with
      | Some e => Ret (([], Some e), b2)
      | None =>
          let b3 := UnreadByte b2 in
          let '((line, e), b4) := readLineBytes b3 in
          match e with
          | Some e => Ret (([], Some e), b4)
          | None => extensionLoop fuel (value ++ [SP] ++ line) b4
          end
      end.
Proof. reflexivity. Qed.

(** The extension loop folds every continuation line into the value and
    stops in front of what follows the field. *)
Lemma extensionLoop_conts (eol : bytes) (next : bytes) (e : ioError) :
  lineEnd eol -> fieldEnd next e ->
  forall (conts : list (bytes * bytes)) (fuel : nat) (value : bytes) (lb : option ascii),
    Forall (contOk eol) conts ->
    (length conts < fuel)%nat ->
    exists lb',
      extensionLoop fuel value
        (mkBufio (concat (map (fun wt => fst wt ++ snd wt ++ eol) conts) ++ next) e lb)
      = Ret ((fold_left (fun v wt => v ++ [SP] ++ snd wt) conts value, None),
             mkBufio next e lb').
Proof.
  intros Hel Hnext conts.
  induction conts as [|[w t] conts IH]; intros fuel value lb Hc Hf.
  - destruct fuel as [|fuel]; [simpl in Hf; lia|].
    rewrite extensionLoop_S. cbn [map concat app fold_left].
    destruct next as [|c next']; unfold fieldEnd in Hnext.
    + subst e. cbn [ReadByte pending ioerr ioE]. simpl. eauto.
    + cbn [ReadByte pending ioerr]. rewrite Hnext. cbn [negb].
      cbn [UnreadByte lastByte pending ioerr]. eauto.
  - destruct fuel as [|fuel]; [simpl in Hf; lia|].
    inversion Hc as [|? ? Hwt Hc']; subst.
    destruct Hwt as (Hwne & Hw & Ht & Hlen). cbn [fst snd] in *.
    destruct w as [|c0 w']; [congruence|].
    inversion Hw as [|? ? Hc0 Hw']; subst.
    destruct (cont_head eol t Hel Ht) as (d & more & Hdm & Hd).
    rewrite extensionLoop_S. cbn [map concat fst snd].
    rewrite <- !app_assoc. cbn [app ReadByte pending ioerr].
    rewrite Hc0. cbn [negb].
    rewrite (app_assoc t eol), Hdm. cbn [app].
    rewrite eatLeadingSpace_blanks; try assumption.
    2:{ rewrite length_app. simpl. lia. }
    cbn [bindRes UnreadByte lastByte pending ioerr].
    change (d :: more ++ concat (map (fun wt => fst wt ++ snd wt ++ eol) conts) ++ next)
      with ((d :: more) ++ concat (map (fun wt => fst wt ++ snd wt ++ eol) conts) ++ next).
    rewrite <- Hdm, <- app_assoc.
    destruct Ht as (Htlf & Htrim & _).
    rewrite readLineBytes_line by assumption.
    rewrite Htrim.
    destruct (IH fuel (value ++ [SP] ++ t) (Some LF) Hc') as (lb' & Heq);
      [simpl in Hf; lia|].
    exists lb'. exact Heq.
Qed.

Lemma conts_length (eol : bytes) (conts : list (bytes * bytes)) :
  Forall (contOk eol) conts ->
  (length conts <= length (concat (map (fun wt => fst wt ++ snd wt ++ eol) conts)))%nat.
Proof.
  induction 1 as [|[w t] conts (Hw & _) _ IH]; simpl; [lia|].
  rewrite length_app. destruct w; [simpl in Hw; congruence|]. simpl. lia.
Qed.

(** [readKeyValue] on a field: the key as written and the unfolded value. *)
Lemma readKeyValue_field (eol : bytes) (f : field) (next : bytes) (e : ioError)
    (lb : option ascii) :
  lineEnd eol -> wfField eol f -> fieldEnd next e ->
  exists lb',
    readKeyValue (mkBufio (render eol f ++ next) e lb)
    = Ret ((fkey f, unfolded f, None), mkBufio next e lb').
Proof.
  intros Hel ((Hkc & Hks & Hkl & Hk0) & Hpad & Hval & Hlen & Hconts) Hnext.
  destruct f as [key pad value conts]. cbn [fkey fpad fvalue fconts] in *.
  unfold render, unfolded. cbn [fkey fpad fvalue fconts].
  destruct Hval as (Hvlf & Hvtrim & Hv0).
  assert (Hs : ~ In LF (key ++ [COLON] ++ pad ++ value)).
  { rewrite !in_app_iff. intros [H|[H|[H|H]]]; try tauto.
    - destruct H as [H|[]]. discriminate H.
    - now apply blank_not_LF in H. }
  assert (Hline : exists pad', blanks pad'
            /\ TrimRight (key ++ [COLON] ++ pad ++ value) chopSet
               = key ++ COLON :: pad' ++ value).
  { destruct value as [|v0 value'].
    - rewrite app_nil_r. cbn [app].
      destruct (TrimRight_blanks key pad COLON eq_refl Hpad) as (pad' & Hp' & Heq).
      exists pad'. rewrite app_nil_r. auto.
    - exists pad. split; [assumption|].
      rewrite !app_assoc. rewrite TrimRight_app_clean by (assumption || discriminate).
      rewrite <- !app_assoc. reflexivity. }
  destruct Hline as (pad' & Hpad' & Hline).
  unfold readKeyValue.
  replace (key ++ [COLON] ++ pad ++ value ++ eol
           ++ concat (map (fun wt => fst wt ++ snd wt ++ eol) conts))
    with ((key ++ [COLON] ++ pad ++ value) ++ eol
          ++ concat (map (fun wt => fst wt ++ snd wt ++ eol) conts))
    by (now rewrite <- !app_assoc).
  rewrite <- !app_assoc.
  rewrite (app_assoc key), (app_assoc (key ++ [COLON])), (app_assoc ((key ++ [COLON]) ++ pad)).
  rewrite readLineBytes_line; try assumption.
  2:{ rewrite <- !app_assoc. exact Hs. }
  2:{ rewrite <- !app_assoc. exact Hlen. }
  rewrite <- !app_assoc, Hline.
  replace (len (key ++ COLON :: pad' ++ value) =? 0) with false.
  2:{ symmetry. apply Z.eqb_neq. unfold len. rewrite length_app. simpl. lia. }
  rewrite IndexByte_app by assumption.
  replace (len key <? 0) with false by (symmetry; apply Z.ltb_ge; unfold len; lia).
  replace (Z.to_nat (len key)) with (length key) by (unfold len; lia).
  rewrite take_app_length.
  rewrite IndexByte_none by assumption. cbn [Z.leb Z.compare].
  replace (Z.to_nat (len key + 1)) with (length key + 1)%nat by (unfold len; lia).
  replace (skipn (length key + 1) (key ++ COLON :: pad' ++ value)) with (pad' ++ value).
  2:{ change (key ++ COLON :: pad' ++ value) with (key ++ [COLON] ++ pad' ++ value).
      rewrite app_assoc. rewrite skipn_app.
      rewrite skipn_all2 by (rewrite length_app; simpl; lia).
      rewrite length_app. simpl length.
      now rewrite Nat.sub_diag. }
  rewrite skipBlanks_app by assumption.
  cbn [pending].
  destruct (extensionLoop_conts eol next e Hel Hnext conts
              (S (length (concat (map (fun wt => fst wt ++ snd wt ++ eol) conts) ++ next)))
              value (Some LF) Hconts) as (lb' & Heq).
  { pose proof (conts_length eol conts Hconts). rewrite length_app. lia. }
  rewrite Heq. cbn [bindRes]. eauto.
Qed.

Lemma readKeyValue_end (eol ending : bytes) (e : ioError) (lb : option ascii) :
  lineEnd eol -> headerEnd eol ending e ->
  exists r', readKeyValue (mkBufio ending e lb) = Ret (([], [], None), r').
Proof.
  intros Hel [[-> ->]|[body ->]].
  - eexists. reflexivity.
  - unfold readKeyValue.
    change (eol ++ body) with ([] ++ eol ++ body).
    rewrite readLineBytes_line; [eexists; reflexivity|assumption|tauto|].
    destruct Hel as [-> | ->]; vm_compute; discriminate.
Qed.

Lemma render_head (eol : bytes) (f : field) (rest : bytes) (e : ioError) :
  wfField eol f -> fieldEnd (render eol f ++ rest) e.
Proof.
  intros ((_ & _ & _ & Hk0) & _). unfold render, fieldEnd.
  destruct (fkey f) as [|c key]; [contradiction|exact Hk0].
Qed.

Lemma headerEnd_fieldEnd (eol ending : bytes) (e : ioError) :
  lineEnd eol -> headerEnd eol ending e -> fieldEnd ending e.
Proof.
  intros Hel [[-> ->]|[body ->]]; [reflexivity|].
  destruct Hel as [-> | ->]; reflexivity.
Qed.

Lemma render_length (eol : bytes) (f : field) : (1 <= length (render eol f))%nat.
Proof. unfold render. rewrite !length_app. simpl. lia. Qed.

Lemma fields_length (eol : bytes) (fs : list field) :
  (length fs <= length (concat (map (render eol) fs)))%nat.
Proof.
  induction fs as [|f fs IH]; simpl; [lia|].
  rewrite length_app. pose proof (render_length eol f). lia.
Qed.

Lemma readHeaderLoop_S (fuel : nat) (hdr : gmap bytes (list bytes)) (r : Bufio) :
  readHeaderLoop (S fuel) hdr r =
    let* ((key, value, err), r') := readKeyValue r in
    match err with
    | Some e => Ret ((None, Some e), r')
    | None =>
        if len key =? 0 then Ret ((Some (mkArticle hdr None), None), r')
        else
          let key := CanonicalHeaderKey key in
          match hdr !! key with
          | Some oldvalue =>
              readHeaderLoop fuel (<[ key := oldvalue ++ [value] ]> hdr) r'
          | None => readHeaderLoop fuel (<[ key := [value] ]> hdr) r'
          end
    end.
Proof. reflexivity. Qed.

(** The loop of [readHeader] adds the fields to the map one by one and
    stops at the end of the header. *)
Lemma readHeaderLoop_fields (eol ending : bytes) (e : ioError) :
  lineEnd eol -> headerEnd eol ending e ->
  forall (fs : list field) (fuel : nat) (hdr : gmap bytes (list bytes))
         (lb : option ascii),
    Forall (wfField eol) fs ->
    (length fs < fuel)%nat ->
    exists r',
      readHeaderLoop fuel hdr (mkBufio (concat (map (render eol) fs) ++ ending) e lb)
      = Ret ((Some (mkArticle (collect hdr fs) None), None), r').
Proof.
  intros Hel Hend fs.
  induction fs as [|f fs IH]; intros fuel hdr lb Hfs Hf.
  - destruct fuel as [|fuel]; [simpl in Hf; lia|].
    rewrite readHeaderLoop_S. cbn [map concat app].
    destruct (readKeyValue_end eol ending e lb Hel Hend) as (r' & Hr).
    rewrite Hr. cbn [bindRes]. eexists. reflexivity.
  - destruct fuel as [|fuel]; [simpl in Hf; lia|].
    inversion Hfs as [|? ? Hwf Hfs']; subst.
    rewrite readHeaderLoop_S. cbn [map concat]. rewrite <- app_assoc.
    assert (Hnext : fieldEnd (concat (map (render eol) fs) ++ ending) e).
    { destruct fs as [|g fs].
      - cbn [map concat app]. now apply headerEnd_fieldEnd with (eol := eol).
      - cbn [map concat]. rewrite <- app_assoc. apply render_head.
        now inversion Hfs'. }
    destruct (readKeyValue_field eol f _ e lb Hel Hwf Hnext) as (lb' & Hr).
    rewrite Hr. cbn [bindRes].
    destruct Hwf as ((_ & _ & _ & Hk0) & _).
    replace (len (fkey f) =? 0) with false.
    2:{ symmetry. apply Z.eqb_neq. unfold len.
        destruct (fkey f); [contradiction|simpl; lia]. }
    destruct (IH fuel (addField hdr f) lb' Hfs') as (r' & Heq); [simpl in Hf; lia|].
    exists r'. change (collect hdr (f :: fs)) with (collect (addField hdr f) fs).
    rewrite <- Heq. unfold addField.
    destruct (hdr !! CanonicalHeaderKey (fkey f)); reflexivity.
Qed.

Lemma valuesOf_cons (k : bytes) (f : field) (fs : list field) :
  valuesOf k (f :: fs) =
    (if bytes_eqb (CanonicalHeaderKey (fkey f)) k then [unfolded f] else [])
    ++ valuesOf k fs.
Proof.
  unfold valuesOf. simpl. destruct (bytes_eqb _ k); reflexivity.
Qed.

Lemma addField_lookup (hdr : gmap bytes (list bytes)) (f : field) (k : bytes) :
  addField hdr f !! k =
    if bytes_eqb (CanonicalHeaderKey (fkey f)) k
    then Some (default [] (hdr !! k) ++ [unfolded f])
    else hdr !! k.
Proof.
  unfold addField.
  destruct (bytes_eqb (CanonicalHeaderKey (fkey f)) k) eqn:E.
  - apply bytes_eqb_eq in E. subst k.
    destruct (hdr !! CanonicalHeaderKey (fkey f)) as [old|];
      now rewrite lookup_insert_eq.
  - apply bytes_eqb_neq in E.
    destruct (hdr !! CanonicalHeaderKey (fkey f)) as [old|];
      now rewrite lookup_insert_ne.
Qed.

(** The map after the loop: a key holds the values of its fields, after
    what it held before. *)
Lemma collect_lookup (fs : list field) :
  forall (hdr : gmap bytes (list bytes)) (k : bytes),
    collect hdr fs !! k =
      match valuesOf k fs with
      | [] => hdr !! k
      | vs => Some (default [] (hdr !! k) ++ vs)
      end.
Proof.
  induction fs as [|f fs IH]; intros hdr k; [reflexivity|].
  change (collect hdr (f :: fs)) with (collect (addField hdr f) fs).
  rewrite IH, valuesOf_cons, addField_lookup.
  destruct (bytes_eqb (CanonicalHeaderKey (fkey f)) k); cbn [app].
  - destruct (valuesOf k fs) as [|v vs]; simpl; [reflexivity|].
    now rewrite <- app_assoc.
  - reflexivity.
Qed.

(** C8: a header of well-formed fields is parsed into a map in which every
    canonical key holds the unfolded values of all its fields, one entry
    per field, in the order of the stream; a key that occurs more than once
    gets one more entry per occurrence and its values are never joined. *)
Theorem readHeader_keeps_all_values (eol ending : bytes) (e : ioError)
    (fs : list field) (lb : option ascii) :
  lineEnd eol -> Forall (wfField eol) fs -> headerEnd eol ending e ->
  exists article r',
    readHeader (mkBufio (concat (map (render eol) fs) ++ ending) e lb)
    = Ret ((Some article, None), r')
    /\ forall k,
         Header article !! k =
           match valuesOf k fs with
           | [] => None
           | vs => Some vs
           end.
Proof.
  intros Hel Hfs Hend. unfold readHeader. cbn [pending].
  destruct (readHeaderLoop_fields eol ending e Hel Hend fs
              (S (S (length (concat (map (render eol) fs) ++ ending)))) ∅ lb Hfs)
    as (r' & Hr).
  { pose proof (fields_length eol fs). rewrite length_app. lia. }
  rewrite Hr. eexists _, _. split; [reflexivity|].
  intros k. cbn [Header]. rewrite collect_lookup, lookup_empty.
  destruct (valuesOf k fs); reflexivity.
Qed.

Lemma readHeader_keeps_all_values_witness :
  exists article r',
    readHeader (mkBufio (concat (map (render [LF]) exampleFields)
                         ++ [LF] ++ str "body") IoEOF None)
    = Ret ((Some article, None), r')
    /\ forall k,
         Header article !! k =
           match valuesOf k exampleFields with
           | [] => None
           | vs => Some vs
           end.
Proof.
  apply (readHeader_keeps_all_values [LF] ([LF] ++ str "body") IoEOF exampleFields None).
  - right; reflexivity.
  - unfold exampleFields, wfField, contOk, clean, blanks.
    repeat constructor; simpl; try reflexivity; try discriminate;
      try (vm_compute; discriminate); intuition discriminate.
  - right. exists (str "body"). reflexivity.
Defined.

(** The example header: the two Received fields stay two entries, and the
    folded subject is one value. *)
Lemma readHeader_example :
  exists article r',
    readHeader (mkBufio (concat (map (render [LF]) exampleFields)
                         ++ [LF] ++ str "body") IoEOF None)
    = Ret ((Some article, None), r')
    /\ pending r' = str "body"
    /\ map_to_list (Header article) ≡ₚ
         [ (str "Subject", [str "a long subject line"]);
           (str "Received", [str "from a"; str "from b by c"]);
           (str "Message-Id", [str "<1@x>"]) ].
Proof.
  eexists _, _. split; [vm_compute; reflexivity|].
  split; [reflexivity|]. vm_compute.
  repeat first [apply Permutation_refl | apply perm_skip | (etransitivity; [apply perm_swap|])].
Qed.

(** ** The loop bounds suffice *)

Section OverviewTotal.
Context `{Ext : External}.

(** The glue loop always returns, and leaves at least seven of eight or
    more fields. *)
Lemma glueLoop_total (fuel : nat) :
  forall (ss : list bytes) (v : Z),
    (length ss < fuel)%nat ->
    exists ss' v',
      glueLoop fuel ss v = Ret (ss', v')
      /\ ((7 <= length ss)%nat -> (7 <= length ss')%nat).
Proof.
  induction fuel as [|fuel IH]; intros ss v Hf; [lia|].
  rewrite glueLoop_S.
  destruct (len ss <? 8) eqn:E; [eauto|].
  assert (Hlen : (8 <= length ss)%nat).
  { destruct (le_lt_dec 8 (length ss)) as [H|H]; [exact H|].
    apply len_lt_8 in H. congruence. }
  do 8 (destruct ss as [|? ss]; [simpl in Hlen; lia|]).
  cbn [index nth_error bindRes].
  destruct (Atoi _) as [v1 [e|]].
  - cbn [bindRes]. simpl firstn. simpl skipn. rewrite ?drop_0. simpl app.
    match goal with
    | |- context [glueLoop fuel ?l ?w] => destruct (IH l w) as (ss' & v' & Heq & Hl)
    end.
    { simpl in *. lia. }
    rewrite Heq. exists ss', v'. split; [reflexivity|].
    intros _. apply Hl. simpl. lia.
  - eauto.
Qed.

(** One overview line gives a record or a protocol error, or the read of
    field 7 is out of range; the loop bound of the glue loop is never
    reached. *)
Lemma parseOverviewLine_outcomes (line : bytes) :
  (exists rec, parseOverviewLine line = Ret (inl rec))
  \/ (exists msg, parseOverviewLine line = Ret (inr (ProtocolError msg)))
  \/ (exists format args, parseOverviewLine line = Ret (inr (ProtocolErrorf format args)))
  \/ parseOverviewLine line = Panic (IndexOutOfRange 7 7).
Proof.
  unfold parseOverviewLine.
  set (ss := Split (TrimSpace line) TAB).
  destruct (len ss <? 8) eqn:E; [right; left; eauto|].
  assert (Hlen : (8 <= length ss)%nat).
  { destruct (le_lt_dec 8 (length ss)) as [H|H]; [exact H|].
    apply len_lt_8 in H. congruence. }
  destruct (glueLoop_total (S (length ss)) ss 0) as (ss' & v' & Heq & Hl); [lia|].
  specialize (Hl ltac:(lia)).
  clearbody ss.
  do 8 (destruct ss as [|? ss]; [simpl in Hlen; lia|]).
  cbn [index nth_error bindRes].
  destruct (ParseInt _) as [n [e|]]; [right; left; eauto|].
  rewrite Heq. cbn [bindRes].
  do 7 (destruct ss' as [|? ss']; [simpl in Hl; lia|]).
  cbn [index nth_error bindRes].
  destruct ss' as [|s7 ss'].
  - right; right; right. reflexivity.
  - cbn [index nth_error bindRes].
    destruct (len s7 =? 0); [left; eauto|].
    destruct (Atoi s7) as [nl [e|]]; [right; right; left; eauto|left; eauto].
Qed.

Lemma parseOverviewLoop_total (fuel : nat) :
  forall (result : list MessageOverview) (r : Bufio),
    (length (pending r) < fuel)%nat ->
    parseOverviewLoop fuel result r <> OutOfFuel.
Proof.
  induction fuel as [|fuel IH]; intros result r Hf; [lia|].
  cbn [parseOverviewLoop]. unfold ReadString, ReadBytes.
  destruct (cut LF (pending r)) as [[line rest]|] eqn:Hc.
  - apply cut_Some_inv in Hc as (l & -> & Hp & _).
    match goal with
    | |- context [bytes_eqb ?x [DOT]] => destruct (bytes_eqb x [DOT]); [discriminate|]
    end.
    match goal with
    | |- context [parseOverviewLine ?x] =>
        destruct (parseOverviewLine_outcomes x) as [[rec H]|[[msg H]|[(f & a & H)|H]]];
          rewrite H; cbn [bindRes]; try discriminate
    end.
    apply IH. cbn [pending]. rewrite Hp, length_app in Hf. simpl in Hf. lia.
  - destruct (ioerr r); discriminate.
Qed.

Lemma parseOverview_total (r : Bufio) : parseOverview r <> OutOfFuel.
Proof. apply parseOverviewLoop_total. lia. Qed.

End OverviewTotal.

Lemma ReadByte_Some (b b' : Bufio) (c : ascii) :
  ReadByte b = ((c, None), b') ->
  length (pending b) = S (length (pending b')) /\ lastByte b' = Some c.
Proof.
  unfold ReadByte. destruct (pending b) as [|a rest] eqn:Hp; [discriminate|].
  intros H; inversion H; subst. auto.
Qed.

Lemma ReadByte_error (b b' : Bufio) (c : ascii) (e : error) :
  ReadByte b = ((c, Some e), b') -> pending b = [] /\ b' = b /\ c = zero.
Proof.
  unfold ReadByte. destruct (pending b) as [|a rest] eqn:Hp; [|discriminate].
  intros H; inversion H; subst. auto.
Qed.

Lemma eatLeadingSpace_total (fuel : nat) :
  forall (c : ascii) (b : Bufio),
    (length (pending b) < fuel)%nat ->
    lastByte b = Some c ->
    exists err b',
      eatLeadingSpace fuel c b = Ret (err, b')
      /\ (err = None ->
          (length (pending b') <= length (pending b))%nat
          /\ exists d, lastByte b' = Some d).
Proof.
  induction fuel as [|fuel IH]; intros c b Hf Hlast; [lia|].
  cbn [eatLeadingSpace]. destruct (isBlank c).
  - destruct (ReadByte b) as [[c' [e|]] b'] eqn:HR.
    + eexists _, _. split; [reflexivity|discriminate].
    + apply ReadByte_Some in HR as [Hlen Hl'].
      destruct (IH c' b') as (err & b2 & Heq & Hok); [lia|assumption|].
      rewrite Heq. eexists _, _. split; [reflexivity|].
      intros He. destruct (Hok He) as [Hle Hd]. split; [lia|assumption].
  - eexists _, _. split; [reflexivity|]. intros _. split; [lia|eauto].
Qed.

Lemma UnreadByte_length (b : Bufio) :
  (length (pending (UnreadByte b)) <= S (length (pending b)))%nat.
Proof. unfold UnreadByte. destruct (lastByte b); simpl; lia. Qed.

Lemma readLineBytes_shrinks (b b' : Bufio) (line : bytes) :
  readLineBytes b = ((line, None), b') ->
  (length (pending b') + length line < length (pending b))%nat.
Proof.
  unfold readLineBytes, ReadSlice.
  destruct (cut LF (pending b)) as [[l rest]|] eqn:Hc.
  - apply cut_Some_inv in Hc as (l0 & -> & Hp & _).
    destruct (len (l0 ++ [LF]) <=? bufSize).
    + intros H; inversion H; subst. cbn [pending].
      rewrite TrimRight_snoc_chop by reflexivity.
      pose proof (TrimRight_length l0). rewrite Hp, length_app. simpl. lia.
    + discriminate.
  - destruct (len (pending b) <? bufSize); discriminate.
Qed.

(** The extension loop always returns; it leaves no more to read than
    there was, but for the one byte an [UnreadByte] after a failed read
    puts back. *)
Lemma extensionLoop_total (fuel : nat) :
  forall (value : bytes) (b : Bufio),
    (length (pending b) < fuel)%nat ->
    exists res b',
      extensionLoop fuel value b = Ret (res, b')
      /\ (length (pending b') <= S (length (pending b)))%nat.
Proof.
  induction fuel as [|fuel IH]; intros value b Hf; [lia|].
  rewrite extensionLoop_S.
  destruct (ReadByte b) as [[c e] b1] eqn:HR.
  destruct (isBlank c) eqn:Hc; cbn [negb].
  - destruct e as [e|].
    { apply ReadByte_error in HR as (_ & _ & ->). discriminate Hc. }
    apply ReadByte_Some in HR as [Hlen Hl1].
    destruct (eatLeadingSpace_total (S (S (length (pending b1)))) c b1)
      as (err & b2 & Heq & Hok); [lia|assumption|].
    rewrite Heq. cbn [bindRes].
    destruct err as [e|].
    + eexists _, _. split; [reflexivity|].
      clear -Heq Hlen.
      assert (H : forall f c0 b0 e0 b3,
                 eatLeadingSpace f c0 b0 = Ret (Some e0, b3) ->
                 (length (pending b3) <= length (pending b0))%nat).
      { clear. induction f as [|f IHf]; intros c0 b0 e0 b3; [discriminate|].
        cbn [eatLeadingSpace]. destruct (isBlank c0); [|discriminate].
        destruct (ReadByte b0) as [[c' [e|]] b'] eqn:HR.
        - apply ReadByte_error in HR as (_ & -> & _).
          intros H; inversion H; subst. lia.
        - apply ReadByte_Some in HR as [Hl _]. intros H. apply IHf in H. lia. }
      apply H in Heq. lia.
    + destruct (Hok eq_refl) as [Hle [d Hd]].
      destruct (readLineBytes (UnreadByte b2)) as [[line [e|]] b4] eqn:HL.
      * eexists _, _. split; [reflexivity|].
        unfold readLineBytes in HL.
        destruct (ReadSlice LF (UnreadByte b2)) as [[p [e1|]] b5] eqn:HS;
          inversion HL; subst.
        pose proof (UnreadByte_length b2).
        assert (Hs : (length (pending b4) <= length (pending (UnreadByte b2)))%nat).
        { clear -HS. unfold ReadSlice in HS.
          destruct (cut LF _) as [[l rest]|] eqn:Hc.
          - apply cut_Some_inv in Hc as (l0 & -> & Hp & _).
            destruct (_ <=? _); inversion HS; subst; cbn [pending];
              rewrite ?length_skipn; rewrite Hp, ?length_app; simpl; lia.
          - destruct (_ <? _); inversion HS; subst; cbn [pending];
              rewrite ?length_skipn; simpl; lia. }
        lia.
      * apply readLineBytes_shrinks in HL.
        pose proof (UnreadByte_length b2).
        destruct (IH (value ++ [SP] ++ line) b4) as (res & b' & Heq' & Hle'); [lia|].
        rewrite Heq'. eexists _, _. split; [reflexivity|lia].
  - eexists _, _. split; [reflexivity|].
    destruct e as [e|].
    + apply ReadByte_error in HR as (Hp & -> & _).
      destruct e; try apply UnreadByte_length; lia.
    + apply ReadByte_Some in HR as [Hlen Hl1].
      unfold UnreadByte. rewrite Hl1. simpl. lia.
Qed.

(** [readKeyValue] always returns, and a key costs at least one byte of
    the stream. *)
Lemma readKeyValue_total (b : Bufio) :
  exists key value err b',
    readKeyValue b = Ret ((key, value, err), b')
    /\ (key <> [] -> (length (pending b') < length (pending b))%nat).
Proof.
  unfold readKeyValue.
  destruct (readLineBytes b) as [[line [e|]] b1] eqn:HL.
  - destruct e; eexists _, _, _, _; (split; [reflexivity|congruence]).
  - apply readLineBytes_shrinks in HL.
    destruct (len line =? 0) eqn:E0; [eexists _, _, _, _; split; [reflexivity|congruence]|].
    destruct (IndexByte line COLON <? 0);
      [eexists _, _, _, _; split; [reflexivity|congruence]|].
    destruct (0 <=? IndexByte _ SP);
      [eexists _, _, _, _; split; [reflexivity|congruence]|].
    match goal with
    | |- context [extensionLoop ?f ?v ?x] =>
        destruct (extensionLoop_total f v x) as ([val err] & b2 & Heq & Hle); [lia|]
    end.
    rewrite Heq. cbn [bindRes].
    assert (Hline : (1 <= length line)%nat).
    { apply Z.eqb_neq in E0. unfold len in E0. lia. }
    destruct err; eexists _, _, _, _; (split; [reflexivity|]); intros _; lia.
Qed.

Lemma readHeaderLoop_total (fuel : nat) :
  forall (hdr : gmap bytes (list bytes)) (r : Bufio),
    (length (pending r) < fuel)%nat ->
    exists res r', readHeaderLoop fuel hdr r = Ret (res, r').
Proof.
  induction fuel as [|fuel IH]; intros hdr r Hf; [lia|].
  rewrite readHeaderLoop_S.
  destruct (readKeyValue_total r) as (key & value & err & r' & Heq & Hlt).
  rewrite Heq. cbn [bindRes].
  destruct err; [eauto|].
  destruct (len key =? 0) eqn:E0; [eauto|].
  assert (Hk : key <> []) by (intros ->; discriminate E0).
  specialize (Hlt Hk).
  destruct (hdr !! CanonicalHeaderKey key); apply IH; lia.
Qed.

(** X1: [readHeader] returns on every stream, with a header or an error:
    it neither panics nor reaches its loop bound. *)
Lemma readHeader_total (r : Bufio) : exists res r', readHeader r = Ret (res, r').
Proof. apply readHeaderLoop_total. lia. Qed.

Lemma postLoop_total (fuel : nat) :
  forall (br : Bufio) (w : Writer),
    (length (pending br) < fuel)%nat ->
    exists res, postLoop fuel br w = Ret res.
Proof.
  induction fuel as [|fuel IH]; intros br w Hf; [lia|].
  rewrite postLoop_S. unfold ReadString, ReadBytes.
  destruct (cut LF (pending br)) as [[line rest]|] eqn:Hc.
  - apply cut_Some_inv in Hc as (l & -> & Hp & _).
    cbn [andb]. destruct (Fprintf w _) as [[e|] w']; [eauto|].
    apply IH. cbn [pending]. rewrite Hp, length_app in Hf. simpl in Hf. lia.
  - destruct (isEOF (ioE (ioerr br))); [|eauto].
    destruct (_ && _); [eauto|].
    destruct (Fprintf w _) as [[e|] w']; eauto.
Qed.

Lemma postLines_total (br : Bufio) (w : Writer) : exists res, postLines br w = Ret res.
Proof. apply postLoop_total. lia. Qed.

(** ** Further properties *)

(** The record [123 Hi bob@x ... msg1@x msg2@x 456 12] followed by the
    terminator line is parsed into one overview with these values, whatever
    the date parser makes of the date. *)
Lemma parseOverview_example `{Ext : External} :
  parseOverview (newBufio (overviewLine_plain ++ CRLF ++ [DOT] ++ CRLF) IoEOF)
  = Ret (([ {| MessageNumber := 123; Subject := str "Hi"; From := str "bob@x";
               Date := match parseDate (str "01 Jan 2020 00:00:00") with
                       | (_, Some _) => zeroTime
                       | (t, None) => t
                       end;
               MessageId := str "<id@x>";
               References := [str "msg1@x"; str "msg2@x"];
               Bytes := 456; Lines := 12; Extra := [] |} ], None),
         mkBufio [] IoEOF (Some LF)).
Proof. reflexivity. Qed.

(** X3: after [Quit] the connection is closed: every further command fails
    with the closed-connection error and leaves the state as it is, so that
    nothing is written or read. *)
Lemma cmd_after_Quit (c c1 : Conn) (err : option error) (E : Z) (command : bytes) :
  Quit c = Ret (err, c1) ->
  conn_close c1 = true
  /\ cmd E command c1
     = Ret ((0, [], Some (ProtocolError (str "connection closed"))), c1).
Proof.
  unfold Quit.
  destruct (cmd 0 (str "QUIT") c) as [[[[code line] e] c0]| |]; cbn [bindRes];
    try discriminate.
  intros H; inversion H; subst.
  split; [reflexivity|]. unfold cmd. reflexivity.
Qed.

Lemma cmd_after_Quit_witness :
  exists c1,
    Quit (session (str "205 bye" ++ CRLF)) = Ret (None, c1)
    /\ conn_close c1 = true
    /\ cmd 211 (str "GROUP misc.test") c1
       = Ret ((0, [], Some (ProtocolError (str "connection closed"))), c1).
Proof.
  eexists. split; [vm_compute; reflexivity|].
  apply (cmd_after_Quit (session (str "205 bye" ++ CRLF)) _ None 211
           (str "GROUP misc.test")).
  vm_compute; reflexivity.
Defined.

(** X4: a response whose trimmed line has fewer than four bytes, or no space
    as its fourth byte, is a framing error ("short response"); one whose
    first three bytes are not a number is an invalid-code error.  Either
    way the command was sent and the line consumed. *)
Lemma cmd_malformed_status (E : Z) (command : bytes) (c c1 : Conn) (raw : bytes)
    (r' : Bufio) :
  conn_close c = false ->
  drain c = Ret (None, c1) ->
  werr (conn_w c1) = None ->
  ReadString LF (conn_r c1) = ((raw, None), r') ->
  let c' := set_r (set_w c1 (mkWriter (written (conn_w c1) ++ sent command) None)) r' in
  ((length (TrimSpace raw) < 4)%nat \/ nth 3 (TrimSpace raw) zero <> SP ->
   cmd E command c
   = Ret ((0, [], Some (ProtocolErrorf (str "short response: %+q") [TrimSpace raw])), c'))
  /\ ((4 <= length (TrimSpace raw))%nat -> nth 3 (TrimSpace raw) zero = SP ->
      snd (ParseUint (firstn 3 (TrimSpace raw))) <> None ->
      cmd E command c
      = Ret ((0, [], Some (ProtocolError (str "invalid response code: " ++ TrimSpace raw))),
             c')).
Proof.
  intros Hopen Hdrain Hw Hread c'. subst c'.
  unfold cmd, sent. rewrite Hopen, Hdrain. cbn [bindRes].
  unfold Fprintf. rewrite Hw. cbn [conn_r conn_w set_w]. rewrite Hread. split.
  - intros Hshort.
    replace ((len (TrimSpace raw) <? 4) || negb (byte_eqb (nth 3 (TrimSpace raw) zero) SP))
      with true; [reflexivity|].
    symmetry. apply orb_true_iff. destruct Hshort as [H|H].
    + left. apply Z.ltb_lt. unfold len. lia.
    + right. apply negb_true_iff. now apply byte_eqb_neq.
  - intros Hlen Hsp Hnum.
    replace ((len (TrimSpace raw) <? 4) || negb (byte_eqb (nth 3 (TrimSpace raw) zero) SP))
      with false.
    2:{ symmetry. apply orb_false_iff. split.
        - apply Z.ltb_ge. unfold len. lia.
        - rewrite Hsp, byte_eqb_refl. reflexivity. }
    destruct (ParseUint (firstn 3 (TrimSpace raw))) as [i [e|]]; [reflexivity|].
    now elim Hnum.
Qed.

Lemma cmd_malformed_status_witness :
  cmd 211 (str "GROUP misc.test") (session (str "ok" ++ CRLF))
  = Ret ((0, [], Some (ProtocolErrorf (str "short response: %+q") [str "ok"])),
         mkConn (mkWriter (sent (str "GROUP misc.test")) None)
                (mkBufio [] IoEOF (Some LF)) None false false false)
  /\ cmd 211 (str "GROUP misc.test") (session (str "2x1 odd" ++ CRLF))
     = Ret ((0, [], Some (ProtocolError (str "invalid response code: 2x1 odd"))),
            mkConn (mkWriter (sent (str "GROUP misc.test")) None)
                   (mkBufio [] IoEOF (Some LF)) None false false false).
Proof.
  split.
  - refine (proj1 (cmd_malformed_status 211 (str "GROUP misc.test")
                     (session (str "ok" ++ CRLF)) (session (str "ok" ++ CRLF))
                     (str "ok" ++ CRLF) (mkBufio [] IoEOF (Some LF)) _ _ _ _) _).
    + reflexivity.
    + reflexivity.
    + reflexivity.
    + reflexivity.
    + left. vm_compute. lia.
  - refine (proj2 (cmd_malformed_status 211 (str "GROUP misc.test")
                     (session (str "2x1 odd" ++ CRLF)) (session (str "2x1 odd" ++ CRLF))
                     (str "2x1 odd" ++ CRLF) (mkBufio [] IoEOF (Some LF)) _ _ _ _)
              _ _ _).
    + reflexivity.
    + reflexivity.
    + reflexivity.
    + reflexivity.
    + vm_compute. lia.
    + reflexivity.
    + vm_compute. discriminate.
Defined.

(** X5: an overview line with fewer than eight tab-separated fields, or
    with a first field that is not an integer, is a protocol error. *)
Lemma parseOverviewLine_rejects `{Ext : External} (line : bytes) :
  ((length (Split (TrimSpace line) TAB) < 8)%nat ->
   parseOverviewLine line
   = Ret (inr (ProtocolError (str "short header listing line: " ++ line
                              ++ Itoa (len (Split (TrimSpace line) TAB))))))
  /\ (forall ss0,
        (8 <= length (Split (TrimSpace line) TAB))%nat ->
        nth_error (Split (TrimSpace line) TAB) 0 = Some ss0 ->
        snd (ParseInt ss0) <> None ->
        parseOverviewLine line
        = Ret (inr (ProtocolError (str "bad message number '" ++ ss0
                                   ++ str "' in line: " ++ line)))).
Proof.
  unfold parseOverviewLine. split.
  - intros H. apply len_lt_8 in H. now rewrite H.
  - intros ss0 Hlen H0 Hn.
    destruct (len _ <? 8) eqn:E; [apply len_lt_8 in E; lia|].
    unfold index. rewrite H0. cbn [bindRes].
    destruct (ParseInt ss0) as [v [e|]]; [reflexivity|now elim Hn].
Qed.

Lemma parseOverviewLine_rejects_witness :
  @parseOverviewLine storedExternal (str "123" ++ [TAB] ++ str "Hi")
  = Ret (inr (ProtocolError (str "short header listing line: " ++ (str "123" ++ [TAB] ++ str "Hi")
                             ++ str "2"))).
Proof.
  refine (proj1 (@parseOverviewLine_rejects storedExternal (str "123" ++ [TAB] ++ str "Hi")) _).
  vm_compute. lia.
Defined.

(** ** Lists of lines ([readStrings]) *)

Lemma readStringsLoop_S (fuel : nat) (sv : list bytes) (r : Bufio) :
  readStringsLoop (S fuel) sv r
  = let '((line, err), r') := ReadString LF r in
    match err with
    | Some EOF => Ret ((sv, None), r')
    | Some e => Ret (([], Some e), r')
    | None =>
        let line :=
          if HasSuffix line CRLF then dropLast 2 line
          else if HasSuffix line [LF] then dropLast 1 line
          else line in
        if bytes_eqb line [DOT] then Ret ((sv, None), r')
        else readStringsLoop fuel (sv ++ [line]) r'
    end.
Proof. reflexivity. Qed.

Lemma HasSuffix_app (s p : bytes) : HasSuffix (s ++ p) p = true.
Proof.
  unfold HasSuffix. rewrite rev_app_distr.
  induction (rev p) as [|a l IH]; [reflexivity|].
  simpl. now rewrite byte_eqb_refl.
Qed.

Lemma dropLast_app (s p : bytes) : dropLast (length p) (s ++ p) = s.
Proof.
  unfold dropLast. rewrite length_app.
  replace (length s + length p - length p)%nat with (length s) by lia.
  now rewrite take_app_length.
Qed.

Lemma HasSuffix_CRLF_inv (s : bytes) :
  HasSuffix (s ++ [LF]) CRLF = true -> last s = Some CR.
Proof.
  unfold HasSuffix. rewrite rev_app_distr.
  change (rev CRLF) with [LF; CR]. change (rev [LF] ++ rev s) with (LF :: rev s).
  cbn [HasPrefix]. rewrite byte_eqb_refl. cbn [andb].
  destruct (rev s) as [|a l] eqn:E; [discriminate|].
  rewrite andb_true_r. intros Ea.
  apply byte_eqb_eq in Ea. subst a.
  apply (f_equal (@rev ascii)) in E. rewrite rev_involutive in E. simpl in E.
  rewrite E. apply last_snoc.
Qed.

(** What the loop makes of the line [x ++ eol]. *)
Lemma eol_strip (x eol : bytes) :
  eol = CRLF \/ (eol = [LF] /\ last x <> Some CR) ->
  (if HasSuffix (x ++ eol) CRLF then dropLast 2 (x ++ eol)
   else if HasSuffix (x ++ eol) [LF] then dropLast 1 (x ++ eol)
   else x ++ eol) = x.
Proof.
  intros [->|[-> Hcr]].
  - rewrite HasSuffix_app. apply (dropLast_app x CRLF).
  - destruct (HasSuffix (x ++ [LF]) CRLF) eqn:E.
    + apply HasSuffix_CRLF_inv in E. contradiction.
    + rewrite HasSuffix_app. apply (dropLast_app x [LF]).
Qed.

Lemma eol_read (x eol rest : bytes) (e : ioError) (lb : option ascii) :
  ~ In LF x -> lineEnd eol ->
  ReadString LF (mkBufio (x ++ eol ++ rest) e lb)
  = ((x ++ eol, None), mkBufio rest e (Some LF)).
Proof.
  intros Hlf [->| ->].
  - replace (x ++ CRLF ++ rest) with ((x ++ [CR]) ++ LF :: rest)
      by (unfold CRLF; now rewrite <- !app_assoc).
    unfold ReadString. rewrite ReadBytes_line.
    + unfold CRLF. now rewrite <- app_assoc.
    + rewrite in_app_iff. intros [H|[H|[]]]; [contradiction|discriminate].
  - unfold ReadString. cbn [app]. now rewrite ReadBytes_line.
Qed.

Lemma listed_lineEnd (p : bytes * bytes) : listed p -> lineEnd (snd p).
Proof. intros (_ & _ & [H|[H _]]); [now left|now right]. Qed.

Lemma bytes_eqb_refl (s : bytes) : bytes_eqb s s = true.
Proof. now apply bytes_eqb_eq. Qed.

Lemma readStringsLoop_lines (tail : bytes) (e : ioError) (xs : list (bytes * bytes)) :
  Forall listed xs ->
  forall (fuel : nat) (sv : list bytes) (lb : option ascii),
    (length xs <= fuel)%nat ->
    readStringsLoop fuel sv (mkBufio (listWire xs ++ tail) e lb)
    = readStringsLoop (fuel - length xs) (sv ++ map fst xs)
        (mkBufio tail e (match xs with [] => lb | _ => Some LF end)).
Proof.
  induction 1 as [|[x eol] xs Hx Hxs IH]; intros fuel sv lb Hf.
  - cbn [listWire map concat app length]. rewrite Nat.sub_0_r, app_nil_r. reflexivity.
  - destruct fuel as [|fuel]; [simpl in Hf; lia|].
    rewrite readStringsLoop_S.
    unfold listWire. cbn [map concat fst snd]. fold (listWire xs).
    rewrite <- !app_assoc.
    rewrite (eol_read x eol _ e lb (proj1 Hx) (listed_lineEnd _ Hx)).
    rewrite (eol_strip x eol (proj2 (proj2 Hx))).
    destruct (bytes_eqb x [DOT]) eqn:Ed.
    { apply bytes_eqb_eq in Ed. destruct Hx as (_ & Hd & _). now elim Hd. }
    rewrite IH by (simpl in Hf; lia).
    cbn [length map fst]. rewrite <- app_assoc. cbn [app].
    replace (S fuel - S (length xs))%nat with (fuel - length xs)%nat by lia.
    destruct xs; reflexivity.
Qed.

Lemma listWire_length (xs : list (bytes * bytes)) :
  Forall listed xs -> (length xs <= length (listWire xs))%nat.
Proof.
  induction 1 as [|[x eol] xs Hx Hxs IH]; [simpl; lia|].
  unfold listWire. cbn [map concat fst snd length]. fold (listWire xs).
  rewrite !length_app.
  unfold listed in Hx; cbn [fst snd] in Hx.
  destruct Hx as (_ & _ & [->|[-> _]]); simpl; lia.
Qed.

(** X7: [readStrings] returns the lines of a list response without their
    line ends, up to the line with the lone dot, and leaves the reader
    behind that line.  Leading dots are not undone: a line is returned as
    it was sent. *)
Theorem readStrings_lines (xs : list (bytes * bytes)) (eol rest : bytes)
    (e : ioError) (lb : option ascii) :
  Forall listed xs ->
  lineEnd eol ->
  readStrings (mkBufio (listWire xs ++ [DOT] ++ eol ++ rest) e lb)
  = Ret ((map fst xs, None), mkBufio rest e (Some LF)).
Proof.
  intros Hxs Heol. unfold readStrings. cbn [pending].
  pose proof (listWire_length xs Hxs) as Hl.
  rewrite (readStringsLoop_lines _ e xs Hxs) by (rewrite length_app; lia).
  destruct (_ - length xs)%nat as [|fuel] eqn:Ef; [rewrite length_app in Ef; lia|].
  rewrite readStringsLoop_S.
  assert (Hd : ~ In LF [DOT]) by (intros [H|[]]; discriminate).
  rewrite (eol_read [DOT] eol rest e _ Hd Heol).
  rewrite (eol_strip [DOT] eol).
  2:{ destruct Heol as [->| ->]; [now left|right; split; [reflexivity|discriminate]]. }
  cbn [bytes_eqb]. rewrite byte_eqb_refl. cbn [andb]. rewrite app_nil_l.
  reflexivity.
Qed.

Lemma readStringsLoop_partial (fuel : nat) (sv : list bytes) (part : bytes)
    (e : ioError) (lb : option ascii) :
  ~ In LF part ->
  readStringsLoop (S fuel) sv (mkBufio part e lb)
  = Ret ((match e with IoEOF => (sv, None) | _ => ([], Some (ioE e)) end),
         mkBufio [] e (noteLast part lb)).
Proof.
  intros Hp. rewrite readStringsLoop_S. unfold ReadString.
  rewrite ReadBytes_partial by assumption. now destruct e.
Qed.

(** X8: when the input ends before the line with the dot, [readStrings]
    returns the complete lines it has read and no error, dropping what was
    sent of an unfinished line; when the connection fails for another
    reason, it returns that error and no line. *)
Theorem readStrings_end_of_input (xs : list (bytes * bytes)) (part : bytes)
    (e : ioError) (lb : option ascii) :
  Forall listed xs -> ~ In LF part ->
  exists r',
    readStrings (mkBufio (listWire xs ++ part) e lb)
    = Ret ((match e with IoEOF => (map fst xs, None) | _ => ([], Some (ioE e)) end), r')
    /\ pending r' = [].
Proof.
  intros Hxs Hp. unfold readStrings. cbn [pending].
  pose proof (listWire_length xs Hxs) as Hl.
  rewrite (readStringsLoop_lines _ e xs Hxs) by (rewrite length_app; lia).
  destruct (_ - length xs)%nat as [|fuel] eqn:Ef; [rewrite length_app in Ef; lia|].
  rewrite readStringsLoop_partial by assumption.
  eexists. split; [reflexivity|reflexivity].
Qed.

(** The status line [raw] is the answer to a command. *)
Lemma cmd_reply (E : Z) (command : bytes) (c : Conn) (raw more : bytes) (C : Z)
    (text : bytes) :
  ready c -> statusLine raw C text ->
  pending (conn_r c) = raw ++ more ->
  cmd E command c
  = Ret ((C, text, if codeMismatch E C then Some (Error C text) else None),
         answered c command more).
Proof.
  intros (Hopen & Hbr & Hw) (l & d1 & d2 & d3 & -> & Hl & Ht & Hc) Hp.
  assert (Hd : drain c = Ret (None, c)).
  { unfold drain. rewrite Hbr. reflexivity. }
  rewrite (cmd_status_line E command c c (l ++ [LF])
             (mkBufio more (ioerr (conn_r c)) (Some LF)) d1 d2 d3 text C
             Hopen Hd Hw); [reflexivity| |assumption|assumption].
  destruct (conn_r c) as [p e lb]. cbn [pending ioerr] in *. subst p.
  rewrite <- app_assoc. cbn [app]. unfold ReadString. now rewrite ReadBytes_line.
Qed.

Lemma codeMismatch_class (E C : Z) :
  1 <= E < 10 -> codeMismatch E C = negb (C / 100 =? E).
Proof.
  intros H. unfold codeMismatch.
  replace (1 <=? E) with true by (symmetry; apply Z.leb_le; lia).
  replace (E <? 10) with true by (symmetry; apply Z.ltb_lt; lia).
  replace (10 <=? E) with false by (symmetry; apply Z.leb_gt; lia).
  replace (100 <=? E) with false by (symmetry; apply Z.leb_gt; lia).
  cbn [andb orb]. now rewrite !orb_false_r.
Qed.

Lemma codeMismatch_exact (E C : Z) :
  100 <= E < 1000 -> codeMismatch E C = negb (C =? E).
Proof.
  intros H. unfold codeMismatch.
  replace (E <? 10) with false by (symmetry; apply Z.ltb_ge; lia).
  replace (E <? 100) with false by (symmetry; apply Z.ltb_ge; lia).
  replace (100 <=? E) with true by (symmetry; apply Z.leb_le; lia).
  replace (E <? 1000) with true by (symmetry; apply Z.ltb_lt; lia).
  now rewrite !andb_false_r.
Qed.

Lemma codeMismatch_other (E C : Z) :
  100 <= E < 1000 -> C <> E -> codeMismatch E C = true.
Proof.
  intros H Hc. rewrite codeMismatch_exact by assumption.
  apply negb_true_iff. now apply Z.eqb_neq.
Qed.

Lemma answered_r (c : Conn) (command more : bytes) :
  conn_r (answered c command more) = mkBufio more (ioerr (conn_r c)) (Some LF).
Proof. reflexivity. Qed.

Lemma set_r_answered (c : Conn) (command more rest : bytes) :
  set_r (answered c command more) (mkBufio rest (ioerr (conn_r c)) (Some LF))
  = answered c command rest.
Proof. reflexivity. Qed.

(** X9: when the server accepts CAPABILITIES (101) or LIST EXTENSIONS
    (202), the call returns the lines that follow, up to the line with the
    dot, and leaves the connection behind that line; with any other code
    it returns the [Error] with the server's code and text and reads no
    further line. *)
Theorem Capabilities_lists (c : Conn) (raw text : bytes) (C : Z)
    (xs : list (bytes * bytes)) (eol rest more : bytes) :
  ready c -> statusLine raw C text ->
  Forall listed xs -> lineEnd eol ->
  (C = 101 -> pending (conn_r c) = raw ++ listWire xs ++ [DOT] ++ eol ++ rest ->
   Capabilities c = Ret ((map fst xs, None), answered c (str "CAPABILITIES") rest))
  /\ (C = 202 -> pending (conn_r c) = raw ++ listWire xs ++ [DOT] ++ eol ++ rest ->
      ListExtensions c = Ret ((map fst xs, None), answered c (str "LIST EXTENSIONS") rest))
  /\ (C <> 101 -> pending (conn_r c) = raw ++ more ->
      Capabilities c = Ret (([], Some (Error C text)), answered c (str "CAPABILITIES") more))
  /\ (C <> 202 -> pending (conn_r c) = raw ++ more ->
      ListExtensions c
      = Ret (([], Some (Error C text)), answered c (str "LIST EXTENSIONS") more)).
Proof.
  intros Hr Hs Hxs Heol.
  repeat split.
  - intros -> Hp. unfold Capabilities.
    rewrite (cmd_reply _ _ c raw _ 101 text Hr Hs Hp). cbn [bindRes codeMismatch].
    change (codeMismatch 101 101) with false. cbv iota.
    rewrite answered_r, (readStrings_lines xs eol rest _ _ Hxs Heol).
    cbn [bindRes]. now rewrite set_r_answered.
  - intros -> Hp. unfold ListExtensions.
    rewrite (cmd_reply _ _ c raw _ 202 text Hr Hs Hp). cbn [bindRes].
    change (codeMismatch 202 202) with false. cbv iota.
    rewrite answered_r, (readStrings_lines xs eol rest _ _ Hxs Heol).
    cbn [bindRes]. now rewrite set_r_answered.
  - intros Hc Hp. unfold Capabilities.
    rewrite (cmd_reply _ _ c raw _ C text Hr Hs Hp). cbn [bindRes].
    now rewrite codeMismatch_other by lia.
  - intros Hc Hp. unfold ListExtensions.
    rewrite (cmd_reply _ _ c raw _ C text Hr Hs Hp). cbn [bindRes].
    now rewrite codeMismatch_other by lia.
Qed.

Lemma readStrings_lines_witness :
  readStrings (mkBufio (listWire [(str "VERSION 2", CRLF); (str "..READER", [LF])]
                        ++ [DOT] ++ CRLF ++ str "200 next") IoEOF None)
  = Ret (([str "VERSION 2"; str "..READER"], None),
         mkBufio (str "200 next") IoEOF (Some LF)).
Proof.
  apply (readStrings_lines [(str "VERSION 2", CRLF); (str "..READER", [LF])] CRLF
           (str "200 next") IoEOF None).
  - repeat constructor; vm_compute; intuition discriminate.
  - now left.
Defined.

Lemma readStrings_end_of_input_witness :
  exists r',
    readStrings (mkBufio (listWire [(str "VERSION 2", CRLF)] ++ str "READ") IoEOF None)
    = Ret (([str "VERSION 2"], None), r')
    /\ pending r' = [].
Proof.
  apply (readStrings_end_of_input [(str "VERSION 2", CRLF)] (str "READ") IoEOF None).
  - repeat constructor; vm_compute; intuition discriminate.
  - vm_compute; intuition discriminate.
Defined.

Lemma Capabilities_lists_witness :
  Capabilities (session (str "101 Capability list:" ++ CRLF
                         ++ listWire [(str "VERSION 2", CRLF); (str "READER", CRLF)]
                         ++ [DOT] ++ CRLF ++ []))
  = Ret (([str "VERSION 2"; str "READER"], None),
         answered (session (str "101 Capability list:" ++ CRLF
                            ++ listWire [(str "VERSION 2", CRLF); (str "READER", CRLF)]
                            ++ [DOT] ++ CRLF ++ []))
                  (str "CAPABILITIES") []).
Proof.
  refine (proj1 (Capabilities_lists _ (str "101 Capability list:" ++ CRLF)
                   (str "Capability list:") 101
                   [(str "VERSION 2", CRLF); (str "READER", CRLF)] CRLF [] [] _ _ _ _)
            eq_refl _).
  - repeat split.
  - exists (str "101 Capability list:" ++ [CR]), "1"%char, "0"%char, "1"%char.
    repeat split. vm_compute; intuition discriminate.
  - repeat constructor; vm_compute; intuition discriminate.
  - now left.
  - reflexivity.
Defined.

(** ** Posting ([RawPost]) *)

Lemma wire_stuffed (ls : list bytes) :
  wire (map (fun l => stuffed l ++ [CR]) ls)
  = concat (map (fun l => (if HasPrefix l [DOT] then [DOT] else []) ++ l ++ CRLF) ls).
Proof.
  unfold wire, stuffed, CRLF. rewrite map_map. f_equal.
  apply map_ext. intros l. now rewrite <- !app_assoc.
Qed.

(** X2: when the server accepts POST (any 3xx) and then the article (240),
    [RawPost] writes the POST command, every line of the article with a
    CRLF end and with its leading dot doubled, and the line with the lone
    dot; it returns no error and leaves the connection behind the second
    answer. *)
Theorem RawPost_sends_frame (content : bytes) (c : Conn) (raw1 text1 raw2 text2 more : bytes)
    (C1 : Z) :
  ready c ->
  statusLine raw1 C1 text1 -> C1 / 100 = 3 ->
  statusLine raw2 240 text2 ->
  pending (conn_r c) = raw1 ++ raw2 ++ more ->
  exists c',
    RawPost (newBufio content IoEOF) c = Ret (None, c')
    /\ written (conn_w c')
       = written (conn_w c) ++ str "POST" ++ CRLF
         ++ concat (map (fun l => (if HasPrefix l [DOT] then [DOT] else []) ++ l ++ CRLF)
                        (linesOf content))
         ++ [DOT] ++ CRLF
    /\ pending (conn_r c') = more.
Proof.
  intros Hr Hs1 HC1 Hs2 Hp. unfold RawPost.
  rewrite (cmd_reply 3 (str "POST") c raw1 (raw2 ++ more) C1 text1 Hr Hs1 Hp).
  cbn [bindRes]. rewrite codeMismatch_class by lia. rewrite HC1. cbn [Z.eqb negb].
  change (3 =? 3) with true. cbn [negb].
  unfold postLines, newBufio. cbn [pending answered conn_w set_r set_w].
  rewrite postLoop_lines by lia. cbn [bindRes].
  match goal with
  | |- context [cmd 240 [DOT] ?c1] =>
      rewrite (cmd_reply 240 [DOT] c1 raw2 more 240 text2)
  end.
  - cbn [bindRes]. change (codeMismatch 240 240) with false. cbv iota.
    eexists. split; [reflexivity|]. split; [|reflexivity].
    cbn [answered conn_w set_r set_w written]. unfold sent.
    rewrite wire_stuffed. now rewrite <- !app_assoc.
  - destruct Hr as (Hopen & Hbr & Hw). repeat split; assumption.
  - assumption.
  - reflexivity.
Qed.

Lemma RawPost_sends_frame_witness :
  exists c',
    RawPost (newBufio (str "Subject: x" ++ [LF] ++ [LF] ++ str ".hidden" ++ [LF] ++ str "end")
                      IoEOF)
            (session (str "340 send article" ++ CRLF ++ str "240 article posted" ++ CRLF))
    = Ret (None, c')
    /\ written (conn_w c')
       = [] ++ str "POST" ++ CRLF
         ++ concat (map (fun l => (if HasPrefix l [DOT] then [DOT] else []) ++ l ++ CRLF)
                        [str "Subject: x"; []; str ".hidden"; str "end"])
         ++ [DOT] ++ CRLF
    /\ pending (conn_r c') = [].
Proof.
  apply (RawPost_sends_frame
           (str "Subject: x" ++ [LF] ++ [LF] ++ str ".hidden" ++ [LF] ++ str "end")
           (session (str "340 send article" ++ CRLF ++ str "240 article posted" ++ CRLF))
           (str "340 send article" ++ CRLF) (str "send article")
           (str "240 article posted" ++ CRLF) (str "article posted") [] 340).
  - repeat split.
  - exists (str "340 send article" ++ [CR]), "3"%char, "4"%char, "0"%char.
    repeat split. vm_compute; intuition discriminate.
  - reflexivity.
  - exists (str "240 article posted" ++ [CR]), "2"%char, "4"%char, "0"%char.
    repeat split. vm_compute; intuition discriminate.
  - reflexivity.
Defined.

(** ** Group lists ([parseGroups], [readGroups], [List], [NewGroups]) *)

Lemma SplitN_one (s : bytes) (d : ascii) : SplitN s d 1 = [s].
Proof. now destruct s. Qed.

Lemma SplitN_app_sep (d : ascii) (f s : bytes) (n : nat) :
  ~ In d f -> SplitN (f ++ d :: s) d (S (S n)) = f :: SplitN s d (S n).
Proof.
  induction f as [|a f IH]; intros Hf.
  - cbn [app SplitN]. now rewrite byte_eqb_refl.
  - cbn [app]. change (SplitN (a :: f ++ d :: s) d (S (S n)))
      with (if byte_eqb a d then [] :: SplitN (f ++ d :: s) d (S n)
            else match SplitN (f ++ d :: s) d (S (S n)) with
                 | f0 :: fs => (a :: f0) :: fs
                 | [] => [[a]]
                 end).
    destruct (byte_eqb a d) eqn:E.
    + apply byte_eqb_eq in E. subst. elim Hf. now left.
    + rewrite IH; [reflexivity|]. intros H. apply Hf. now right.
Qed.

Lemma parseGroupsLoop_line (res : list Group) (g : groupInfo) (lines : list bytes) :
  wfInfo g ->
  parseGroupsLoop res (groupLine g :: lines) = parseGroupsLoop (res ++ [groupOf g]) lines.
Proof.
  intros (Hn & Hh & Hl & Ht & Hph & Hpl).
  cbn [parseGroupsLoop]. rewrite Ht. unfold groupLine.
  cbn [app]. rewrite !SplitN_app_sep by assumption. rewrite SplitN_one.
  change (len [gi_name g; gi_high g; gi_low g; gi_status g] <? 4) with false.
  cbv iota. cbn [index nth_error bindRes]. unfold groupOf.
  destruct (ParseInt (gi_high g)) as [h [e|]]; [discriminate|].
  destruct (ParseInt (gi_low g)) as [l [e|]]; [discriminate|].
  reflexivity.
Qed.

Lemma parseGroupsLoop_lines (gs : list groupInfo) :
  Forall wfInfo gs ->
  forall res lines,
    parseGroupsLoop res (map groupLine gs ++ lines)
    = parseGroupsLoop (res ++ map groupOf gs) lines.
Proof.
  induction 1 as [|g gs Hg Hgs IH]; intros res lines.
  - cbn [map app]. now rewrite app_nil_r.
  - cbn [map app]. rewrite parseGroupsLoop_line by assumption.
    rewrite IH, <- app_assoc. reflexivity.
Qed.

(** X10: [parseGroups] turns every line [name high low status] into the
    group with that name, these two numbers and that status (which may
    have spaces); the count of a group is not in the list and stays 0. *)
Theorem parseGroups_lines (gs : list groupInfo) :
  Forall wfInfo gs ->
  parseGroups (map groupLine gs) = Ret (map groupOf gs, None).
Proof.
  intros H. unfold parseGroups.
  rewrite <- (app_nil_r (map groupLine gs)).
  rewrite parseGroupsLoop_lines by assumption. reflexivity.
Qed.

Lemma parseGroups_lines_witness :
  parseGroups (map groupLine [mkInfo (str "misc.test") (str "3002322") (str "3000234") (str "y");
                              mkInfo (str "comp.lang.go") (str "0000000012") (str "1") (str "m")])
  = Ret ([mkGroup (str "misc.test") 0 3002322 3000234 (str "y");
          mkGroup (str "comp.lang.go") 0 12 1 (str "m")], None).
Proof.
  apply (parseGroups_lines
           [mkInfo (str "misc.test") (str "3002322") (str "3000234") (str "y");
            mkInfo (str "comp.lang.go") (str "0000000012") (str "1") (str "m")]).
  repeat constructor; vm_compute; intuition discriminate.
Defined.

(** X11: one bad line spoils the list: after any number of good lines, a
    line with fewer than four fields, or with a high or low number that is
    not an integer, makes [parseGroups] return no group at all and the
    protocol error that names this line. *)
Theorem parseGroups_rejects (gs : list groupInfo) (bad : bytes) (more : list bytes) :
  Forall wfInfo gs ->
  (shortInfo bad ->
   parseGroups (map groupLine gs ++ bad :: more)
   = Ret ([], Some (ProtocolError (str "short group info line: " ++ bad))))
  /\ (badNumberInfo bad ->
      parseGroups (map groupLine gs ++ bad :: more)
      = Ret ([], Some (ProtocolError (str "bad number in line: " ++ bad)))).
Proof.
  intros Hgs. unfold parseGroups. rewrite parseGroupsLoop_lines by assumption. split.
  - intros Hs. cbn [parseGroupsLoop].
    replace (len (SplitN (TrimSpace bad) SP 4) <? 4) with true; [reflexivity|].
    symmetry. apply Z.ltb_lt. unfold shortInfo in Hs. unfold len. lia.
  - intros (s0 & s1 & s2 & s3 & Hss & Hbad). cbn [parseGroupsLoop]. rewrite Hss.
    change (len [s0; s1; s2; s3] <? 4) with false. cbv iota.
    cbn [index nth_error bindRes].
    destruct (ParseInt s1) as [h [e|]]; [reflexivity|].
    destruct (ParseInt s2) as [l [e|]]; [reflexivity|].
    destruct Hbad as [H|H]; now elim H.
Qed.

Lemma parseGroups_rejects_witness :
  parseGroups (map groupLine [mkInfo (str "misc.test") (str "3002322") (str "3000234") (str "y")]
               ++ str "comp.lang.go 12 1" :: [str "alt.test 5 1 y"])
  = Ret ([], Some (ProtocolError (str "short group info line: " ++ str "comp.lang.go 12 1"))).
Proof.
  apply (proj1 (parseGroups_rejects
                  [mkInfo (str "misc.test") (str "3002322") (str "3000234") (str "y")]
                  (str "comp.lang.go 12 1") [str "alt.test 5 1 y"]
                  ltac:(repeat constructor; vm_compute; intuition discriminate))).
  vm_compute. lia.
Defined.

Section GroupLists.
Context `{Ext : External}.

Lemma readGroups_plain (line : bytes) (c : Conn) (xs : list (bytes * bytes))
    (gs : list groupInfo) (eol rest : bytes) :
  Contains line gzipMarker = false ->
  Forall listed xs -> lineEnd eol ->
  map fst xs = map groupLine gs -> Forall wfInfo gs ->
  pending (conn_r c) = listWire xs ++ [DOT] ++ eol ++ rest ->
  readGroups line c
  = Ret ((map groupOf gs, None), set_r c (mkBufio rest (ioerr (conn_r c)) (Some LF))).
Proof.
  intros Hz Hxs Heol Hmap Hgs Hp. unfold readGroups. rewrite Hz.
  destruct (conn_r c) as [p e lb] eqn:Hr. cbn [pending ioerr] in *. subst p.
  rewrite (readStrings_lines xs eol rest e lb Hxs Heol). cbn [bindRes].
  rewrite Hmap, (parseGroups_lines gs Hgs). reflexivity.
Qed.

Lemma parseGroupsLoop_error (lines : list bytes) :
  forall res gs e,
    parseGroupsLoop res lines = Ret (gs, Some e) -> IsProtocol (Some e) = true.
Proof.
  induction lines as [|line lines IH]; intros res gs e; cbn [parseGroupsLoop].
  - discriminate.
  - destruct (len _ <? 4); [intros H; inversion H; reflexivity|].
    destruct (index _ 1) as [s1| |]; cbn [bindRes]; try discriminate.
    destruct (ParseInt s1) as [h [e1|]]; [intros H; inversion H; reflexivity|].
    destruct (index _ 2) as [s2| |]; cbn [bindRes]; try discriminate.
    destruct (ParseInt s2) as [l [e2|]]; [intros H; inversion H; reflexivity|].
    destruct (index _ 0) as [s0| |]; cbn [bindRes]; try discriminate.
    destruct (index _ 3) as [s3| |]; cbn [bindRes]; try discriminate.
    apply IH.
Qed.

(** X13: with a compressed response ([COMPRESS=GZIP] in the status text)
    [readGroups] returns no error of the decoder or of the connection:
    the [err] it tests after the branch is not the one assigned in it.
    Once the decoder is open, the result is that of [parseGroups] on the
    lines read before the stream ended or broke, so that the only errors
    are protocol errors. *)
Theorem readGroups_compressed_errors (line : bytes) (c : Conn) :
  Contains line gzipMarker = true ->
  (forall zr lines err zr',
      newZlibDotResponse (conn_r c) = (None, zr) ->
      readStrings zr = Ret ((lines, err), zr') ->
      readGroups line c
      = let* res := parseGroups lines in
        Ret (res, set_r c (snd (zdrClose zr' (conn_r c)))))
  /\ (forall gs e c',
         readGroups line c = Ret ((gs, Some e), c') -> IsProtocol (Some e) = true).
Proof.
  intros Hz. unfold readGroups. rewrite Hz. split.
  - intros zr lines err zr' Hn Hrs. rewrite Hn, Hrs. cbn [bindRes].
    destruct (zdrClose zr' (conn_r c)) as [ce r']. reflexivity.
  - intros gs e c'.
    destruct (newZlibDotResponse (conn_r c)) as [[ze|] zr].
    + destruct (zdrClose zr (conn_r c)) as [ce r']. cbn [bindRes].
      intros H; inversion H.
    + destruct (readStrings zr) as [[[lines err] zr']| |]; cbn [bindRes];
        try discriminate.
      destruct (zdrClose zr' (conn_r c)) as [ce r']. cbn [bindRes].
      unfold parseGroups.
      destruct (parseGroupsLoop [] lines) as [[gs' [e'|]]| |] eqn:Hpg;
        cbn [bindRes]; try discriminate.
      intros H; inversion H; subst.
      now apply parseGroupsLoop_error in Hpg.
Qed.

Context `{F : Fmt}.

(** X12: [List] sends LIST with its arguments and [NewGroups] sends
    NEWGROUPS with the time; when the server accepts (215 or 231, no
    compression) and lists groups, the call returns them and leaves the
    connection behind the line with the dot.  [List] with more than two
    arguments is an error before anything is sent. *)
Theorem ListCmd_groups (c : Conn) (a : list bytes) (since raw text : bytes) (C : Z)
    (xs : list (bytes * bytes)) (gs : list groupInfo) (eol rest : bytes) :
  ((2 < length a)%nat ->
   ListCmd a c
   = Ret (([], Some (ProtocolError (str "List only takes up to 2 arguments"))), c))
  /\ (ready c -> statusLine raw C text -> Contains text gzipMarker = false ->
      Forall listed xs -> lineEnd eol ->
      map fst xs = map groupLine gs -> Forall wfInfo gs ->
      pending (conn_r c) = raw ++ listWire xs ++ [DOT] ++ eol ++ rest ->
      ((length a <= 2)%nat -> ~ In PERCENT (Join (str "LIST" :: a) SP) -> C = 215 ->
       ListCmd a c
       = Ret ((map groupOf gs, None), answered c (Join (str "LIST" :: a) SP) rest))
      /\ (C = 231 ->
          NewGroups since c
          = Ret ((map groupOf gs, None),
                 answered c (str "NEWGROUPS " ++ since ++ str " GMT") rest))).
Proof.
  split.
  - intros Ha. unfold ListCmd.
    replace (2 <? len a) with true; [reflexivity|].
    symmetry. apply Z.ltb_lt. unfold len. lia.
  - intros Hr Hs Hz Hxs Heol Hmap Hgs Hp. split.
    + intros Ha Hpc ->. unfold ListCmd.
      replace (2 <? len a) with false by (symmetry; apply Z.ltb_ge; unfold len; lia).
      assert (Hcmd :
        (if 0 <? len a then
           let* a0 := index a 0 in
           if 1 <? len a then
             let* a1 := index a 1 in
             Ret (str "LIST" ++ [SP] ++ a0 ++ [SP] ++ a1)
           else Ret (str "LIST" ++ [SP] ++ a0)
         else Ret (str "LIST")) = Ret (Join (str "LIST" :: a) SP)).
      { destruct a as [|a0 [|a1 [|a2 a]]]; try reflexivity. simpl in Ha. lia. }
      rewrite Hcmd. cbn [bindRes]. rewrite Sprintf0_plain by assumption.
      rewrite (cmd_reply _ _ c raw _ 215 text Hr Hs Hp). cbn [bindRes].
      change (codeMismatch 215 215) with false. cbv iota.
      rewrite (readGroups_plain text _ xs gs eol rest Hz Hxs Heol Hmap Hgs);
        reflexivity.
    + intros ->. unfold NewGroups.
      rewrite (cmd_reply _ _ c raw _ 231 text Hr Hs Hp). cbn [bindRes].
      change (codeMismatch 231 231) with false. cbv iota.
      rewrite (readGroups_plain text _ xs gs eol rest Hz Hxs Heol Hmap Hgs);
        reflexivity.
Qed.

End GroupLists.

Lemma readGroups_compressed_errors_witness :
  @readGroups storedExternal (str "list follows [COMPRESS=GZIP]") brokenListSession
  = Ret (([], None),
         set_r brokenListSession
               (mkBufio [] (IoFailure (str "connection reset by peer")) (Some (ascii_of_nat 97)))).
Proof.
  refine (proj1 (@readGroups_compressed_errors storedExternal
                   (str "list follows [COMPRESS=GZIP]") brokenListSession _)
            (conn_r brokenListSession) []
            (Some (TransportError (str "connection reset by peer")))
            (mkBufio [] (IoFailure (str "connection reset by peer")) (Some (ascii_of_nat 97)))
            _ _).
  - reflexivity.
  - reflexivity.
  - reflexivity.
Defined.

Lemma ListCmd_groups_witness :
  @ListCmd storedExternal plainFmt [str "ACTIVE"; str "misc.*"]
    (session (str "215 list follows" ++ CRLF
              ++ listWire [(str "misc.test 3002322 3000234 y", CRLF)]
              ++ [DOT] ++ CRLF ++ []))
  = Ret (([mkGroup (str "misc.test") 0 3002322 3000234 (str "y")], None),
         answered (session (str "215 list follows" ++ CRLF
                            ++ listWire [(str "misc.test 3002322 3000234 y", CRLF)]
                            ++ [DOT] ++ CRLF ++ []))
                  (str "LIST ACTIVE misc.*") []).
Proof.
  refine (proj1 (proj2 (@ListCmd_groups storedExternal plainFmt _
                          [str "ACTIVE"; str "misc.*"] [] (str "215 list follows" ++ CRLF)
                          (str "list follows") 215
                          [(str "misc.test 3002322 3000234 y", CRLF)]
                          [mkInfo (str "misc.test") (str "3002322") (str "3000234") (str "y")]
                          CRLF [])
                   _ _ _ _ _ _ _ _) _ _ eq_refl).
  - repeat split.
  - exists (str "215 list follows" ++ [CR]), "2"%char, "1"%char, "5"%char.
    repeat split. vm_compute; intuition discriminate.
  - reflexivity.
  - repeat constructor; vm_compute; intuition discriminate.
  - now left.
  - reflexivity.
  - repeat constructor; vm_compute; intuition discriminate.
  - reflexivity.
  - simpl. lia.
  - vm_compute. intuition discriminate.
Defined.

(** ** New articles ([NewNews]) *)

Lemma bytes_ltb_irrefl (s : bytes) : bytes_ltb s s = false.
Proof.
  induction s as [|a s IH]; [reflexivity|].
  cbn [bytes_ltb]. rewrite IH, Nat.ltb_irrefl, andb_false_r. reflexivity.
Qed.

Lemma bytes_ltb_cons (a b : ascii) (s t : bytes) :
  bytes_ltb (a :: s) (b :: t) = true <->
  (nat_of_ascii a < nat_of_ascii b)%nat \/ (a = b /\ bytes_ltb s t = true).
Proof.
  cbn [bytes_ltb]. rewrite orb_true_iff, andb_true_iff, Nat.ltb_lt, Nat.eqb_eq.
  split; (intros [H|[H1 H2]]; [now left|right; split; [|assumption]]).
  - rewrite <- (ascii_nat_embedding a), <- (ascii_nat_embedding b). now rewrite H1.
  - now subst.
Qed.

Lemma bytes_ltb_trans (a b c : bytes) :
  bytes_lt a b -> bytes_lt b c -> bytes_lt a c.
Proof.
  unfold bytes_lt. revert b c.
  induction a as [|x a IH]; intros [|y b] [|z c]; try discriminate; try reflexivity.
  rewrite !bytes_ltb_cons.
  intros [H1|[-> H1]] [H2|[-> H2]].
  - left. lia.
  - now left.
  - now left.
  - right. split; [reflexivity|]. now apply (IH b c).
Qed.

Lemma bytes_ltb_total (a b : bytes) :
  bytes_ltb a b = false -> bytes_ltb b a = false -> a = b.
Proof.
  revert b. induction a as [|x a IH]; intros [|y b]; try discriminate; [reflexivity|].
  intros H1 H2.
  destruct (Nat.lt_trichotomy (nat_of_ascii x) (nat_of_ascii y)) as [H|[H|H]].
  - assert (bytes_ltb (x :: a) (y :: b) = true) by (apply bytes_ltb_cons; now left).
    congruence.
  - assert (x = y).
    { rewrite <- (ascii_nat_embedding x), <- (ascii_nat_embedding y). now rewrite H. }
    subst y. f_equal. apply IH.
    + destruct (bytes_ltb a b) eqn:E; [|reflexivity].
      assert (bytes_ltb (x :: a) (x :: b) = true) by (apply bytes_ltb_cons; now right).
      congruence.
    + destruct (bytes_ltb b a) eqn:E; [|reflexivity].
      assert (bytes_ltb (x :: b) (x :: a) = true) by (apply bytes_ltb_cons; now right).
      congruence.
  - assert (bytes_ltb (y :: b) (x :: a) = true) by (apply bytes_ltb_cons; now left).
    congruence.
Qed.

Lemma bytes_lt_le (a b : bytes) : bytes_lt a b -> bytes_le a b.
Proof.
  unfold bytes_lt, bytes_le. intros H.
  destruct (bytes_ltb b a) eqn:E; [|reflexivity].
  pose proof (bytes_ltb_trans a b a H E) as H'. unfold bytes_lt in H'.
  now rewrite bytes_ltb_irrefl in H'.
Qed.

Lemma bytes_le_trans (a b c : bytes) : bytes_le a b -> bytes_le b c -> bytes_le a c.
Proof.
  unfold bytes_le. intros H1 H2.
  destruct (bytes_ltb c a) eqn:E; [|reflexivity].
  destruct (bytes_ltb a b) eqn:Eab.
  - pose proof (bytes_ltb_trans c a b E Eab) as H. unfold bytes_lt in H. congruence.
  - assert (a = b) by now apply bytes_ltb_total. subst. congruence.
Qed.

Lemma insertString_In (s x : bytes) (l : list bytes) :
  In x (insertString s l) <-> x = s \/ In x l.
Proof.
  induction l as [|t l IH]; cbn [insertString].
  - simpl. intuition.
  - destruct (bytes_ltb t s); simpl; rewrite ?IH; simpl; intuition.
Qed.

Lemma sortStrings_In (x : bytes) (l : list bytes) : In x (sortStrings l) <-> In x l.
Proof.
  induction l as [|s l IH]; [reflexivity|].
  cbn [sortStrings]. rewrite insertString_In, IH. simpl. intuition.
Qed.

Lemma insertString_sorted (s : bytes) (l : list bytes) :
  StronglySorted bytes_le l -> StronglySorted bytes_le (insertString s l).
Proof.
  induction 1 as [|t l Hl IH Ht]; cbn [insertString].
  - constructor; [constructor|constructor].
  - destruct (bytes_ltb t s) eqn:E.
    + constructor; [assumption|].
      apply List.Forall_forall. intros x Hx. apply insertString_In in Hx as [->|Hx].
      * now apply bytes_lt_le.
      * rewrite List.Forall_forall in Ht. now apply Ht.
    + constructor; [now constructor|].
      constructor; [exact E|].
      apply List.Forall_forall. intros x Hx. rewrite List.Forall_forall in Ht.
      apply (bytes_le_trans s t x); [exact E|now apply Ht].
Qed.

Lemma sortStrings_sorted (l : list bytes) : StronglySorted bytes_le (sortStrings l).
Proof.
  induction l as [|s l IH]; [constructor|].
  cbn [sortStrings]. now apply insertString_sorted.
Qed.

Lemma uniqFrom_In (x p : bytes) (l : list bytes) :
  (In x (uniqFrom p l) -> In x l) /\ (In x l -> In x (uniqFrom p l) \/ x = p).
Proof.
  revert p. induction l as [|s l IH]; intros p; cbn [uniqFrom].
  - simpl. intuition.
  - destruct (IH s) as [IH1 IH2].
    destruct (bytes_eqb p s) eqn:E.
    + apply bytes_eqb_eq in E. subst s. split.
      * intros H. right. now apply IH1.
      * intros [<-|H]; [now right|]. destruct (IH2 H); [now left|now right].
    + split.
      * intros [<-|H]; [now left|right; now apply IH1].
      * intros [<-|H]; [left; now left|].
        destruct (IH2 H) as [H'|H']; [left; now right|left; left; now symmetry].
Qed.

Lemma uniqFrom_sorted (l : list bytes) :
  forall p,
    StronglySorted bytes_le (p :: l) ->
    Forall (bytes_lt p) (uniqFrom p l) /\ StronglySorted bytes_lt (uniqFrom p l).
Proof.
  induction l as [|s l IH]; intros p Hs; cbn [uniqFrom].
  - split; constructor.
  - inversion Hs as [|? ? Hsl Hp]; subst.
    inversion Hp as [|? ? Hps Hpl]; subst.
    destruct (IH s Hsl) as [IH1 IH2].
    destruct (bytes_eqb p s) eqn:E.
    + apply bytes_eqb_eq in E. subst s. now split.
    + assert (Hlt : bytes_lt p s).
      { unfold bytes_lt. destruct (bytes_ltb p s) eqn:E'; [reflexivity|].
        apply bytes_eqb_neq in E. elim E. now apply bytes_ltb_total. }
      split.
      * constructor; [assumption|].
        eapply Forall_impl; [exact IH1|]. intros x Hx.
        now apply (bytes_ltb_trans p s x).
      * now constructor.
Qed.

Lemma uniqLoop_S (t r w : nat) (id : list bytes) :
  uniqLoop (S t) r w id
  = let* s := index id r in
    let* keep :=
      if (r =? 0)%nat then Ret true
      else
        let* p := index id (r - 1) in
        Ret (negb (bytes_eqb p s)) in
    if keep then
      let* _ := index id w in
      uniqLoop t (S r) (S w) (<[ w := s ]> id)
    else uniqLoop t (S r) w id.
Proof. reflexivity. Qed.

Lemma index_app_r {A} (pre suf : list A) (s : A) :
  index (pre ++ s :: suf) (length pre) = Ret s.
Proof.
  unfold index. rewrite nth_error_app2 by lia. now rewrite Nat.sub_diag.
Qed.

Lemma index_last {A} (pre suf : list A) (p : A) :
  last pre = Some p -> index (pre ++ suf) (length pre - 1) = Ret p.
Proof.
  intros H. destruct (last_Some pre p) as [[l' ->] _]; [assumption|].
  rewrite length_app. cbn [length]. replace (length l' + 1 - 1)%nat with (length l') by lia.
  rewrite <- app_assoc. cbn [app]. apply index_app_r.
Qed.

Lemma uniqLoop_run (suf : list bytes) :
  forall (pre : list bytes) (p : bytes) (w : nat),
    last pre = Some p -> (w <= length pre)%nat ->
    exists id',
      uniqLoop (length suf) (length pre) w (pre ++ suf)
      = Ret (id', (w + length (uniqFrom p suf))%nat)
      /\ firstn (w + length (uniqFrom p suf)) id' = firstn w pre ++ uniqFrom p suf.
Proof.
  induction suf as [|s suf IH]; intros pre p w Hlast Hw.
  - cbn [length uniqLoop uniqFrom]. rewrite Nat.add_0_r, !app_nil_r.
    eexists. split; reflexivity.
  - assert (Hpre : (0 < length pre)%nat).
    { destruct pre; [discriminate|simpl; lia]. }
    cbn [length]. rewrite uniqLoop_S, index_app_r. cbn [bindRes].
    replace (length pre =? 0)%nat with false by (symmetry; apply Nat.eqb_neq; lia).
    rewrite (index_last pre (s :: suf) p Hlast). cbn [bindRes uniqFrom].
    destruct (bytes_eqb p s) eqn:E; cbn [negb].
    + apply bytes_eqb_eq in E. subst s.
      destruct (IH (pre ++ [p]) p w) as (id' & Hrun & Htake).
      { apply last_snoc. }
      { rewrite length_app. simpl. lia. }
      rewrite length_app in Hrun. cbn [length] in Hrun.
      rewrite Nat.add_1_r, <- app_assoc in Hrun. cbn [app] in Hrun.
      exists id'. split; [exact Hrun|].
      rewrite Htake. f_equal. rewrite firstn_app.
      replace (w - length pre)%nat with 0%nat by lia.
      cbn [firstn]. now rewrite app_nil_r.
    + assert (Hiw : exists x, index (pre ++ s :: suf) w = Ret x).
      { unfold index. destruct (nth_error (pre ++ s :: suf) w) eqn:En; [eauto|].
        apply nth_error_None in En. rewrite length_app in En. simpl in En. lia. }
      destruct Hiw as [x ->]. cbn [bindRes].
      assert (Hins : <[ w := s ]> (pre ++ s :: suf) = <[ w := s ]> (pre ++ [s]) ++ suf).
      { replace (pre ++ s :: suf) with ((pre ++ [s]) ++ suf)
          by (now rewrite <- app_assoc).
        apply insert_app_l. rewrite length_app. simpl. lia. }
      rewrite Hins.
      destruct (IH (<[ w := s ]> (pre ++ [s])) s (S w)) as (id' & Hrun & Htake).
      { destruct (decide (w = length pre)) as [->|Hne].
        - rewrite insert_app_r_alt by lia. rewrite Nat.sub_diag. cbn [insert].
          simpl. apply last_snoc.
        - rewrite insert_app_l by lia. apply last_snoc. }
      { rewrite length_insert, length_app. simpl. lia. }
      rewrite length_insert, length_app in Hrun. cbn [length] in Hrun.
      rewrite Nat.add_1_r in Hrun.
      exists id'. cbn [length]. rewrite Nat.add_succ_r. cbn [Nat.add] in Hrun, Htake.
      split; [exact Hrun|].
      rewrite Htake.
      replace (firstn (S w) (<[ w := s ]> (pre ++ [s]))) with (firstn w pre ++ [s]).
      { now rewrite <- app_assoc. }
      symmetry. erewrite take_S_r.
      2:{ apply list_lookup_insert_eq. rewrite length_app. simpl. lia. }
      f_equal. rewrite take_insert_ge by lia. rewrite firstn_app.
      replace (w - length pre)%nat with 0%nat by lia. cbn [firstn].
      now rewrite app_nil_r.
Qed.

Lemma uniqLoop_sorted (l : list bytes) :
  StronglySorted bytes_le l ->
  exists id' w,
    uniqLoop (length l) 0 0 l = Ret (id', w)
    /\ StronglySorted bytes_lt (firstn w id')
    /\ forall x, In x (firstn w id') <-> In x l.
Proof.
  intros Hs. destruct l as [|s l].
  - exists [], 0%nat. repeat split; try constructor; auto.
  - cbn [length]. rewrite uniqLoop_S. cbn [index nth_error bindRes Nat.eqb].
    change (<[ 0%nat := s ]> (s :: l)) with ([s] ++ l).
    destruct (uniqLoop_run l [s] s 1 eq_refl (le_n 1)) as (id' & Hrun & Htake).
    cbn [length] in Hrun. rewrite Hrun.
    exists id', (1 + length (uniqFrom s l))%nat. split; [reflexivity|].
    rewrite Htake. cbn [firstn app].
    destruct (uniqFrom_sorted l s Hs) as [H1 H2]. split; [now constructor|].
    intros x. pose proof (uniqFrom_In x s l) as [H3 H4]. simpl. split.
    + intros [<-|H]; [now left|right; now apply H3].
    + intros [<-|H]; [now left|]. destruct (H4 H); [now right|left; now symmetry].
Qed.

(** X14: the message-ids [NewNews] returns are those the server listed, in
    increasing order and each one once. *)
Theorem NewNews_sorted_unique (group since : bytes) (c c1 : Conn) (code : Z)
    (line : bytes) (ids : list bytes) (r' : Bufio) :
  cmd 230 (str "NEWNEWS " ++ group ++ [SP] ++ since ++ str " GMT") c
  = Ret ((code, line, None), c1) ->
  readStrings (conn_r c1) = Ret ((ids, None), r') ->
  exists res,
    NewNews group since c = Ret ((res, None), set_r c1 r')
    /\ StronglySorted bytes_lt res
    /\ forall x, In x res <-> In x ids.
Proof.
  intros Hcmd Hrs. unfold NewNews. rewrite Hcmd. cbn [bindRes]. rewrite Hrs.
  cbn [bindRes].
  destruct (uniqLoop_sorted (sortStrings ids) (sortStrings_sorted ids))
    as (id' & w & Hrun & Hsorted & Hin).
  rewrite Hrun. cbn [bindRes]. exists (firstn w id').
  split; [reflexivity|]. split; [assumption|].
  intros x. rewrite Hin. apply sortStrings_In.
Qed.

Lemma NewNews_sorted_unique_witness :
  exists res,
    NewNews (str "misc.test") (str "20240101 000000") newNewsSession
    = Ret ((res, None),
           set_r (answered newNewsSession (str "NEWNEWS misc.test 20240101 000000 GMT") [])
                 (mkBufio [] IoEOF (Some LF)))
    /\ StronglySorted bytes_lt res
    /\ forall x, In x res <-> In x [str "<b@x>"; str "<a@x>"; str "<b@x>"; str "<a@y>"].
Proof.
  refine (NewNews_sorted_unique (str "misc.test") (str "20240101 000000") newNewsSession
            (set_r (answered newNewsSession (str "NEWNEWS misc.test 20240101 000000 GMT") [])
                   (mkBufio (str "<b@x>" ++ CRLF ++ str "<a@x>" ++ CRLF ++ str "<b@x>" ++ CRLF
                             ++ str "<a@y>" ++ CRLF ++ [DOT] ++ CRLF) IoEOF (Some LF)))
            230 (str "list follows") _ (mkBufio [] IoEOF (Some LF)) _ _).
  - vm_compute. reflexivity.
  - vm_compute. reflexivity.
Defined.

(** On that session the result is [<a@x>], [<a@y>], [<b@x>]. *)
Lemma NewNews_example :
  NewNews (str "misc.test") (str "20240101 000000") newNewsSession
  = Ret (([str "<a@x>"; str "<a@y>"; str "<b@x>"], None),
         answered newNewsSession (str "NEWNEWS misc.test 20240101 000000 GMT") []).
Proof. vm_compute. reflexivity. Qed.

(** ** Authentication *)

Lemma answered_ready (c : Conn) (command more : bytes) :
  ready c -> ready (answered c command more).
Proof. intros (H1 & H2 & H3). repeat split; assumption. Qed.

(** X15: [Authenticate] sends the password only when the server answers
    the user name with a code 3xx, and then its result is that of the
    password command: success for an answer 2xx, the [Error] of the answer
    otherwise.  With a code 2xx for the user name it succeeds at once, and
    with any other code it returns the [Error] of that answer; in both
    cases only the user name has been written. *)
Theorem Authenticate_password (user pass : bytes) (c : Conn) (raw more text : bytes)
    (C : Z) :
  ready c -> statusLine raw C text ->
  pending (conn_r c) = raw ++ more ->
  let c1 := answered c (str "AUTHINFO USER " ++ user) more in
  (C / 100 = 2 -> Authenticate user pass c = Ret (None, c1))
  /\ (C / 100 <> 2 -> C / 100 <> 3 ->
      Authenticate user pass c = Ret (Some (Error C text), c1))
  /\ (C / 100 = 3 ->
      forall raw2 text2 C2 more2,
        statusLine raw2 C2 text2 -> more = raw2 ++ more2 ->
        Authenticate user pass c
        = Ret ((if C2 / 100 =? 2 then None else Some (Error C2 text2)),
               answered c1 (str "AUTHINFO PASS " ++ pass) more2)).
Proof.
  intros Hr Hs Hp c1. unfold Authenticate.
  rewrite (cmd_reply _ _ c raw more C text Hr Hs Hp). cbn [bindRes].
  rewrite codeMismatch_class by lia. fold c1. repeat split.
  - intros H2. rewrite H2. reflexivity.
  - intros H2 H3.
    replace (C / 100 =? 3) with false by (symmetry; now apply Z.eqb_neq).
    replace (C / 100 =? 2) with false by (symmetry; now apply Z.eqb_neq).
    reflexivity.
  - intros H3 raw2 text2 C2 more2 Hs2 ->. rewrite H3. change (3 =? 3) with true.
    cbv iota.
    rewrite (cmd_reply 2 _ c1 raw2 more2 C2 text2 (answered_ready _ _ _ Hr) Hs2 eq_refl).
    cbn [bindRes]. rewrite codeMismatch_class by lia.
    now destruct (C2 / 100 =? 2).
Qed.

Lemma Authenticate_password_witness :
  Authenticate (str "alice") (str "secret")
    (session (str "381 password required" ++ CRLF ++ str "281 welcome" ++ CRLF))
  = Ret (None,
         answered (answered (session (str "381 password required" ++ CRLF
                                      ++ str "281 welcome" ++ CRLF))
                            (str "AUTHINFO USER alice") (str "281 welcome" ++ CRLF))
                  (str "AUTHINFO PASS secret") [])
  /\ Authenticate (str "alice") (str "secret") (session (str "281 welcome" ++ CRLF))
     = Ret (None, answered (session (str "281 welcome" ++ CRLF))
                           (str "AUTHINFO USER alice") []).
Proof.
  split.
  - refine (proj2 (proj2 (Authenticate_password (str "alice") (str "secret")
                (session (str "381 password required" ++ CRLF ++ str "281 welcome" ++ CRLF))
                (str "381 password required" ++ CRLF) (str "281 welcome" ++ CRLF)
                (str "password required") 381 _ _ _)) eq_refl
              (str "281 welcome" ++ CRLF) (str "welcome") 281 [] _ eq_refl).
    + repeat split.
    + exists (str "381 password required" ++ [CR]), "3"%char, "8"%char, "1"%char.
      repeat split. vm_compute; intuition discriminate.
    + reflexivity.
    + exists (str "281 welcome" ++ [CR]), "2"%char, "8"%char, "1"%char.
      repeat split. vm_compute; intuition discriminate.
  - refine (proj1 (Authenticate_password (str "alice") (str "secret")
                (session (str "281 welcome" ++ CRLF))
                (str "281 welcome" ++ CRLF) [] (str "welcome") 281 _ _ _) _).
    + repeat split.
    + exists (str "281 welcome" ++ [CR]), "2"%char, "8"%char, "1"%char.
      repeat split. vm_compute; intuition discriminate.
    + reflexivity.
    + reflexivity.
Defined.

(** ** Articles by number or message-id *)

Lemma SplitN_nosep (d : ascii) (f : bytes) (n : nat) :
  ~ In d f -> SplitN f d (S n) = [f].
Proof.
  destruct n as [|n]; [intros _; apply SplitN_one|].
  induction f as [|a f IH]; intros Hf; [reflexivity|].
  change (SplitN (a :: f) d (S (S n)))
    with (if byte_eqb a d then [] :: SplitN f d (S n)
          else match SplitN f d (S (S n)) with
               | f0 :: fs => (a :: f0) :: fs
               | [] => [[a]]
               end).
  destruct (byte_eqb a d) eqn:E.
  - apply byte_eqb_eq in E. subst. elim Hf. now left.
  - rewrite IH; [reflexivity|]. intros H. apply Hf. now right.
Qed.

Section ArticleCommands.
Context `{F : Fmt}.

(** X16: [nextLastStat] sends the command, with the identifier after a
    space when there is one, and returns the first two fields of the
    answer's text, the article number and the message-id; a text with one
    field only is a protocol error, and a code other than 223 the [Error]
    of that answer. *)
Theorem nextLastStat_reply (cmd0 id : bytes) (c : Conn) (raw more text : bytes) (C : Z) :
  ready c -> statusLine raw C text ->
  pending (conn_r c) = raw ++ more ->
  ~ In PERCENT (maybeId cmd0 id) ->
  let c1 := answered c (maybeId cmd0 id) more in
  (C <> 223 -> nextLastStat cmd0 id c = Ret (([], [], Some (Error C text)), c1))
  /\ (C = 223 ->
      forall n m,
        ~ In SP n -> ~ In SP m ->
        (text = n ++ [SP] ++ m \/ exists comment, text = n ++ [SP] ++ m ++ [SP] ++ comment) ->
        nextLastStat cmd0 id c = Ret ((n, m, None), c1))
  /\ (C = 223 -> ~ In SP text ->
      nextLastStat cmd0 id c
      = Ret (([], [],
              Some (ProtocolError (str "Bad response to " ++ cmd0 ++ str ": " ++ text))),
             c1)).
Proof.
  intros Hr Hs Hp Hpc c1. unfold nextLastStat.
  rewrite Sprintf0_plain by assumption.
  rewrite (cmd_reply _ _ c raw more C text Hr Hs Hp). cbn [bindRes]. fold c1.
  repeat split.
  - intros HC. now rewrite codeMismatch_other by lia.
  - intros -> n m Hn Hm Ht. change (codeMismatch 223 223) with false. cbv iota.
    assert (Hss : exists tl, SplitN text SP 3 = n :: m :: tl).
    { destruct Ht as [->|[comment ->]]; cbn [app].
      - rewrite SplitN_app_sep by assumption. rewrite SplitN_nosep by assumption.
        now exists [].
      - rewrite !SplitN_app_sep by assumption. rewrite SplitN_one. eauto. }
    destruct Hss as [tl ->].
    replace (len (n :: m :: tl) <? 2) with false; [reflexivity|].
    symmetry. apply Z.ltb_ge. unfold len. cbn [length]. lia.
  - intros -> Ht. change (codeMismatch 223 223) with false. cbv iota.
    rewrite SplitN_nosep by assumption. reflexivity.
Qed.

Lemma textCmd_serves (E : Z) (command : bytes) :
  100 <= E < 1000 -> ~ In PERCENT command ->
  servesText (textCmd E command) E command.
Proof.
  intros HE Hpc c raw text C Hr Hs. split.
  - intros -> xs t rest sizes Hxs Ht Hsz Hp c1. unfold textCmd.
    rewrite Sprintf0_plain by assumption.
    rewrite (cmd_reply _ _ c raw _ E text Hr Hs Hp). cbn [bindRes].
    rewrite codeMismatch_exact, Z.eqb_refl by assumption. cbn [negb body bindRes].
    fold c1. split; [reflexivity|]. split.
    + apply ReadAll_body; assumption.
    + intros E' command'. destruct Hr as (Hopen & Hbr & Hw).
      assert (Hd : drain (answered c command rest) = Ret (None, answered c command rest)).
      { unfold drain. cbn [answered set_r set_w conn_br]. now rewrite Hbr. }
      assert (Heq : set_br (set_r c1 (mkBufio rest (ioerr (conn_r c1)) (Some LF))) None
                    = answered c command rest).
      { unfold c1, answered, set_br, set_r, set_w. cbn. now rewrite Hbr. }
      unfold cmd at 1 2.
      change (conn_close c1) with (conn_close c).
      change (conn_close (answered c command rest)) with (conn_close c).
      rewrite Hopen.
      rewrite (drain_body c1 [] xs t rest eq_refl Hxs Ht eq_refl), Heq, Hd.
      reflexivity.
  - intros HC more Hp. unfold textCmd.
    rewrite Sprintf0_plain by assumption.
    rewrite (cmd_reply _ _ c raw _ C text Hr Hs Hp). cbn [bindRes].
    now rewrite codeMismatch_other by assumption.
Qed.

Lemma maybeId_plain (cmd0 id : bytes) :
  ~ In PERCENT cmd0 -> ~ In PERCENT id -> ~ In PERCENT (maybeId cmd0 id).
Proof.
  intros H1 H2. unfold maybeId. destruct (0 <? len id); [|assumption].
  rewrite !in_app_iff. intros [H|[[H|[]]|H]]; [auto|discriminate|auto].
Qed.

(** X17: the commands that return the text of an article (ARTICLE, HEAD,
    BODY) or the help text install the body stream behind the status
    line of a successful answer, and no stream after any other answer, so
    that the reader returns the lines up to the terminator and the next
    command finds its own answer whether the text was read or not. *)
Theorem text_commands_serve (id : bytes) :
  ~ In PERCENT id ->
  servesText (ArticleText id) 220 (maybeId (str "ARTICLE") id)
  /\ servesText (HeadText id) 221 (maybeId (str "HEAD") id)
  /\ servesText (BodyCmd id) 222 (maybeId (str "BODY") id)
  /\ servesText Help 100 (str "HELP").
Proof.
  intros Hid.
  assert (Hplain : forall s, ~ In PERCENT (str s) -> ~ In PERCENT (maybeId (str s) id))
    by (intros s Hs; now apply maybeId_plain).
  split; [|split; [|split]];
    try (apply textCmd_serves; [lia|apply Hplain; vm_compute; intuition discriminate]).
  assert (Hh : ~ In PERCENT (str "HELP")) by (vm_compute; intuition discriminate).
  pose proof (textCmd_serves 100 (str "HELP") ltac:(lia) Hh) as Hs.
  unfold textCmd in Hs. rewrite Sprintf0_plain in Hs by assumption. exact Hs.
Qed.

End ArticleCommands.

Lemma nextLastStat_reply_witness :
  @Stat plainFmt (str "<a@x>") (session (str "223 7 <a@x> article exists" ++ CRLF))
  = Ret ((str "7", str "<a@x>", None),
         answered (session (str "223 7 <a@x> article exists" ++ CRLF))
                  (str "STAT <a@x>") []).
Proof.
  refine (proj1 (proj2 (@nextLastStat_reply plainFmt (str "STAT") (str "<a@x>")
                          (session (str "223 7 <a@x> article exists" ++ CRLF))
                          (str "223 7 <a@x> article exists" ++ CRLF) []
                          (str "7 <a@x> article exists") 223 _ _ _ _))
            eq_refl (str "7") (str "<a@x>") _ _ _).
  - repeat split.
  - exists (str "223 7 <a@x> article exists" ++ [CR]), "2"%char, "2"%char, "3"%char.
    repeat split. vm_compute; intuition discriminate.
  - reflexivity.
  - vm_compute; intuition discriminate.
  - vm_compute; intuition discriminate.
  - vm_compute; intuition discriminate.
  - right. exists (str "article exists"). reflexivity.
Defined.

Lemma text_commands_serve_witness :
  let c1 := set_br (answered bodySession (str "BODY <a@x>")
                      (wire [str "first" ++ [CR]; str "..second" ++ [CR]] ++ [DOT; CR; LF]
                       ++ str "223 7 <b@x>" ++ CRLF))
                   (Some (mkBody false [])) in
  @BodyCmd plainFmt (str "<a@x>") bodySession = Ret (None, c1)
  /\ ReadAllSized (fun _ => 3%nat) (mkBody false []) (conn_r c1)
     = Ret ((str "first" ++ [LF] ++ str ".second" ++ [LF], None), mkBody true [],
            mkBufio (str "223 7 <b@x>" ++ CRLF) IoEOF (Some LF))
  /\ forall E' command',
       cmd E' command' c1
       = cmd E' command' (answered bodySession (str "BODY <a@x>")
                            (str "223 7 <b@x>" ++ CRLF)).
Proof.
  refine (proj1 (proj1 (proj2 (proj2 (@text_commands_serve plainFmt (str "<a@x>") _)))
                   bodySession (str "222 0 <a@x>" ++ CRLF) (str "0 <a@x>") 222 _ _)
            eq_refl [str "first" ++ [CR]; str "..second" ++ [CR]] [DOT; CR; LF]
            (str "223 7 <b@x>" ++ CRLF) (fun _ => 3%nat) _ _ _ _).
  - vm_compute; intuition discriminate.
  - repeat split.
  - exists (str "222 0 <a@x>" ++ [CR]), "2"%char, "2"%char, "2"%char.
    repeat split. vm_compute; intuition discriminate.
  - repeat constructor; vm_compute; intuition discriminate.
  - now left.
  - intros k. lia.
  - reflexivity.
Defined.

(** ** Error values ([ErrorCode], [IsProtocol], [Error.Error]) *)

Lemma bodyReader_Read_transport (n : nat) (r r' : bodyReader) (cr cr' : Bufio)
    (data : bytes) (e : error) :
  bodyReader_Read n r cr = Ret ((data, Some e), r', cr') -> exists io, e = ioE io.
Proof.
  unfold bodyReader_Read.
  destruct (eof r); [intros H; inversion H; now exists IoEOF|].
  destruct (len (buf r) =? 0); [|discriminate].
  destruct (ReadBytes LF cr) as [[b [e0|]] cr1] eqn:HR.
  - apply ReadBytes_error in HR as [-> _].
    intros H; inversion H; subst. eauto.
  - destruct (at_ b (len b - 2)) as [c0| |]; cbn [bindRes]; try discriminate.
    repeat break_match; intros H; inversion H; now exists IoEOF.
Qed.

Lemma readAllLoop_transport (fuel : nat) :
  forall sizes k acc r cr data e r' cr',
    readAllLoop fuel sizes k acc r cr = Ret ((data, Some e), r', cr') ->
    exists io, e = ioE io.
Proof.
  induction fuel as [|fuel IH]; intros sizes k acc r cr data e r' cr'; [discriminate|].
  rewrite readAllLoop_S.
  destruct (bodyReader_Read (sizes k) r cr) as [[[[d [e1|]] r1] cr1]| |] eqn:HR;
    cbn [bindRes]; try discriminate.
  - apply bodyReader_Read_transport in HR.
    destruct (isEOF e1); intros H; inversion H; subst; assumption.
  - apply IH.
Qed.

Lemma drain_transport (c c' : Conn) (e : error) :
  drain c = Ret (Some e, c') -> exists io, e = ioE io.
Proof.
  unfold drain. destruct (conn_br c) as [r|]; [|discriminate].
  unfold discard, ReadAll, ReadAllSized.
  destruct (readAllLoop _ _ _ _ _ _) as [[[[d [e0|]] r'] cr']| |] eqn:HR;
    cbn [bindRes]; try discriminate.
  intros H; inversion H; subst. eapply readAllLoop_transport; eassumption.
Qed.

Lemma ErrorCode_ioE (io : ioError) :
  ErrorCode (Some (ioE io)) = 0 /\ IsProtocol (Some (ioE io)) = false.
Proof. now destruct io. Qed.

(** X18: whenever [cmd] returns an error, [ErrorCode] of that error is the
    code [cmd] returns with it: the server's code for an answer with
    another code than expected, and 0 for every other failure.  An error
    for which [IsProtocol] holds comes with the code 0 and no text, and an
    error with a code other than 0 is the [Error] with that code and the
    text of the answer. *)
Theorem cmd_error_kinds (E : Z) (command : bytes) (c c' : Conn) (code : Z)
    (line : bytes) (e : error) :
  cmd E command c = Ret ((code, line, Some e), c') ->
  ErrorCode (Some e) = code
  /\ (code <> 0 -> e = Error code line /\ codeMismatch E code = true)
  /\ (IsProtocol (Some e) = true -> code = 0 /\ line = []).
Proof.
  unfold cmd. destruct (conn_close c).
  { intros H; inversion H; subst. repeat split; auto; contradiction. }
  destruct (drain c) as [[[de|] c1]| |] eqn:Hd; cbn [bindRes]; try discriminate.
  { apply drain_transport in Hd as [io ->].
    intros H; inversion H; subst. destruct (ErrorCode_ioE io) as [H1 H2].
    repeat split; auto; contradiction. }
  unfold Fprintf. destruct (werr (conn_w c1)) as [we|].
  { intros H; inversion H; subst. destruct (ErrorCode_ioE we) as [H1 H2].
    repeat split; auto; contradiction. }
  destruct (ReadString LF _) as [[raw [re|]] r'] eqn:HR.
  { apply ReadBytes_error in HR as [-> _].
    intros H; inversion H; subst. destruct (ErrorCode_ioE (ioerr (conn_r c1))) as [H1 H2].
    cbn [conn_r set_w] in *. repeat split; auto; try contradiction; congruence. }
  destruct (_ || _).
  { intros H; inversion H; subst. repeat split; auto; contradiction. }
  destruct (ParseUint _) as [i [pe|]].
  { intros H; inversion H; subst. repeat split; auto; contradiction. }
  destruct (codeMismatch E i) eqn:Em; intros H; inversion H; subst.
  split; [reflexivity|]. split; [intros _; split; [reflexivity|assumption]|discriminate].
Qed.

Lemma cmd_error_kinds_witness :
  ErrorCode (Some (Error 411 (str "no such group"))) = 411
  /\ (411 <> 0 ->
      Error 411 (str "no such group") = Error 411 (str "no such group")
      /\ codeMismatch 211 411 = true)
  /\ (IsProtocol (Some (Error 411 (str "no such group"))) = true ->
      411 = 0 /\ str "no such group" = []).
Proof.
  apply (cmd_error_kinds 211 (str "GROUP misc.nope")
           (session (str "411 no such group" ++ CRLF))
           (answered (session (str "411 no such group" ++ CRLF)) (str "GROUP misc.nope") [])).
  vm_compute. reflexivity.
Defined.

Lemma digitVal_char (d : ascii) (v : Z) :
  digitVal d = Some v -> d = digitChar v /\ In v [0; 1; 2; 3; 4; 5; 6; 7; 8; 9].
Proof.
  unfold digitVal, digitChar.
  destruct (_ && _)%nat eqn:E; [|discriminate].
  apply andb_true_iff in E as [E1 E2]. apply Nat.leb_le in E1, E2.
  intros [= <-]. split.
  - replace (Z.to_nat (48 + (Z.of_nat (nat_of_ascii d) - 48))) with (nat_of_ascii d) by lia.
    now rewrite ascii_nat_embedding.
  - assert (H : exists k, (k < 10)%nat /\ nat_of_ascii d = (48 + k)%nat)
      by (exists (nat_of_ascii d - 48)%nat; lia).
    destruct H as (k & Hk & ->).
    do 10 (destruct k as [|k]; [simpl; tauto|]). lia.
Qed.

Lemma pad3_digits (v1 v2 v3 : Z) :
  In v1 [0; 1; 2; 3; 4; 5; 6; 7; 8; 9] ->
  In v2 [0; 1; 2; 3; 4; 5; 6; 7; 8; 9] ->
  In v3 [0; 1; 2; 3; 4; 5; 6; 7; 8; 9] ->
  pad3 (10 * (10 * (10 * 0 + v1) + v2) + v3) = [digitChar v1; digitChar v2; digitChar v3].
Proof.
  intros H1 H2 H3.
  assert (Hall :
    forallb (fun a => forallb (fun b => forallb (fun c =>
      bytes_eqb (pad3 (10 * (10 * (10 * 0 + a) + b) + c))
                [digitChar a; digitChar b; digitChar c])
      [0; 1; 2; 3; 4; 5; 6; 7; 8; 9]) [0; 1; 2; 3; 4; 5; 6; 7; 8; 9])
      [0; 1; 2; 3; 4; 5; 6; 7; 8; 9] = true) by (vm_compute; reflexivity).
  rewrite forallb_forall in Hall. specialize (Hall v1 H1).
  rewrite forallb_forall in Hall. specialize (Hall v2 H2).
  rewrite forallb_forall in Hall. specialize (Hall v3 H3).
  now apply bytes_eqb_eq.
Qed.

Lemma pad3_ParseUint (d1 d2 d3 : ascii) (C : Z) :
  ParseUint [d1; d2; d3] = (C, None) -> pad3 C = [d1; d2; d3].
Proof.
  unfold ParseUint. cbn [digits].
  destruct (digitVal d1) as [v1|] eqn:E1; [|discriminate].
  destruct (digitVal d2) as [v2|] eqn:E2; [|discriminate].
  destruct (digitVal d3) as [v3|] eqn:E3; [|discriminate].
  apply digitVal_char in E1 as [-> H1], E2 as [-> H2], E3 as [-> H3].
  destruct (_ <? 2 ^ 64); [|discriminate].
  intros [= <-]. now apply pad3_digits.
Qed.

(** X19: the message of the [Error] that [cmd] returns for an answer with
    another code than expected is the server's status line, trimmed: the
    code printed with three digits, a space and the text reproduce it. *)
Theorem Error_message_is_status_line (E : Z) (command : bytes) (c : Conn)
    (raw more text : bytes) (C : Z) :
  ready c -> statusLine raw C text ->
  pending (conn_r c) = raw ++ more ->
  codeMismatch E C = true ->
  cmd E command c = Ret ((C, text, Some (Error C text)), answered c command more)
  /\ Error_Error C text = TrimSpace raw.
Proof.
  intros Hr Hs Hp Hm. split.
  - rewrite (cmd_reply E command c raw more C text Hr Hs Hp). now rewrite Hm.
  - destruct Hs as (l & d1 & d2 & d3 & _ & _ & -> & Hc).
    unfold Error_Error. now rewrite (pad3_ParseUint d1 d2 d3 C Hc).
Qed.

Lemma Error_message_is_status_line_witness :
  cmd 211 (str "GROUP misc.nope") (session (str "  041 odd code " ++ CRLF))
  = Ret ((41, str "odd code", Some (Error 41 (str "odd code"))),
         answered (session (str "  041 odd code " ++ CRLF)) (str "GROUP misc.nope") [])
  /\ Error_Error 41 (str "odd code") = TrimSpace (str "  041 odd code " ++ CRLF).
Proof.
  apply (Error_message_is_status_line 211 (str "GROUP misc.nope")
           (session (str "  041 odd code " ++ CRLF)) (str "  041 odd code " ++ CRLF) []
           (str "odd code") 41).
  - repeat split.
  - exists (str "  041 odd code " ++ [CR]), "0"%char, "4"%char, "1"%char.
    repeat split. vm_compute; intuition discriminate.
  - reflexivity.
  - reflexivity.
Defined.

(** ** The name of an article ([Article.String]) *)

Lemma readHeaderLoop_values (fuel : nat) :
  forall hdr r a err r',
    nonEmptyValues hdr ->
    readHeaderLoop fuel hdr r = Ret ((Some a, err), r') ->
    nonEmptyValues (Header a).
Proof.
  induction fuel as [|fuel IH]; intros hdr r a err r' Hne; [discriminate|].
  rewrite readHeaderLoop_S.
  destruct (readKeyValue r) as [[[[key value] [e|]] r1]| |]; cbn [bindRes];
    try discriminate.
  destruct (len key =? 0).
  { intros H; inversion H; subst. exact Hne. }
  destruct (hdr !! CanonicalHeaderKey key) as [old|] eqn:Hk; apply IH.
  - intros k v. destruct (decide (k = CanonicalHeaderKey key)) as [->|Hd].
    + rewrite lookup_insert_eq. intros [= <-]. now destruct old.
    + rewrite lookup_insert_ne by congruence. apply Hne.
  - intros k v. destruct (decide (k = CanonicalHeaderKey key)) as [->|Hd].
    + rewrite lookup_insert_eq. intros [= <-]. discriminate.
    + rewrite lookup_insert_ne by congruence. apply Hne.
Qed.

(** X20: [String] never fails on an article that [readHeader] returned,
    since every key of its header has a value; for a header of well-formed
    fields it shows the value of the first field whose name is Message-Id
    in any spelling of upper and lower case, and no id when there is no
    such field. *)
Theorem Article_String_of_header (r : Bufio) :
  (forall a err r',
      readHeader r = Ret ((Some a, err), r') -> exists s, Article_String a = Ret s)
  /\ (forall eol ending e fs lb,
         lineEnd eol -> Forall (wfField eol) fs -> headerEnd eol ending e ->
         r = mkBufio (concat (map (render eol) fs) ++ ending) e lb ->
         exists a r',
           readHeader r = Ret ((Some a, None), r')
           /\ Article_String a
              = Ret (match valuesOf (str "Message-Id") fs with
                     | [] => str "[NNTP article]"
                     | v :: _ => str "[NNTP article " ++ v ++ str "]"
                     end)).
Proof.
  split.
  - intros a err r' Hr. unfold readHeader in Hr.
    apply readHeaderLoop_values in Hr; [|intros k v; now rewrite lookup_empty].
    unfold Article_String.
    destruct (Header a !! str "Message-Id") as [id|] eqn:Hid; [|eauto].
    destruct id as [|id0 id]; [now elim (Hr _ _ Hid)|].
    cbn [index nth_error bindRes]. eauto.
  - intros eol ending e fs lb Hel Hfs Hend ->. unfold readHeader. cbn [pending].
    destruct (readHeaderLoop_fields eol ending e Hel Hend fs
                (S (S (length (concat (map (render eol) fs) ++ ending)))) ∅ lb Hfs)
      as (r' & Hr).
    { pose proof (fields_length eol fs). rewrite length_app. lia. }
    rewrite Hr. eexists _, _. split; [reflexivity|].
    unfold Article_String. cbn [Header]. rewrite collect_lookup, lookup_empty.
    destruct (valuesOf (str "Message-Id") fs) as [|v vs]; reflexivity.
Qed.

Lemma Article_String_of_header_witness :
  exists a r',
    readHeader (mkBufio (concat (map (render CRLF) exampleFields) ++ CRLF ++ str "body") IoEOF
                        None)
    = Ret ((Some a, None), r')
    /\ Article_String a = Ret (str "[NNTP article <1@x>]").
Proof.
  refine (proj2 (Article_String_of_header _) CRLF (CRLF ++ str "body") IoEOF
            exampleFields None _ _ _ eq_refl).
  - now left.
  - repeat constructor; vm_compute; intuition discriminate.
  - right. now exists (str "body").
Defined.

(** An article built by hand with a key that has no value makes [String]
    index an empty slice. *)
Lemma Article_String_no_value :
  Article_String (mkArticle {[ str "Message-Id" := [] ]} None)
  = Panic (IndexOutOfRange 0 0).
Proof. reflexivity. Qed.

(** ** Listing a group ([ListGroup]) *)

Lemma In_removelast {A} (a : A) (l : list A) : In a (removelast l) -> In a l.
Proof.
  induction l as [|b l IH]; [auto|].
  cbn [removelast]. destruct l as [|c l]; [intros []|].
  intros [<-|H]; [now left|right; auto].
Qed.

Lemma stripCR_noLF (x : bytes) : ~ In LF x -> ~ In LF (stripCR x).
Proof.
  intros H. unfold stripCR. destruct (last x) as [c|]; [|assumption].
  destruct (byte_eqb c CR); [|assumption].
  intros H'. apply H. now apply In_removelast.
Qed.

Lemma decodeLine_shape (x : bytes) :
  ~ In LF x -> exists y, decodeLine x = y ++ [LF] /\ ~ In LF y.
Proof.
  intros H. apply stripCR_noLF in H. unfold decodeLine.
  destruct (stripCR x) as [|a s].
  - exists []. split; [reflexivity|auto].
  - destruct (HasPrefix ((a :: s) ++ [LF]) dotdot).
    + exists s. split; [reflexivity|]. intros H'. apply H. now right.
    + exists (a :: s). split; [reflexivity|assumption].
Qed.

Lemma fillLoop_S (i : nat) (b : BodyBufio) (r : bodyReader) (cr : Bufio) :
  fillLoop (S i) b r cr
  = let* ((data, err), r', cr') :=
      bodyReader_Read (Z.to_nat bufSize - length (bb_buf b)) r cr in
    let b' := mkBB (bb_buf b ++ data) (bb_err b) in
    match err with
    | Some e => Ret (mkBB (bb_buf b') (Some e), r', cr')
    | None =>
        if 0 <? len data then Ret (b', r', cr')
        else fillLoop i b' r' cr'
    end.
Proof. reflexivity. Qed.

Lemma bodyReadSlice_S (fuel s : nat) (b : BodyBufio) (r : bodyReader) (cr : Bufio) :
  bodyReadSlice (S fuel) s b r cr
  = let i := IndexByte (skipn s (bb_buf b)) LF in
    if 0 <=? i then
      let n := (s + Z.to_nat i + 1)%nat in
      Ret ((firstn n (bb_buf b), None), mkBB (skipn n (bb_buf b)) (bb_err b), r, cr)
    else
      match bb_err b with
      | Some e => Ret ((bb_buf b, Some e), mkBB [] None, r, cr)
      | None =>
          if bufSize <=? len (bb_buf b)
          then Ret ((bb_buf b, Some ErrBufferFull), mkBB [] None, r, cr)
          else
            let* (b', r', cr') := fillLoop maxConsecutiveEmptyReads b r cr in
            bodyReadSlice fuel (length (bb_buf b)) b' r' cr'
      end.
Proof. reflexivity. Qed.

Lemma bodyReadString_S (fuel : nat) (acc : bytes) (b : BodyBufio) (r : bodyReader)
    (cr : Bufio) :
  bodyReadString (S fuel) acc b r cr
  = let* ((frag, e), b', r', cr') := bodyReadSlice sliceFuel 0 b r cr in
    match e with
    | None => Ret ((acc ++ frag, None), b', r', cr')
    | Some ErrBufferFull => bodyReadString fuel (acc ++ frag) b' r' cr'
    | Some e => Ret ((acc ++ frag, Some e), b', r', cr')
    end.
Proof. reflexivity. Qed.

(** A line that fits the buffer is read with one fill. *)
Lemma bodyReadString_line (fuel : nat) (x more : bytes) (e : ioError) (lb : option ascii) :
  bodyLine x -> len (decodeLine x) <= bufSize ->
  bodyReadString (S fuel) [] (mkBB [] None) (mkBody false []) (mkBufio (x ++ LF :: more) e lb)
  = Ret ((decodeLine x, None), mkBB [] None, mkBody false [], mkBufio more e (Some LF)).
Proof.
  intros Hx Hlen. rewrite bodyReadString_S.
  unfold sliceFuel. change (Z.to_nat bufSize + 2)%nat with (S (S (Z.to_nat bufSize))).
  rewrite bodyReadSlice_S. cbn [bb_buf bb_err skipn IndexByte].
  change (0 <=? -1) with false. cbv iota.
  change (bufSize <=? len []) with false. cbv iota.
  change maxConsecutiveEmptyReads with (S 99). rewrite fillLoop_S.
  cbn [bb_buf bb_err length].
  rewrite Nat.sub_0_r, (Read_line _ x more e lb Hx). cbn [bindRes].
  assert (Hfit : (length (decodeLine x) <= Z.to_nat bufSize)%nat) by (unfold len in Hlen; lia).
  rewrite firstn_all2 by assumption. rewrite skipn_all2 by assumption.
  cbn [app].
  pose proof (decodeLine_length x) as Hdl.
  replace (0 <? len (decodeLine x)) with true by (symmetry; apply Z.ltb_lt; unfold len; lia).
  cbn [bindRes length]. rewrite bodyReadSlice_S. cbn [bb_buf bb_err skipn length].
  destruct (decodeLine_shape x (proj1 Hx)) as (y & Hy & Hny).
  rewrite Hy, !drop_0. rewrite (IndexByte_app y [] LF Hny).
  replace (0 <=? len y) with true by (symmetry; apply Z.leb_le; unfold len; lia).
  cbv zeta. unfold len. rewrite Nat2Z.id. cbn [Nat.add].
  replace (length y + 1)%nat with (length (y ++ [LF])) by (rewrite length_app; reflexivity).
  rewrite firstn_all, skipn_all. reflexivity.
Qed.

(** At the terminator the stream ends: [ReadString] returns no byte and
    EOF. *)
Lemma bodyReadString_end (fuel : nat) (t rest : bytes) (e : ioError) (lb : option ascii) :
  terminator t ->
  bodyReadString (S fuel) [] (mkBB [] None) (mkBody false []) (mkBufio (t ++ rest) e lb)
  = Ret (([], Some EOF), mkBB [] None, mkBody true [], mkBufio rest e (Some LF)).
Proof.
  intros Ht. rewrite bodyReadString_S.
  unfold sliceFuel. change (Z.to_nat bufSize + 2)%nat with (S (S (Z.to_nat bufSize))).
  rewrite bodyReadSlice_S. cbn [bb_buf bb_err skipn IndexByte].
  change (0 <=? -1) with false. cbv iota.
  change (bufSize <=? len []) with false. cbv iota.
  change maxConsecutiveEmptyReads with (S 99). rewrite fillLoop_S.
  cbn [bb_buf bb_err length].
  rewrite (Read_terminator _ t rest e lb Ht). cbn [bindRes app bb_buf].
  rewrite bodyReadSlice_S. cbn [bb_buf bb_err skipn IndexByte length].
  reflexivity.
Qed.

Lemma stringFuel_S (b : BodyBufio) (r : bodyReader) (cr : Bufio) :
  exists n, stringFuel b r cr = S n.
Proof. unfold stringFuel. eexists. rewrite Nat.add_comm. reflexivity. Qed.

Lemma listGroupLoop_S (fuel : nat) (eof : bool) (articles : list Z) (br : BodyBufio)
    (r : bodyReader) (cr : Bufio) :
  listGroupLoop (S fuel) eof articles br r cr
  = let* ((line, err), br', r', cr') :=
      bodyReadString (stringFuel br r cr) [] br r cr in
    let eof := eof || match err with Some e => isEOF e | None => false end in
    match (match err with Some e => if isEOF e then None else Some e | None => None end) with
    | Some e => Ret (([], Some e), r', cr')
    | None =>
        if eof && (len line =? 0) then Ret ((articles, None), r', cr')
        else
          let line := TrimSpace line in
          if bytes_eqb line [DOT] then Ret ((articles, None), r', cr')
          else
            match ParseInt line with
            | (_, Some e) => Ret (([], Some (NumErrorOf line e)), r', cr')
            | (num, None) => listGroupLoop fuel eof (articles ++ [num]) br' r' cr'
            end
    end.
Proof. reflexivity. Qed.

Lemma listGroupLoop_lines (tail : bytes) (e : ioError) (xs : list bytes) (vs : list Z) :
  Forall2 numberLine xs vs ->
  forall (fuel : nat) (articles : list Z) (lb : option ascii),
    (length xs <= fuel)%nat ->
    listGroupLoop fuel false articles (mkBB [] None) (mkBody false [])
                  (mkBufio (wire xs ++ tail) e lb)
    = listGroupLoop (fuel - length xs) false (articles ++ vs) (mkBB [] None)
                    (mkBody false [])
                    (mkBufio tail e (match xs with [] => lb | _ => Some LF end)).
Proof.
  induction 1 as [|x v xs vs (Hx & Hlen & Hnum) Hxs IH]; intros fuel articles lb Hf.
  - cbn [wire map concat app length]. now rewrite Nat.sub_0_r, app_nil_r.
  - destruct fuel as [|fuel]; [simpl in Hf; lia|].
    rewrite listGroupLoop_S.
    destruct (stringFuel_S (mkBB [] None) (mkBody false [])
                (mkBufio (wire (x :: xs) ++ tail) e lb)) as [n ->].
    unfold wire. cbn [map concat]. fold (wire xs). rewrite <- !app_assoc. cbn [app].
    rewrite (bodyReadString_line n x _ e lb Hx Hlen). cbn [bindRes orb].
    pose proof (decodeLine_length x) as Hdl.
    replace (len (decodeLine x) =? 0) with false
      by (symmetry; apply Z.eqb_neq; unfold len; lia).
    cbn [andb]. cbv zeta.
    destruct (bytes_eqb (TrimSpace (decodeLine x)) [DOT]) eqn:Ed.
    { apply bytes_eqb_eq in Ed. rewrite Ed in Hnum. vm_compute in Hnum. discriminate. }
    rewrite Hnum. rewrite IH by (simpl in Hf; lia).
    cbn [length]. rewrite <- app_assoc. cbn [app].
    replace (S fuel - S (length xs))%nat with (fuel - length xs)%nat by lia.
    destruct xs; reflexivity.
Qed.

Lemma wire_count (xs : list bytes) : (length xs <= length (wire xs))%nat.
Proof.
  induction xs as [|x xs IH]; [simpl; lia|].
  unfold wire. cbn [map concat]. fold (wire xs). rewrite !length_app. simpl. lia.
Qed.

Lemma listGroupLoop_listing (xs : list bytes) (vs : list Z) (t rest : bytes)
    (e : ioError) (lb : option ascii) :
  Forall2 numberLine xs vs -> terminator t ->
  listGroupLoop (S (stringFuel (mkBB [] None) (mkBody false [])
                      (mkBufio (wire xs ++ t ++ rest) e lb)))
                false [] (mkBB [] None) (mkBody false [])
                (mkBufio (wire xs ++ t ++ rest) e lb)
  = Ret ((vs, None), mkBody true [], mkBufio rest e (Some LF)).
Proof.
  intros Hxs Ht.
  pose proof (wire_count xs) as Hw.
  rewrite (listGroupLoop_lines (t ++ rest) e xs vs Hxs)
    by (unfold stringFuel; cbn [pending bb_buf buf length]; rewrite length_app; lia).
  destruct (_ - length xs)%nat as [|fuel] eqn:Ef.
  { unfold stringFuel in Ef. cbn [pending bb_buf buf length] in Ef.
    rewrite length_app in Ef. lia. }
  rewrite listGroupLoop_S.
  match goal with
  | |- context [bodyReadString (stringFuel ?b ?r ?cr)] =>
      destruct (stringFuel_S b r cr) as [n ->]
  end.
  rewrite (bodyReadString_end n t rest e _ Ht). reflexivity.
Qed.

Section ListGroupProperties.
Context `{F : Fmt}.

(** X21: [ListGroup] sends LISTGROUP with the group and the range (the
    lower bound and a hyphen when [from] is not negative, the upper bound
    when [to] is not negative, the latter right after the group when
    [from] is negative).  When the server answers 211 and lists article
    numbers up to the terminator, the call returns them in the order sent,
    with the group's name and the counts of the status line (zeros when
    the status text has fewer than three fields), and has read the body
    through the terminator. *)
Theorem ListGroup_listing (group : bytes) (from to : Z) (c : Conn) (raw text : bytes)
    (xs : list bytes) (vs : list Z) (t rest : bytes) :
  ((0 <= from -> 0 <= to ->
    listGroupCommand group from to
    = str "LISTGROUP " ++ group ++ [SP] ++ Itoa from ++ str "-" ++ Itoa to)
   /\ (0 <= from -> to < 0 ->
       listGroupCommand group from to = str "LISTGROUP " ++ group ++ [SP] ++ Itoa from ++ str "-")
   /\ (from < 0 -> 0 <= to ->
       listGroupCommand group from to = str "LISTGROUP " ++ group ++ Itoa to)
   /\ (from < 0 -> to < 0 -> listGroupCommand group from to = str "LISTGROUP " ++ group))
  /\ (ready c -> ~ In PERCENT (listGroupCommand group from to) ->
      statusLine raw 211 text ->
      Forall2 numberLine xs vs -> terminator t ->
      pending (conn_r c) = raw ++ wire xs ++ t ++ rest ->
      let c' := set_br (answered c (listGroupCommand group from to) rest)
                       (Some (mkBody true [])) in
      (forall count low high,
          groupCounts text count low high ->
          ListGroup group from to c
          = Ret ((listGroupCommand group from to ++ [LF],
                  Some (mkListing (mkGroup group count high low []) vs), None), c'))
      /\ ((length (SplitN text SP 4) < 3)%nat ->
          ListGroup group from to c
          = Ret ((listGroupCommand group from to ++ [LF],
                  Some (mkListing (mkGroup group 0 0 0 []) vs), None), c'))).
Proof.
  split.
  - unfold listGroupCommand. repeat split; intros H1 H2.
    + replace (0 <=? from) with true by (symmetry; now apply Z.leb_le).
      replace (0 <=? to) with true by (symmetry; now apply Z.leb_le).
      now rewrite <- !app_assoc.
    + replace (0 <=? from) with true by (symmetry; now apply Z.leb_le).
      replace (0 <=? to) with false by (symmetry; now apply Z.leb_gt).
      now rewrite <- !app_assoc.
    + replace (0 <=? from) with false by (symmetry; now apply Z.leb_gt).
      replace (0 <=? to) with true by (symmetry; now apply Z.leb_le).
      now rewrite <- !app_assoc.
    + replace (0 <=? from) with false by (symmetry; now apply Z.leb_gt).
      replace (0 <=? to) with false by (symmetry; now apply Z.leb_gt).
      reflexivity.
  - intros Hr Hpc Hs Hxs Ht Hp c'.
    assert (Hrun : forall g,
      (if 3 <=? len (SplitN text SP 4) then parseGroupStatus text
       else Ret (Some (mkGroup [] 0 0 0 []), None)) = Ret (Some g, None) ->
      ListGroup group from to c
      = Ret ((listGroupCommand group from to ++ [LF],
              Some (mkListing (set_Name g group) vs), None), c')).
    { intros g Hst. unfold ListGroup. rewrite Sprintf0_plain by assumption.
      rewrite (cmd_reply _ _ c raw _ 211 text Hr Hs Hp). cbn [bindRes].
      change (codeMismatch 211 211) with false. cbv iota.
      rewrite Hst. cbn [bindRes body answered conn_r set_br set_r set_w].
      rewrite (listGroupLoop_listing xs vs t rest _ _ Hxs Ht). cbn [bindRes].
      reflexivity. }
    split.
    + intros count low high (cs & ls & hs & tl & Hss & Hc & Hl & Hh).
      rewrite (Hrun (mkGroup [] count high low [])); [reflexivity|].
      unfold parseGroupStatus. rewrite Hss.
      replace (3 <=? len (cs :: ls :: hs :: tl)) with true
        by (symmetry; apply Z.leb_le; unfold len; cbn [length]; lia).
      replace (len (cs :: ls :: hs :: tl) <? 3) with false
        by (symmetry; apply Z.ltb_ge; unfold len; cbn [length]; lia).
      cbn [parseThree index nth_error bindRes]. rewrite Hc. cbn [bindRes].
      rewrite Hl. cbn [bindRes]. rewrite Hh. reflexivity.
    + intros Hshort. rewrite (Hrun (mkGroup [] 0 0 0 [])); [reflexivity|].
      replace (3 <=? len (SplitN text SP 4)) with false; [reflexivity|].
      symmetry. apply Z.leb_gt. unfold len. lia.
Qed.

End ListGroupProperties.

Lemma ListGroup_listing_witness :
  @ListGroup plainFmt (str "misc.test") 7 (-1) listGroupSession
  = Ret ((str "LISTGROUP misc.test 7-" ++ [LF],
          Some (mkListing (mkGroup (str "misc.test") 3 10 7 []) [7; 8; 10]), None),
         set_br (answered listGroupSession (listGroupCommand (str "misc.test") 7 (-1)) [])
                (Some (mkBody true []))).
Proof.
  refine (proj1 (proj2 (@ListGroup_listing plainFmt (str "misc.test") 7 (-1) listGroupSession
                          (str "211 3 7 10 misc.test list follows" ++ CRLF)
                          (str "3 7 10 misc.test list follows")
                          [str "7" ++ [CR]; str "8" ++ [CR]; str "10" ++ [CR]] [7; 8; 10]
                          [DOT; CR; LF] [])
                   _ _ _ _ _ _) 3 7 10 _).
  - repeat split.
  - vm_compute; intuition discriminate.
  - exists (str "211 3 7 10 misc.test list follows" ++ [CR]), "2"%char, "1"%char, "1"%char.
    repeat split. vm_compute; intuition discriminate.
  - repeat constructor; vm_compute; intuition discriminate.
  - now left.
  - reflexivity.
  - exists (str "3"), (str "7"), (str "10"), [str "misc.test list follows"].
    repeat split.
Defined.

Lemma listGroupLoop_stops (xs : list bytes) (vs : list Z) (x more : bytes)
    (e : ioError) (lb : option ascii) :
  Forall2 numberLine xs vs ->
  bodyLine x -> len (decodeLine x) <= bufSize ->
  let run :=
    listGroupLoop (S (stringFuel (mkBB [] None) (mkBody false [])
                        (mkBufio (wire xs ++ x ++ LF :: more) e lb)))
                  false [] (mkBB [] None) (mkBody false [])
                  (mkBufio (wire xs ++ x ++ LF :: more) e lb) in
  (TrimSpace (decodeLine x) = [DOT] ->
   run = Ret ((vs, None), mkBody false [], mkBufio more e (Some LF)))
  /\ (forall ne,
         TrimSpace (decodeLine x) <> [DOT] ->
         snd (ParseInt (TrimSpace (decodeLine x))) = Some ne ->
         run = Ret (([], Some (NumErrorOf (TrimSpace (decodeLine x)) ne)),
                    mkBody false [], mkBufio more e (Some LF))).
Proof.
  intros Hxs Hx Hlen run. subst run.
  pose proof (wire_count xs) as Hw.
  rewrite (listGroupLoop_lines (x ++ LF :: more) e xs vs Hxs)
    by (unfold stringFuel; cbn [pending bb_buf buf length]; rewrite length_app; lia).
  destruct (S _ - length xs)%nat as [|fuel] eqn:Ef.
  { unfold stringFuel in Ef. cbn [pending bb_buf buf length] in Ef.
    rewrite length_app in Ef. lia. }
  rewrite listGroupLoop_S.
  match goal with
  | |- context [bodyReadString (stringFuel ?b ?r ?cr)] =>
      destruct (stringFuel_S b r cr) as [n ->]
  end.
  rewrite (bodyReadString_line n x more e _ Hx Hlen). cbn [bindRes orb].
  pose proof (decodeLine_length x) as Hdl.
  replace (len (decodeLine x) =? 0) with false
    by (symmetry; apply Z.eqb_neq; unfold len; lia).
  cbn [andb app]. cbv zeta. split.
  - intros ->. reflexivity.
  - intros ne Hnd Hne.
    replace (bytes_eqb (TrimSpace (decodeLine x)) [DOT]) with false
      by (symmetry; now apply bytes_eqb_neq).
    destruct (ParseInt (TrimSpace (decodeLine x))) as [num [ne'|]]; [|discriminate].
    cbn [snd] in Hne. injection Hne as ->. reflexivity.
Qed.

Section ListGroupStops.
Context `{F : Fmt}.

(** X22: a line of the listing that is not a number makes [ListGroup]
    return the error of [strconv.ParseInt] and no listing, and a line that
    is a lone dot once the body reader has undone the dot doubled by the
    server ends the listing without an error; either way the rest of the
    body stays unread. *)
Theorem ListGroup_stops (group : bytes) (from to : Z) (c : Conn) (raw text : bytes)
    (count low high : Z) (xs : list bytes) (vs : list Z) (x more : bytes) :
  ready c -> ~ In PERCENT (listGroupCommand group from to) ->
  statusLine raw 211 text -> groupCounts text count low high ->
  Forall2 numberLine xs vs ->
  bodyLine x -> len (decodeLine x) <= bufSize ->
  pending (conn_r c) = raw ++ wire xs ++ x ++ LF :: more ->
  let c' := set_br (answered c (listGroupCommand group from to) more)
                   (Some (mkBody false [])) in
  (TrimSpace (decodeLine x) = [DOT] ->
   ListGroup group from to c
   = Ret ((listGroupCommand group from to ++ [LF],
           Some (mkListing (mkGroup group count high low []) vs), None), c'))
  /\ (forall ne,
         TrimSpace (decodeLine x) <> [DOT] ->
         snd (ParseInt (TrimSpace (decodeLine x))) = Some ne ->
         ListGroup group from to c
         = Ret ((listGroupCommand group from to ++ [LF], None,
                 Some (NumErrorOf (TrimSpace (decodeLine x)) ne)), c')).
Proof.
  intros Hr Hpc Hs (cs & ls & hs & tl & Hss & Hc & Hl & Hh) Hxs Hx Hlen Hp c'.
  assert (Hst : (if 3 <=? len (SplitN text SP 4) then parseGroupStatus text
                 else Ret (Some (mkGroup [] 0 0 0 []), None))
                = Ret (Some (mkGroup [] count high low []), None)).
  { unfold parseGroupStatus. rewrite Hss.
    replace (3 <=? len (cs :: ls :: hs :: tl)) with true
      by (symmetry; apply Z.leb_le; unfold len; cbn [length]; lia).
    replace (len (cs :: ls :: hs :: tl) <? 3) with false
      by (symmetry; apply Z.ltb_ge; unfold len; cbn [length]; lia).
    cbn [parseThree index nth_error bindRes]. rewrite Hc. cbn [bindRes].
    rewrite Hl. cbn [bindRes]. rewrite Hh. reflexivity. }
  assert (Hrun :
    ListGroup group from to c
    = let* ((articles, err), r', cr') :=
        listGroupLoop (S (stringFuel (mkBB [] None) (mkBody false [])
                            (mkBufio (wire xs ++ x ++ LF :: more) (ioerr (conn_r c))
                                     (Some LF))))
                      false [] (mkBB [] None) (mkBody false [])
                      (mkBufio (wire xs ++ x ++ LF :: more) (ioerr (conn_r c)) (Some LF)) in
      let c1 := set_br (set_r (set_br (answered c (listGroupCommand group from to)
                                         (wire xs ++ x ++ LF :: more))
                                      (Some (mkBody false []))) cr') (Some r') in
      match err with
      | Some e => Ret ((listGroupCommand group from to ++ [LF], None, Some e), c1)
      | None =>
          Ret ((listGroupCommand group from to ++ [LF],
                Some (mkListing (mkGroup group count high low []) articles), None), c1)
      end).
  { unfold ListGroup. rewrite Sprintf0_plain by assumption.
    rewrite (cmd_reply _ _ c raw _ 211 text Hr Hs Hp). cbn [bindRes].
    change (codeMismatch 211 211) with false. cbv iota.
    rewrite Hst. reflexivity. }
  rewrite Hrun.
  destruct (listGroupLoop_stops xs vs x more (ioerr (conn_r c)) (Some LF) Hxs Hx Hlen)
    as [Hdot Hbad].
  split.
  - intros Hd. rewrite (Hdot Hd). reflexivity.
  - intros ne Hnd Hne. rewrite (Hbad ne Hnd Hne). reflexivity.
Qed.

End ListGroupStops.

Lemma ListGroup_stops_witness :
  @ListGroup plainFmt (str "misc.test") (-1) (-1)
    (session (str "211 3 7 10 misc.test" ++ CRLF
              ++ wire [str "7" ++ [CR]] ++ (str "eight" ++ [CR]) ++ LF :: str "10" ++ CRLF
              ++ [DOT] ++ CRLF))
  = Ret ((str "LISTGROUP misc.test" ++ [LF], None,
          Some (NumErrorOf (TrimSpace (decodeLine (str "eight" ++ [CR]))) ErrSyntax)),
         set_br (answered (session (str "211 3 7 10 misc.test" ++ CRLF
                                    ++ wire [str "7" ++ [CR]] ++ (str "eight" ++ [CR])
                                    ++ LF :: str "10" ++ CRLF ++ [DOT] ++ CRLF))
                          (listGroupCommand (str "misc.test") (-1) (-1))
                          (str "10" ++ CRLF ++ [DOT] ++ CRLF))
                (Some (mkBody false []))).
Proof.
  refine (proj2 (@ListGroup_stops plainFmt (str "misc.test") (-1) (-1) _
                   (str "211 3 7 10 misc.test" ++ CRLF) (str "3 7 10 misc.test") 3 7 10
                   [str "7" ++ [CR]] [7] (str "eight" ++ [CR])
                   (str "10" ++ CRLF ++ [DOT] ++ CRLF) _ _ _ _ _ _ _ _) ErrSyntax _ _).
  - repeat split.
  - vm_compute; intuition discriminate.
  - exists (str "211 3 7 10 misc.test" ++ [CR]), "2"%char, "1"%char, "1"%char.
    repeat split. vm_compute; intuition discriminate.
  - exists (str "3"), (str "7"), (str "10"), [str "misc.test"]. repeat split.
  - repeat constructor; vm_compute; intuition discriminate.
  - repeat split; vm_compute; intuition discriminate.
  - vm_compute. discriminate.
  - reflexivity.
  - vm_compute. discriminate.
  - reflexivity.
Defined.

(** ** Opening a connection ([newConn]) *)

(** X23: [newConn] reads one line from the server and does not look at it:
    whatever the greeting says, also a refusal, the connection is returned
    with no error and the first command's answer is the next line.  When
    the transport ends or fails within the greeting, the connection is
    returned together with that error. *)
Theorem newConn_greeting (greeting input : bytes) (e : ioError) :
  ~ In LF greeting ->
  newConn (greeting ++ LF :: input) e
  = (mkConn (mkWriter [] None) (mkBufio input e (Some LF)) None false false false, None)
  /\ newConn greeting e
     = (mkConn (mkWriter [] None) (mkBufio [] e (noteLast greeting None)) None
               false false false,
        Some (ioE e)).
Proof.
  intros H. unfold newConn, newBufio, ReadString. split.
  - now rewrite ReadBytes_line.
  - now rewrite ReadBytes_partial.
Qed.

Lemma newConn_greeting_witness :
  newConn (str "502 access denied" ++ [CR] ++ LF :: str "200 next" ++ CRLF) IoEOF
  = (mkConn (mkWriter [] None) (mkBufio (str "200 next" ++ CRLF) IoEOF (Some LF)) None
            false false false, None)
  /\ newConn (str "502 access denied" ++ [CR]) IoEOF
     = (mkConn (mkWriter [] None)
               (mkBufio [] IoEOF (noteLast (str "502 access denied" ++ [CR]) None)) None
               false false false,
        Some (ioE IoEOF)).
Proof.
  apply (newConn_greeting (str "502 access denied" ++ [CR]) (str "200 next" ++ CRLF) IoEOF).
  vm_compute; intuition discriminate.
Defined.

(** ** Commands with a status only ([ModeReader], [EnableCompression],
    [Date]) *)

Lemma codeMismatch_tens (E C : Z) :
  10 <= E < 100 -> codeMismatch E C = negb (C / 10 =? E).
Proof.
  intros H. unfold codeMismatch.
  replace (E <? 10) with false by (symmetry; apply Z.ltb_ge; lia).
  replace (10 <=? E) with true by (symmetry; apply Z.leb_le; lia).
  replace (E <? 100) with true by (symmetry; apply Z.ltb_lt; lia).
  replace (100 <=? E) with false by (symmetry; apply Z.leb_gt; lia).
  rewrite !andb_false_r. cbn [andb orb]. now rewrite orb_false_r.
Qed.

(** X24: [ModeReader] succeeds exactly for the codes 200 to 209 and
    [EnableCompression] exactly for 290; for any other code they return
    the [Error] with the server's code and text.  Either way the command
    has been written and the answer read. *)
Theorem ModeReader_codes (c : Conn) (raw more text : bytes) (C : Z) :
  ready c -> statusLine raw C text ->
  pending (conn_r c) = raw ++ more ->
  ModeReader c
  = Ret ((if (200 <=? C) && (C <=? 209) then None else Some (Error C text)),
         answered c (str "MODE READER") more)
  /\ EnableCompression c
     = Ret ((if C =? 290 then None else Some (Error C text)),
            answered c (str "XFEATURE COMPRESS GZIP") more).
Proof.
  intros Hr Hs Hp. unfold ModeReader, EnableCompression.
  rewrite !(cmd_reply _ _ c raw more C text Hr Hs Hp). cbn [bindRes].
  rewrite codeMismatch_tens, codeMismatch_exact by lia. split.
  - assert (HC : (C / 10 =? 20) = (200 <=? C) && (C <=? 209)).
    { destruct (C / 10 =? 20) eqn:E1.
      - apply Z.eqb_eq in E1. symmetry. apply andb_true_iff.
        split; apply Z.leb_le; Z.div_mod_to_equations; lia.
      - apply Z.eqb_neq in E1. symmetry. apply andb_false_iff.
        destruct (200 <=? C) eqn:E2; [right|now left].
        apply Z.leb_le in E2. apply Z.leb_gt.
        Z.div_mod_to_equations; lia. }
    rewrite HC. now destruct (_ && _).
  - now destruct (C =? 290).
Qed.

Lemma ModeReader_codes_witness :
  ModeReader (session (str "201 no posting" ++ CRLF))
  = Ret (None, answered (session (str "201 no posting" ++ CRLF)) (str "MODE READER") [])
  /\ EnableCompression (session (str "201 no posting" ++ CRLF))
     = Ret (Some (Error 201 (str "no posting")),
            answered (session (str "201 no posting" ++ CRLF))
                     (str "XFEATURE COMPRESS GZIP") []).
Proof.
  apply (ModeReader_codes (session (str "201 no posting" ++ CRLF))
           (str "201 no posting" ++ CRLF) [] (str "no posting") 201).
  - repeat split.
  - exists (str "201 no posting" ++ [CR]), "2"%char, "0"%char, "1"%char.
    repeat split. vm_compute; intuition discriminate.
  - reflexivity.
Defined.

(** X25: [Date] returns the time that the text of a 111 answer parses to
    in the layout [20060102150405]; a text that does not parse is the
    protocol error "invalid time", any other code the [Error] of the
    answer, and with an error the time returned is the zero time. *)
Theorem Date_reply `{Ext : External} (timeParse : bytes -> bytes -> Time * option error)
    (c : Conn) (raw more text : bytes) (C : Z) :
  ready c -> statusLine raw C text ->
  pending (conn_r c) = raw ++ more ->
  DateCmd timeParse c
  = Ret ((if C =? 111 then
            match timeParse (str "20060102150405") text with
            | (_, Some _) => (zeroTime, Some (ProtocolError (str "invalid time: " ++ text)))
            | (t, None) => (t, None)
            end
          else (zeroTime, Some (Error C text))),
         answered c (str "DATE") more).
Proof.
  intros Hr Hs Hp. unfold DateCmd.
  rewrite (cmd_reply _ _ c raw more C text Hr Hs Hp). cbn [bindRes].
  rewrite codeMismatch_exact by lia.
  destruct (C =? 111); cbn [negb]; [|reflexivity].
  change timeFormatDate with (str "20060102150405").
  now destruct (timeParse _ text) as [t [e|]].
Qed.

Lemma Date_reply_witness :
  @DateCmd storedExternal (fun _ v => (v, None)) (session (str "111 20240101120000" ++ CRLF))
  = Ret ((str "20240101120000", None),
         answered (session (str "111 20240101120000" ++ CRLF)) (str "DATE") []).
Proof.
  apply (@Date_reply storedExternal (fun _ v => (v, None))
           (session (str "111 20240101120000" ++ CRLF))
           (str "111 20240101120000" ++ CRLF) [] (str "20240101120000") 111).
  - repeat split.
  - exists (str "111 20240101120000" ++ [CR]), "1"%char, "1"%char, "1"%char.
    repeat split. vm_compute; intuition discriminate.
  - reflexivity.
Defined.
